(** * Image-to-Pixel: the quantisation and dithering core of image-to-pixel.js

    A shallow embedding of [colorDistance], [findClosestPaletteColor],
    [applyPalette], [distributeError], [floydSteinbergDithering],
    [atkinsonDithering], [orderedDithering], [getBayerMatrix] and of the
    dither/quantise stage of [pixelate], followed by the properties the
    specification states about them.

    JavaScript numbers are IEEE-754 binary64 values; they are modelled by
    Rocq's primitive floats, whose operations are the same binary64
    operations.  A [Uint8ClampedArray] is a list of integers (its bytes), a
    [Float32Array] a list of floats that went through [fround]. *)

From Stdlib Require Import ZArith Lia List Bool String Ascii Floats DecimalString.
From stdpp Require Import base list.

Local Open Scope Z_scope.

(** ** JavaScript numbers *)

Module JsNumber.

(** An integer read as a Number (rounded to nearest-even when it does not
    fit the 53-bit mantissa, as a JavaScript integer literal is). *)
Definition of_Z (z : Z) : float :=
  SF2Prim (binary_normalize prec emax z 0 false).

(** [Math.fround]: the value a [Float32Array] slot keeps when a Number is
    stored into it (binary32: 24-bit mantissa, round to nearest-even). *)
Definition fround (x : float) : float :=
  match Prim2SF x with
  | S754_finite s m e => SF2Prim (binary_round 24 128 s m e)
  | _ => x
  end.

(** The binary64 representation of an integer below 2^53: the mantissa is
    shifted up to 53 bits. *)
Definition digits (p : positive) : Z := Zpos (digits2_pos p).

Definition canon_pos (s : bool) (p : positive) (x : Z) : spec_float :=
  S754_finite s (Z.to_pos (Zpos p * 2 ^ (53 - digits p))) (digits p - 53 + x).

Definition canonZ (n : Z) : spec_float :=
  match n with
  | Z0 => S754_zero false
  | Zpos p => canon_pos false p 0
  | Zneg p => canon_pos true p 0
  end.

(** The signed integer a sign and a magnitude stand for. *)
Definition sval (s : bool) (p : positive) : Z := cond_Zopp s (Zpos p).

End JsNumber.

Import JsNumber.

(** ** Exceptions

    The engine itself raises [TypeError] (reading a property of
    [undefined]); the source raises [Error] with a message. *)

Inductive JsError : Type :=
| TypeError
| Error (message : string).

Inductive Result (A : Type) : Type :=
| Ok (value : A)
| Throw (e : JsError).

Arguments Ok {A} value.
Arguments Throw {A} e.

(** Sequencing: [x ← m; k] runs [k] on the value of [m], or propagates the
    exception [m] threw. *)
#[global] Instance Result_bind : MBind Result := fun A B k m =>
  match m with
  | Ok a => k a
  | Throw e => Throw e
  end.

(** A [for] loop whose body may throw: the state is threaded through the
    iterations in order and the first exception ends the loop. *)
Fixpoint for_each {S A} (body : S -> A -> Result S) (iterations : list A) (st : S)
  : Result S :=
  match iterations with
  | [] => Ok st
  | i :: rest => st' ← body st i; for_each body rest st'
  end.

(** ** Typed arrays

    Reading a typed array outside its bounds yields [undefined]; writing
    outside its bounds does nothing. *)

Definition ta_get {A} (a : list A) (i : Z) : option A :=
  if i <? 0 then None else a !! Z.to_nat i.

Definition ta_set {A} (a : list A) (i : Z) (v : A) : list A :=
  if i <? 0 then a else <[Z.to_nat i := v]> a.

(** [data[i]] of a [Uint8ClampedArray], as the Number the arithmetic of the
    source sees: [undefined] behaves as NaN in every use the source makes of
    it (operand of [+] and [-]). *)
Definition Uint8ClampedArray_get (data : list Z) (i : Z) : float :=
  match ta_get data i with
  | Some b => of_Z b
  | None => nan
  end.

(** [data[i] = v] for an integer [v]: the store clamps to 0..255. *)
Definition clamp8 (v : Z) : Z := Z.max 0 (Z.min 255 v).

Definition Uint8ClampedArray_set (data : list Z) (i : Z) (v : Z) : list Z :=
  ta_set data i (clamp8 v).

(** [new Float32Array(n)], [buffer[i]] and [buffer[i] = v]. *)
Definition Float32Array_new (n : nat) : list float := replicate n 0%float.

Definition Float32Array_get (buffer : list float) (i : Z) : float :=
  match ta_get buffer i with
  | Some v => v
  | None => nan
  end.

Definition Float32Array_set (buffer : list float) (i : Z) (v : float) : list float :=
  ta_set buffer i (fround v).

(** ** Colours

    A palette entry is what [hexToRgb] builds: three integers.  The colour
    handed to [findClosestPaletteColor] is an array of three Numbers. *)

Definition Color : Type := Z * Z * Z.
Definition NumColor : Type := float * float * float.

Definition is_byte (v : Z) : Prop := 0 <= v <= 255.
Definition is_color (c : Color) : Prop :=
  let '(r, g, b) := c in is_byte r /\ is_byte g /\ is_byte b.

Definition num_color (c : Color) : NumColor :=
  let '(r, g, b) := c in (of_Z r, of_Z g, of_Z b).

(** ** DitheringCoefficients (image-to-pixel.js, lines 46-60) *)

Module DitheringCoefficients.
Module FLOYD_STEINBERG.
Definition RIGHT : float := (7 / 16)%float.
Definition BOTTOM_LEFT : float := (3 / 16)%float.
Definition BOTTOM : float := (5 / 16)%float.
Definition BOTTOM_RIGHT : float := (1 / 16)%float.
End FLOYD_STEINBERG.
Module ATKINSON.
Definition COEFFICIENT : float := (1 / 8)%float.
End ATKINSON.
Definition ORDERED_THRESHOLD_CENTER : float := 127.5%float.
End DitheringCoefficients.

(** ** colorDistance (lines 826-832) *)

Definition colorDistance (color1 : NumColor) (color2 : Color) : float :=
  let '(r1, g1, b1) := color1 in
  let '(r2, g2, b2) := color2 in
  let rDiff := (r1 - of_Z r2)%float in
  let gDiff := (g1 - of_Z g2)%float in
  let bDiff := (b1 - of_Z b2)%float in
  (rDiff * rDiff + gDiff * gDiff + bDiff * bDiff)%float.

(** ** findClosestPaletteColor (lines 791-804)

    With an empty palette [palette[0]] is [undefined] and [colorDistance]
    throws a TypeError when it reads [color2[0]]. *)

Definition closer (color : NumColor) (closest : Color * float) (current : Color)
  : Color * float :=
  let '(closestColor, closestDistance) := closest in
  let currentDistance := colorDistance color current in
  if (currentDistance <? closestDistance)%float
  then (current, currentDistance)
  else (closestColor, closestDistance).

Definition findClosestPaletteColor (color : NumColor) (palette : list Color)
  : Result Color :=
  match palette with
  | [] => Throw TypeError
  | first :: rest =>
      Ok (fst (fold_left (closer color) rest (first, colorDistance color first)))
  end.

(** ** applyPalette (lines 541-550) *)

(** The values [i] takes in [for (let i = 0; i < length; i += 4)]. *)
Definition pixel_offsets (length : nat) : list Z :=
  (fun k => 4 * k) <$> seqZ 0 ((Z.of_nat length + 3) / 4).

Definition applyPalette_body (paletteColors : list Color) (data : list Z) (i : Z)
  : Result (list Z) :=
  let color := (Uint8ClampedArray_get data i,
                Uint8ClampedArray_get data (i + 1),
                Uint8ClampedArray_get data (i + 2)) in
  '(r, g, b) ← findClosestPaletteColor color paletteColors;
  let data := Uint8ClampedArray_set data i r in
  let data := Uint8ClampedArray_set data (i + 1) g in
  let data := Uint8ClampedArray_set data (i + 2) b in
  Ok data.

Definition applyPalette (data : list Z) (paletteColors : list Color)
  : Result (list Z) :=
  for_each (applyPalette_body paletteColors) (pixel_offsets (length data)) data.

(** ** distributeError (lines 763-769) *)

Definition distributeError (buffer : list float) (x y : Z) (quantError : NumColor)
    (factor : float) (width height : Z) : list float :=
  if (x <? 0) || (x >=? width) || (y <? 0) || (y >=? height) then buffer
  else
    let idx := (y * width + x) * 4 in
    let '(e0, e1, e2) := quantError in
    let buffer :=
      Float32Array_set buffer idx (Float32Array_get buffer idx + e0 * factor)%float in
    let buffer :=
      Float32Array_set buffer (idx + 1)
        (Float32Array_get buffer (idx + 1) + e1 * factor)%float in
    Float32Array_set buffer (idx + 2)
      (Float32Array_get buffer (idx + 2) + e2 * factor)%float.

(** The part the two error-diffusion loops share (lines 585-607 and
    657-679): read the pixel plus its accumulated error, quantise, store,
    and compute the scaled quantisation error. *)
Definition quantize_pixel (data : list Z) (errorBuffer : list float) (idx : Z)
    (strength : float) (paletteColors : list Color)
  : Result (list Z * NumColor) :=
  let r := (Uint8ClampedArray_get data idx + Float32Array_get errorBuffer idx)%float in
  let g := (Uint8ClampedArray_get data (idx + 1)
            + Float32Array_get errorBuffer (idx + 1))%float in
  let b := (Uint8ClampedArray_get data (idx + 2)
            + Float32Array_get errorBuffer (idx + 2))%float in
  let oldColor := (r, g, b) in
  '(n0, n1, n2) ← findClosestPaletteColor oldColor paletteColors;
  let data := Uint8ClampedArray_set data idx n0 in
  let data := Uint8ClampedArray_set data (idx + 1) n1 in
  let data := Uint8ClampedArray_set data (idx + 2) n2 in
  let quantError := ((r - of_Z n0) * strength,
                     (g - of_Z n1) * strength,
                     (b - of_Z n2) * strength)%float in
  Ok (data, quantError).

(** ** floydSteinbergDithering (lines 651-689) *)

Definition floydSteinberg_body (width height : Z) (strength : float)
    (paletteColors : list Color) (y : Z) (st : list Z * list float) (x : Z)
  : Result (list Z * list float) :=
  let '(data, errorBuffer) := st in
  let idx := (y * width + x) * 4 in
  '(data, quantError) ← quantize_pixel data errorBuffer idx strength paletteColors;
  let errorBuffer := distributeError errorBuffer (x + 1) y quantError
                       DitheringCoefficients.FLOYD_STEINBERG.RIGHT width height in
  let errorBuffer := distributeError errorBuffer (x - 1) (y + 1) quantError
                       DitheringCoefficients.FLOYD_STEINBERG.BOTTOM_LEFT width height in
  let errorBuffer := distributeError errorBuffer x (y + 1) quantError
                       DitheringCoefficients.FLOYD_STEINBERG.BOTTOM width height in
  let errorBuffer := distributeError errorBuffer (x + 1) (y + 1) quantError
                       DitheringCoefficients.FLOYD_STEINBERG.BOTTOM_RIGHT width height in
  Ok (data, errorBuffer).

(** The two nested loops [for y < height] / [for x < width]. *)
Definition raster_scan {S} (body : Z -> S -> Z -> Result S) (width height : Z) (st : S)
  : Result S :=
  for_each (fun st y => for_each (body y) (seqZ 0 width) st) (seqZ 0 height) st.

Definition floydSteinbergDithering (data : list Z) (width height : Z)
    (strength : float) (paletteColors : list Color) : Result (list Z) :=
  let errorBuffer := Float32Array_new (length data) in
  st ← raster_scan (floydSteinberg_body width height strength paletteColors)
          width height (data, errorBuffer);
  Ok (fst st).

(** ** atkinsonDithering (lines 579-619) *)

Definition atkinson_body (width height : Z) (strength : float)
    (paletteColors : list Color) (y : Z) (st : list Z * list float) (x : Z)
  : Result (list Z * list float) :=
  let '(data, errorBuffer) := st in
  let idx := (y * width + x) * 4 in
  '(data, quantError) ← quantize_pixel data errorBuffer idx strength paletteColors;
  let errorBuffer := distributeError errorBuffer (x + 1) y quantError
                       (1 / 8)%float width height in
  let errorBuffer := distributeError errorBuffer (x + 2) y quantError
                       (1 / 8)%float width height in
  let errorBuffer := distributeError errorBuffer (x - 1) (y + 1) quantError
                       (1 / 8)%float width height in
  let errorBuffer := distributeError errorBuffer x (y + 1) quantError
                       (1 / 8)%float width height in
  let errorBuffer := distributeError errorBuffer (x + 1) (y + 1) quantError
                       (1 / 8)%float width height in
  let errorBuffer := distributeError errorBuffer x (y + 2) quantError
                       (1 / 8)%float width height in
  Ok (data, errorBuffer).

Definition atkinsonDithering (data : list Z) (width height : Z)
    (strength : float) (paletteColors : list Color) : Result (list Z) :=
  let errorBuffer := Float32Array_new (length data) in
  st ← raster_scan (atkinson_body width height strength paletteColors)
          width height (data, errorBuffer);
  Ok (fst st).

(** ** getBayerMatrix (lines 275-310) *)

Definition getBayerMatrix (type : string) : Result (list (list Z)) :=
  if String.eqb type "2x2" then
    Ok [ [0; 2];
         [3; 1] ]
  else if String.eqb type "4x4" then
    Ok [ [0; 8; 2; 10];
         [12; 4; 14; 6];
         [3; 11; 1; 9];
         [15; 7; 13; 5] ]
  else if String.eqb type "8x8" then
    Ok [ [0; 48; 12; 60; 3; 51; 15; 63];
         [32; 16; 44; 28; 35; 19; 47; 31];
         [8; 56; 4; 52; 11; 59; 7; 55];
         [40; 24; 36; 20; 43; 27; 39; 23];
         [2; 50; 14; 62; 1; 49; 13; 61];
         [34; 18; 46; 30; 33; 17; 45; 29];
         [10; 58; 6; 54; 9; 57; 5; 53];
         [42; 26; 38; 22; 41; 25; 37; 21] ]
  else if String.eqb type "clustered 4x4" then
    Ok [ [7; 13; 11; 4];
         [12; 16; 14; 8];
         [10; 15; 6; 2];
         [5; 9; 3; 1] ]
  else Throw (Error ("Invalid Bayer matrix type: " ++ type)).

(** ** orderedDithering (lines 716-744)

    [bayerMatrix[y % matrixSize]] is [undefined] when the row does not exist,
    and indexing it throws; a missing entry of an existing row is
    [undefined], NaN once 0.5 is added. *)

Definition bayer_entry (bayerMatrix : list (list Z)) (row col : Z) : Result float :=
  match ta_get bayerMatrix row with
  | None => Throw TypeError
  | Some cells =>
      match ta_get cells col with
      | Some v => Ok (of_Z v)
      | None => Ok nan
      end
  end.

Definition ordered_threshold (bayerMatrix : list (list Z)) (x y : Z) : Result float :=
  let matrixSize := Z.of_nat (length bayerMatrix) in
  entry ← bayer_entry bayerMatrix (Z.rem y matrixSize) (Z.rem x matrixSize);
  Ok ((entry + 0.5) / (of_Z matrixSize * of_Z matrixSize) * 255)%float.

Definition ordered_body (width : Z) (strength : float) (paletteColors : list Color)
    (bayerMatrix : list (list Z)) (y : Z) (data : list Z) (x : Z) : Result (list Z) :=
  let idx := (y * width + x) * 4 in
  let '(o0, o1, o2) := (Uint8ClampedArray_get data idx,
                        Uint8ClampedArray_get data (idx + 1),
                        Uint8ClampedArray_get data (idx + 2)) in
  threshold ← ordered_threshold bayerMatrix x y;
  let adjustedColor :=
    (o0 + (threshold - DitheringCoefficients.ORDERED_THRESHOLD_CENTER) * strength,
     o1 + (threshold - DitheringCoefficients.ORDERED_THRESHOLD_CENTER) * strength,
     o2 + (threshold - DitheringCoefficients.ORDERED_THRESHOLD_CENTER) * strength)%float in
  '(n0, n1, n2) ← findClosestPaletteColor adjustedColor paletteColors;
  let data := Uint8ClampedArray_set data idx n0 in
  let data := Uint8ClampedArray_set data (idx + 1) n1 in
  let data := Uint8ClampedArray_set data (idx + 2) n2 in
  Ok data.

Definition orderedDithering (data : list Z) (width height : Z) (strength : float)
    (paletteColors : list Color) (bayerMatrix : list (list Z)) : Result (list Z) :=
  raster_scan (ordered_body width strength paletteColors bayerMatrix) width height data.

(** ** pixelate: the dither/quantise stage (lines 195-218)

    [String.prototype.toLowerCase] on strings of code units below 256: the
    letters A-Z and the Latin-1 capitals (0xC0-0xDE but the multiplication
    sign 0xD7) move up by 32, everything else is kept. *)

Definition lower_code_unit (c : ascii) : ascii :=
  let n := nat_of_ascii c in
  if ((65 <=? n) && (n <=? 90))%nat
     || ((192 <=? n) && (n <=? 222) && negb (n =? 215))%nat
  then ascii_of_nat (n + 32)
  else c.

Fixpoint toLowerCase (s : string) : string :=
  match s with
  | EmptyString => EmptyString
  | String c rest => String (lower_code_unit c) (toLowerCase rest)
  end.

(** [pixelatedData] is the ImageData read back from the resized canvas,
    [paletteColors] the resolved palette ([None] for [null]: an array, even
    an empty one, is truthy).  [pixelsWide] and [pixelsHigh] are whole
    numbers of pixels: [pixelsWide] is the width option itself (line 140),
    which the checks of lines 110-119 do not force to be whole, so this is
    the stage of the runs whose width is a whole number; the statements
    that depend on the dimensions say so with [is_pixel_buffer]. *)
Definition pixelate_dither (pixelatedData : list Z) (pixelsWide pixelsHigh : Z)
    (dither : string) (strength : float) (paletteColors : option (list Color))
  : Result (list Z) :=
  let ditheringStrength := (strength / 100)%float in
  match paletteColors with
  | Some paletteColors =>
      if negb (String.eqb (toLowerCase dither) "none") then
        if String.eqb (toLowerCase dither) "floyd-steinberg" then
          floydSteinbergDithering pixelatedData pixelsWide pixelsHigh
            ditheringStrength paletteColors
        else if String.eqb (toLowerCase dither) "ordered" then
          bayerMatrix ← getBayerMatrix "8x8";
          orderedDithering pixelatedData pixelsWide pixelsHigh ditheringStrength
            paletteColors bayerMatrix
        else if String.eqb (toLowerCase dither) "4x4 bayer" then
          bayerMatrix ← getBayerMatrix "4x4";
          orderedDithering pixelatedData pixelsWide pixelsHigh ditheringStrength
            paletteColors bayerMatrix
        else if String.eqb (toLowerCase dither) "2x2 bayer" then
          bayerMatrix ← getBayerMatrix "2x2";
          orderedDithering pixelatedData pixelsWide pixelsHigh ditheringStrength
            paletteColors bayerMatrix
        else if String.eqb (toLowerCase dither) "clustered 4x4" then
          clusteredMatrix ← getBayerMatrix "clustered 4x4";
          orderedDithering pixelatedData pixelsWide pixelsHigh ditheringStrength
            paletteColors clusteredMatrix
        else if String.eqb (toLowerCase dither) "atkinson" then
          atkinsonDithering pixelatedData pixelsWide pixelsHigh
            ditheringStrength paletteColors
        else Throw (Error ("Unknown dithering method: " ++ dither))
      else applyPalette pixelatedData paletteColors
  | None => Ok pixelatedData
  end.

(** ** PixelationConstants (lines 29-40) and the validation of [pixelate]
    (lines 110-119)

    [image] is the truthiness of the image option; [width] is the Number
    given ([undefined] behaves as NaN here: it is falsy, and compares false). *)

Module PixelationConstants.
Definition DEFAULT_PIXEL_WIDTH : Z := 128.
Definition MIN_PIXEL_WIDTH : Z := 2.
Definition MAX_PIXEL_WIDTH : Z := 4096.
End PixelationConstants.

(** An integer constant spliced into a template literal. *)
Definition number_to_string (z : Z) : string := NilZero.string_of_int (Z.to_int z).

(** [!x] on a Number: true for 0, -0 and NaN. *)
Definition falsy (x : float) : bool := is_zero x || is_nan x.

Definition pixelate_validate (image : bool) (width : float) : Result unit :=
  if negb image then
    Throw (Error "Image parameter is required for pixelation.")
  else if falsy width || (width <? of_Z PixelationConstants.MIN_PIXEL_WIDTH)%float then
    Throw (Error ("Width must be at least "
                  ++ number_to_string PixelationConstants.MIN_PIXEL_WIDTH ++ " pixels."))
  else if (of_Z PixelationConstants.MAX_PIXEL_WIDTH <? width)%float then
    Throw (Error ("Width cannot exceed "
                  ++ number_to_string PixelationConstants.MAX_PIXEL_WIDTH ++ " pixels."))
  else Ok tt.

(** ** hexToRgb (lines 522-526)

    [hex.replace('#', '')] removes the first '#'; [parseInt(hex, 16)] and the
    conversion ToInt32 the bit operators apply follow ECMAScript, on strings
    of code units below 256. *)

Fixpoint remove_first (c : ascii) (s : string) : string :=
  match s with
  | EmptyString => EmptyString
  | String d rest => if Ascii.eqb d c then rest else String d (remove_first c rest)
  end.

(** White space and line terminators among the code units below 256: TAB,
    LF, VT, FF, CR, SP and NBSP. *)
Definition is_white_space (c : ascii) : bool :=
  let n := nat_of_ascii c in
  ((9 <=? n) && (n <=? 13) || (n =? 32) || (n =? 160))%nat.

Fixpoint trim_start (s : string) : string :=
  match s with
  | String c rest => if is_white_space c then trim_start rest else s
  | EmptyString => EmptyString
  end.

(** The value of a digit: 0-9, then a-z or A-Z for 10-35. *)
Definition digit_value (c : ascii) : option Z :=
  let n := nat_of_ascii c in
  if ((48 <=? n) && (n <=? 57))%nat then Some (Z.of_nat n - 48)
  else if ((97 <=? n) && (n <=? 122))%nat then Some (Z.of_nat n - 87)
  else if ((65 <=? n) && (n <=? 90))%nat then Some (Z.of_nat n - 55)
  else None.

Definition radix_digit (R : Z) (c : ascii) : option Z :=
  match digit_value c with
  | Some d => if d <? R then Some d else None
  | None => None
  end.

(** The value of the longest prefix of radix-[R] digits, read after [acc];
    [None] while no digit has been read. *)
Fixpoint parse_digits (R : Z) (s : string) (acc : option Z) : option Z :=
  match s with
  | String c rest =>
      match radix_digit R c with
      | Some d => parse_digits R rest (Some (R * default 0 acc + d))
      | None => acc
      end
  | EmptyString => acc
  end.

Definition strip_hex_prefix (s : string) : option string :=
  match s with
  | String "0" (String "x" rest) => Some rest
  | String "0" (String "X" rest) => Some rest
  | _ => None
  end.

(** [parseInt(string, radix)], [radix] being the integer ToInt32 made of the
    second argument (0 when it is absent). *)
Definition parseInt (string : string) (radix : Z) : float :=
  let input := trim_start string in
  let '(negative, input) :=
    match input with
    | String "-" rest => (true, rest)
    | String "+" rest => (false, rest)
    | _ => (false, input)
    end in
  if negb (radix =? 0) && ((radix <? 2) || (36 <? radix)) then nan
  else
    let stripPrefix := (radix =? 0) || (radix =? 16) in
    let R := if radix =? 0 then 10 else radix in
    let '(R, input) :=
      match (if stripPrefix then strip_hex_prefix input else None) with
      | Some rest => (16, rest)
      | None => (R, input)
      end in
    match parse_digits R input None with
    | None => nan
    | Some mathInt =>
        if mathInt =? 0 then (if negative then (-0)%float else 0%float)
        else of_Z (if negative then - mathInt else mathInt)
    end.

(** ToInt32: NaN, the zeros and the infinities give 0; a finite Number is
    truncated, reduced modulo 2^32 and read as a signed 32-bit integer. *)
Definition ToInt32 (x : float) : Z :=
  match Prim2SF x with
  | S754_finite s m e =>
      let magnitude := if 0 <=? e then Zpos m * 2 ^ e else Zpos m / 2 ^ (- e) in
      let int := if s then - magnitude else magnitude in
      let int32bit := int mod 2 ^ 32 in
      if 2 ^ 31 <=? int32bit then int32bit - 2 ^ 32 else int32bit
  | _ => 0
  end.

Definition hexToRgb (hex : string) : Color :=
  let hex := remove_first "#" hex in
  let bigint := parseInt hex 16 in
  (Z.land (Z.shiftr (ToInt32 bigint) 16) 255,
   Z.land (Z.shiftr (ToInt32 bigint) 8) 255,
   Z.land (ToInt32 bigint) 255).

(** The palette [pixelate] builds from an array of hex strings (line 132). *)
Definition palette_of_array (palette : list string) : list Color :=
  hexToRgb <$> palette.

(** ** The specification's reading of the same operations

    Definitions written from the specification's words, for comparison with
    the ones above. *)

Module Spec.

(** Squared Euclidean distance between two colours. *)
Definition distance (a b : Color) : Z :=
  let '(ar, ag, ab) := a in
  let '(br, bg, bb) := b in
  (ar - br) * (ar - br) + (ag - bg) * (ag - bg) + (ab - bb) * (ab - bb).

(** A pixel buffer is a grid of RGBA samples stored row by row: the sample
    of channel [c] of the pixel at (x, y). *)
Definition sample_index (width x y c : Z) : Z := 4 * (y * width + x) + c.

Definition stored_rgb (pixels : list Z) (width x y : Z) : NumColor :=
  (Uint8ClampedArray_get pixels (sample_index width x y 0),
   Uint8ClampedArray_get pixels (sample_index width x y 1),
   Uint8ClampedArray_get pixels (sample_index width x y 2)).

Definition replace_rgb (pixels : list Z) (width x y : Z) (c : Color) : list Z :=
  let '(r, g, b) := c in
  let pixels := Uint8ClampedArray_set pixels (sample_index width x y 0) r in
  let pixels := Uint8ClampedArray_set pixels (sample_index width x y 1) g in
  Uint8ClampedArray_set pixels (sample_index width x y 2) b.

(** The error accumulator: the pending error of each channel at each pixel
    position, single precision. *)
Definition ErrorAccumulator : Type := Z -> Z -> NumColor.

Definition no_error : ErrorAccumulator := fun _ _ => (0, 0, 0)%float.

Definition inside (width height x y : Z) : bool :=
  (0 <=? x) && (x <? width) && (0 <=? y) && (y <? height).

(** Add [fraction] of [error] to the pending error at the target position;
    a target outside the buffer is dropped. *)
Definition add_fraction (acc : ErrorAccumulator) (width height : Z)
    (tx ty : Z) (fraction : float) (error : NumColor) : ErrorAccumulator :=
  if inside width height tx ty then
    fun x y =>
      if (x =? tx) && (y =? ty) then
        let '(p0, p1, p2) := acc x y in
        let '(e0, e1, e2) := error in
        (fround (p0 + e0 * fraction), fround (p1 + e1 * fraction),
         fround (p2 + e2 * fraction))%float
      else acc x y
  else acc.

(** Pixel positions in raster order: row-major, left to right, top to
    bottom. *)
Definition raster_order (width height : Z) : list (Z * Z) :=
  y ← seqZ 0 height; x ← seqZ 0 width; [(x, y)].

Definition floydSteinberg_pixel (width height : Z) (strength : float)
    (palette : list Color) (st : list Z * ErrorAccumulator) (position : Z * Z)
  : Result (list Z * ErrorAccumulator) :=
  let '(pixels, acc) := st in
  let '(x, y) := position in
  let '(s0, s1, s2) := stored_rgb pixels width x y in
  let '(a0, a1, a2) := acc x y in
  let observed := (s0 + a0, s1 + a1, s2 + a2)%float in
  quantized ← findClosestPaletteColor observed palette;
  let '(o0, o1, o2) := observed in
  let '(q0, q1, q2) := num_color quantized in
  let error := ((o0 - q0) * strength, (o1 - q1) * strength, (o2 - q2) * strength)%float in
  let acc := add_fraction acc width height (x + 1) y (7 / 16)%float error in
  let acc := add_fraction acc width height (x - 1) (y + 1) (3 / 16)%float error in
  let acc := add_fraction acc width height x (y + 1) (5 / 16)%float error in
  let acc := add_fraction acc width height (x + 1) (y + 1) (1 / 16)%float error in
  Ok (replace_rgb pixels width x y quantized, acc).

Definition floydSteinberg (pixels : list Z) (width height : Z) (strength : float)
    (palette : list Color) : Result (list Z) :=
  st ← for_each (floydSteinberg_pixel width height strength palette)
         (raster_order width height) (pixels, no_error);
  Ok (fst st).

(** The 2x2 Bayer matrix and the ordered-dither perturbation of a colour at
    (x, y). *)
Definition M (row col : Z) : Z :=
  match row, col with
  | 0, 0 => 0
  | 0, 1 => 2
  | 1, 0 => 3
  | _, _ => 1
  end.

Definition threshold (x y : Z) : float :=
  ((of_Z (M (y mod 2) (x mod 2)) + 0.5) / 4 * 255)%float.

Definition perturbed (c : Color) (x y : Z) (strength : float) : NumColor :=
  let '(r, g, b) := num_color c in
  (r + (threshold x y - 127.5) * strength,
   g + (threshold x y - 127.5) * strength,
   b + (threshold x y - 127.5) * strength)%float.

End Spec.

(** ** The Atkinson pattern of the source's documentation

    "* 1/8 1/8 / 1/8 1/8 1/8 / 1/8": one eighth of the error to each of six
    neighbours, read as a list of offsets. *)

Module AtkinsonPattern.

Definition neighbours : list (Z * Z) :=
  [(1, 0); (2, 0); (-1, 1); (0, 1); (1, 1); (0, 2)].

Definition spread (acc : Spec.ErrorAccumulator) (width height x y : Z)
    (error : NumColor) : Spec.ErrorAccumulator :=
  fold_left (fun acc '(dx, dy) =>
               Spec.add_fraction acc width height (x + dx) (y + dy) (1 / 8)%float error)
            neighbours acc.

Definition pixel (width height : Z) (strength : float) (palette : list Color)
    (st : list Z * Spec.ErrorAccumulator) (position : Z * Z)
  : Result (list Z * Spec.ErrorAccumulator) :=
  let '(pixels, acc) := st in
  let '(x, y) := position in
  let '(s0, s1, s2) := Spec.stored_rgb pixels width x y in
  let '(a0, a1, a2) := acc x y in
  let observed := (s0 + a0, s1 + a1, s2 + a2)%float in
  quantized ← findClosestPaletteColor observed palette;
  let '(o0, o1, o2) := observed in
  let '(q0, q1, q2) := num_color quantized in
  let error := ((o0 - q0) * strength, (o1 - q1) * strength, (o2 - q2) * strength)%float in
  Ok (Spec.replace_rgb pixels width x y quantized, spread acc width height x y error).

Definition dither (pixels : list Z) (width height : Z) (strength : float)
    (palette : list Color) : Result (list Z) :=
  st ← for_each (pixel width height strength palette)
         (Spec.raster_order width height) (pixels, Spec.no_error);
  Ok (fst st).

End AtkinsonPattern.

(** ** Vocabulary of the statements *)

(** The RGBA samples of the pixel at (x, y). *)
Definition pixel_at (data : list Z) (width x y : Z) : option (Z * Z * Z * Z) :=
  r ← ta_get data (Spec.sample_index width x y 0);
  g ← ta_get data (Spec.sample_index width x y 1);
  b ← ta_get data (Spec.sample_index width x y 2);
  a ← ta_get data (Spec.sample_index width x y 3);
  Some (r, g, b, a).

(** [out] has the size of [data] and the same sample in every alpha slot
    (offsets 3, 7, 11, ...). *)
Definition alpha_unchanged (data out : list Z) : Prop :=
  length out = length data /\
  forall k : nat, out !! (4 * k + 3)%nat = data !! (4 * k + 3)%nat.

(** The dither names the specification lists. *)
Definition recognized_names : list string :=
  [ "none"; "floyd-steinberg"; "atkinson"; "ordered";
    "2x2 bayer"; "4x4 bayer"; "clustered 4x4" ]%string.

(** A pixel buffer: bytes, four per pixel. *)
Definition is_pixel_buffer (data : list Z) (width height : Z) : Prop :=
  0 <= width /\ 0 <= height /\
  Z.of_nat (length data) = width * height * 4 /\
  Forall is_byte data.

(** A threshold matrix with as many columns in every row as it has rows. *)
Definition is_square (matrix : list (list Z)) : Prop :=
  Forall (fun row => length row = length matrix) matrix.

(** The entry of a matrix at a row and a column. *)
Definition matrix_cell (matrix : list (list Z)) (row col : Z) : Z :=
  default 0 (cells ← ta_get matrix row; ta_get cells col).

(** The threshold of the pixel at (x, y) under a threshold matrix of size n:
    (matrix[y mod n][x mod n] + 0.5) / (n x n) x 255. *)
Definition threshold_at (matrix : list (list Z)) (x y : Z) : float :=
  let n := Z.of_nat (length matrix) in
  ((of_Z (matrix_cell matrix (y mod n) (x mod n)) + 0.5) / (of_Z n * of_Z n) * 255)%float.

(** A colour moved by (threshold - 127.5) x strength in every channel. *)
Definition perturbed_by (threshold : float) (c : Color) (strength : float) : NumColor :=
  let '(r, g, b) := num_color c in
  (r + (threshold - 127.5) * strength,
   g + (threshold - 127.5) * strength,
   b + (threshold - 127.5) * strength)%float.

(** Every pixel of the image exists in the buffer and carries a colour of
    the palette. *)
Definition quantised (data : list Z) (width height : Z) (palette : list Color) : Prop :=
  forall x y, 0 <= x < width -> 0 <= y < height ->
    exists c a, pixel_at data width x y = Some (c, a) /\ c ∈ palette.

(** ** Invariants used in the proofs *)

(** The loop invariant of [findClosestPaletteColor] after the entries of
    [seen] have been examined. *)
Definition closest_so_far (C : Color) (seen : list Color) (st : Color * float) : Prop :=
  snd st = of_Z (Spec.distance C (fst st)) /\
  exists i : nat,
    seen !! i = Some (fst st) /\
    (forall (j : nat) q, seen !! j = Some q ->
        Spec.distance C (fst st) <= Spec.distance C q) /\
    (forall (j : nat) q, seen !! j = Some q -> (j < i)%nat ->
        Spec.distance C (fst st) < Spec.distance C q).

(** The sample at offset [j], if there is one, is what storing [v] leaves
    there. *)
Definition holds (data : list Z) (j : Z) (v : Z) : Prop :=
  forall w, ta_get data j = Some w -> w = clamp8 v.

(** The pixel at offset [i] already carries the palette colour
    [applyPalette] would store for it. *)
Definition settled (paletteColors : list Color) (data : list Z) (i : Z) : Prop :=
  exists r g b,
    findClosestPaletteColor
      (Uint8ClampedArray_get data i, Uint8ClampedArray_get data (i + 1),
       Uint8ClampedArray_get data (i + 2)) paletteColors = Ok (r, g, b) /\
    holds data i r /\ holds data (i + 1) g /\ holds data (i + 2) b.

(** Two loops over the same iterations whose bodies keep a relation between
    the states, and throw together, end related or throw together. *)
Definition related_results {S T : Type} (R : S -> T -> Prop)
    (r1 : Result S) (r2 : Result T) : Prop :=
  match r1, r2 with
  | Ok s, Ok t => R s t
  | Throw e1, Throw e2 => e1 = e2
  | _, _ => False
  end.

(** A zero of either sign. *)
Definition zeroish (z : float) : Prop := z = 0%float \/ z = (-0)%float.

(** The factors the two error-diffusion ditherers use. *)
Definition diffusion_factors : list float :=
  [ DitheringCoefficients.FLOYD_STEINBERG.RIGHT;
    DitheringCoefficients.FLOYD_STEINBERG.BOTTOM_LEFT;
    DitheringCoefficients.FLOYD_STEINBERG.BOTTOM;
    DitheringCoefficients.FLOYD_STEINBERG.BOTTOM_RIGHT;
    (1 / 8)%float ].

(** The offset of the pixel at a position, as both loops compute it. *)
Definition pixel_offset (width : Z) (position : Z * Z) : Z :=
  let '(x, y) := position in (y * width + x) * 4.

(** The state of an error-diffusion loop at strength 0, against the state
    of [applyPalette]: the same bytes, and an error buffer still at zero. *)
Definition no_diffusion (n : nat) (st : list Z * list float) (d : list Z) : Prop :=
  fst st = d /\ snd st = Float32Array_new n /\ length d = n /\ Forall is_byte d.

(** Channel [t] (0, 1 or 2) of a colour. *)
Definition channel (t : Z) (c : NumColor) : float :=
  let '(c0, c1, c2) := c in
  if t =? 0 then c0 else if t =? 1 then c1 else c2.

(** The flat error buffer of the source holds, at every slot it has for a
    pixel inside the image, the pending error of the accumulator. *)
Definition tracks (width height : Z) (errorBuffer : list float)
    (acc : Spec.ErrorAccumulator) : Prop :=
  forall x y t,
    0 <= x < width -> 0 <= y < height -> 0 <= t <= 2 ->
    (y * width + x) * 4 + t < Z.of_nat (length errorBuffer) ->
    Float32Array_get errorBuffer ((y * width + x) * 4 + t) = channel t (acc x y).

(** The state of the source's loop against the state of the
    specification's. *)
Definition refines (width height : Z) (st : list Z * list float)
    (sp : list Z * Spec.ErrorAccumulator) : Prop :=
  fst st = fst sp /\
  length (snd st) = length (fst st) /\
  tracks width height (snd st) (snd sp).

(** The number a list of hexadecimal digits denotes, most significant
    first. *)
Definition hex_number (digits : list Z) : Z :=
  fold_left (fun acc d => 16 * acc + d) digits 0.

(** The three low bytes of a number, most significant first. *)
Definition low_bytes (v : Z) : Color :=
  ((v / 65536) mod 256, (v / 256) mod 256, v mod 256).

(** * Properties *)

(** ** The model at work

    The scenarios of the specification, evaluated. *)

Example fround_rounds_to_single :
  fround (1 / 10) = (13421773 / 134217728)%float /\ fround 16777217 = 16777216%float.
Proof. split; reflexivity. Qed.

Example bayer_2x2 : getBayerMatrix "2x2" = Ok [[0; 2]; [3; 1]].
Proof. reflexivity. Qed.

Example nearest_of_orange :
  Spec.distance (200, 100, 50) (0, 0, 0) = 52500 /\
  Spec.distance (200, 100, 50) (255, 255, 255) = 69075 /\
  findClosestPaletteColor (num_color (200, 100, 50)) [(0, 0, 0); (255, 255, 255)]
  = Ok (0, 0, 0).
Proof. repeat split; reflexivity. Qed.

Example flat_quantization_2x1 :
  pixelate_dither [200; 100; 50; 255; 250; 240; 230; 128] 2 1 "none" 0
    (Some [(0, 0, 0); (255, 255, 255)])
  = Ok [0; 0; 0; 255; 255; 255; 255; 128].
Proof. reflexivity. Qed.

Example floydSteinberg_grey_2x2 :
  floydSteinbergDithering
    [128; 128; 128; 255; 128; 128; 128; 255; 128; 128; 128; 255; 128; 128; 128; 255]
    2 2 1 [(0, 0, 0); (255, 255, 255)]
  = Ok [255; 255; 255; 255; 0; 0; 0; 255; 0; 0; 0; 255; 255; 255; 255; 255].
Proof. vm_compute. reflexivity. Qed.

Example single_pixel_has_no_neighbour :
  floydSteinbergDithering [200; 100; 50; 255] 1 1 1 [(0, 0, 0); (255, 255, 255)]
  = applyPalette [200; 100; 50; 255] [(0, 0, 0); (255, 255, 255)] /\
  atkinsonDithering [200; 100; 50; 255] 1 1 1 [(0, 0, 0); (255, 255, 255)]
  = applyPalette [200; 100; 50; 255] [(0, 0, 0); (255, 255, 255)].
Proof. split; vm_compute; reflexivity. Qed.

(** ** Binary64 arithmetic on integers

    Integers below 2^53 are represented exactly, and sums, differences and
    squares that stay below 2^53 are computed exactly. *)

Section Binary64.

Lemma digits_pos p : 0 < digits p.
Proof. unfold digits; lia. Qed.

Lemma pow2_pred d : 0 < d -> 2 ^ d = 2 * 2 ^ (d - 1).
Proof.
  intros Hd. replace d with (Z.succ (d - 1)) at 1 by lia.
  apply Z.pow_succ_r; lia.
Qed.

Lemma digits_spec p : 2 ^ (digits p - 1) <= Zpos p < 2 ^ digits p.
Proof.
  unfold digits. induction p as [p IH|p IH|]; cbn [digits2_pos];
    try (assert (Hpw := pow2_pred (Z.pos (digits2_pos p)) ltac:(lia))).
  - rewrite Pos2Z.inj_succ. change (Z.pos p~1) with (2 * Z.pos p + 1).
    replace (Z.succ (Z.pos (digits2_pos p)) - 1) with (Z.pos (digits2_pos p)) by lia.
    rewrite Z.pow_succ_r by lia.
    generalize dependent (2 ^ Z.pos (digits2_pos p)). generalize (2 ^ (Z.pos (digits2_pos p) - 1)).
    intros; lia.
  - rewrite Pos2Z.inj_succ. change (Z.pos p~0) with (2 * Z.pos p).
    replace (Z.succ (Z.pos (digits2_pos p)) - 1) with (Z.pos (digits2_pos p)) by lia.
    rewrite Z.pow_succ_r by lia.
    generalize dependent (2 ^ Z.pos (digits2_pos p)). generalize (2 ^ (Z.pos (digits2_pos p) - 1)).
    intros; lia.
  - split; [apply Z.leb_le | apply Z.ltb_lt]; reflexivity.
Qed.

Lemma digits_unique p d : 2 ^ (d - 1) <= Zpos p < 2 ^ d -> digits p = d.
Proof.
  intros [Hlo Hhi]. pose proof (digits_spec p) as [Hlo' Hhi']. pose proof (digits_pos p).
  assert (0 < d).
  { destruct (Z_lt_le_dec 0 d) as [|Hd]; [done|].
    assert (2 ^ d <= 2 ^ 0) by (apply Z.pow_le_mono_r; lia). simpl in *. lia. }
  destruct (Z.lt_trichotomy (digits p) d) as [Hlt|[->|Hgt]]; [|done|].
  - assert (2 ^ digits p <= 2 ^ (d - 1)) by (apply Z.pow_le_mono_r; lia). lia.
  - assert (2 ^ d <= 2 ^ (digits p - 1)) by (apply Z.pow_le_mono_r; lia). lia.
Qed.

Lemma digits_shift (P p : positive) k :
  0 <= k -> Zpos P = Zpos p * 2 ^ k -> digits P = digits p + k.
Proof.
  intros Hk HP. apply digits_unique. rewrite HP.
  pose proof (digits_spec p) as [Hlo Hhi]. pose proof (digits_pos p).
  replace (digits p + k - 1) with ((digits p - 1) + k) by lia.
  rewrite !Z.pow_add_r by lia.
  assert (0 < 2 ^ k) by (apply Z.pow_pos_nonneg; lia). nia.
Qed.

Lemma shr_1_even m :
  0 < m ->
  shr_1 {| shr_m := 2 * m; shr_r := false; shr_s := false |}
  = {| shr_m := m; shr_r := false; shr_s := false |}.
Proof. destruct m; try lia. intros _. reflexivity. Qed.

Lemma iter_shr_1_exact q : forall m,
  0 < m ->
  SpecFloat.iter_pos shr_1 q {| shr_m := m * 2 ^ Zpos q; shr_r := false; shr_s := false |}
  = {| shr_m := m; shr_r := false; shr_s := false |}.
Proof.
  induction q as [q IH|q IH|]; intros m Hm; cbn [SpecFloat.iter_pos].
  - assert (Hq : 0 < 2 ^ Zpos q) by (apply Z.pow_pos_nonneg; lia).
    replace (m * 2 ^ Z.pos q~1) with (2 * ((m * 2 ^ Zpos q) * 2 ^ Zpos q)).
    2:{ change (Z.pos q~1) with (2 * Z.pos q + 1). rewrite Z.pow_add_r, Z.pow_mul_r by lia.
        change (2 ^ 2) with 4. change (2 ^ 1) with 2.
        replace (4 ^ Zpos q) with (2 ^ Zpos q * 2 ^ Zpos q); [ring|].
        rewrite <- Z.pow_add_r by lia. replace (Zpos q + Zpos q) with (2 * Zpos q) by lia.
        rewrite Z.pow_mul_r by lia. reflexivity. }
    rewrite shr_1_even by nia. rewrite IH by nia. apply IH; lia.
  - assert (Hq : 0 < 2 ^ Zpos q) by (apply Z.pow_pos_nonneg; lia).
    replace (m * 2 ^ Z.pos q~0) with ((m * 2 ^ Zpos q) * 2 ^ Zpos q).
    2:{ change (Z.pos q~0) with (2 * Z.pos q). replace (2 * Zpos q) with (Zpos q + Zpos q) by lia.
        rewrite Z.pow_add_r by lia. ring. }
    rewrite IH by nia. apply IH; lia.
  - change (2 ^ 1) with 2. rewrite Z.mul_comm. apply shr_1_even; lia.
Qed.

Lemma iter_xO_pow (M : positive) q :
  Zpos (Pos.iter xO M q) = Zpos M * 2 ^ Zpos q.
Proof.
  induction q as [|q IH] using Pos.peano_ind.
  - cbn. lia.
  - rewrite Pos.iter_succ. change (Z.pos (Pos.iter xO M q)~0) with (2 * Z.pos (Pos.iter xO M q)).
    rewrite IH, Pos2Z.inj_succ, Z.pow_succ_r by lia. ring.
Qed.

Lemma canon_mantissa p :
  digits p <= 53 ->
  Zpos (Z.to_pos (Zpos p * 2 ^ (53 - digits p))) = Zpos p * 2 ^ (53 - digits p).
Proof.
  intros Hd. rewrite Z2Pos.id; [done|].
  assert (0 < 2 ^ (53 - digits p)) by (apply Z.pow_pos_nonneg; lia). nia.
Qed.

Lemma canon_mantissa_digits p :
  digits p <= 53 -> digits (Z.to_pos (Zpos p * 2 ^ (53 - digits p))) = 53.
Proof.
  intros Hd. rewrite (digits_shift _ p (53 - digits p)); [lia|lia|].
  by apply canon_mantissa.
Qed.

(** Shifting an exact mantissa down to 53 bits loses nothing when the bits
    shifted out are zero. *)
Lemma shr_fexp_exact (P p : positive) k e :
  0 <= k -> Zpos P = Zpos p * 2 ^ k ->
  digits p <= 53 <= digits p + k ->
  -1074 <= digits p - 53 + (k + e) ->
  shr_fexp prec emax (Zpos P) e loc_Exact
  = ({| shr_m := Zpos (Z.to_pos (Zpos p * 2 ^ (53 - digits p)));
        shr_r := false; shr_s := false |}, digits p - 53 + (k + e)).
Proof.
  intros Hk HP Hd He. pose proof (digits_pos p) as Hp.
  pose proof (digits_shift P p k Hk HP) as HdP. unfold digits in HdP.
  unfold shr_fexp, fexp, SpecFloat.emin, shr_record_of_loc, Zdigits2.
  rewrite HdP. fold (digits p). change prec with 53. change emax with 1024.
  change (3 - 1024 - 53) with (-1074).
  rewrite Z.max_l by lia.
  replace (digits p + k + e - 53 - e) with (digits p + k - 53) by lia.
  rewrite canon_mantissa by lia.
  destruct (digits p + k - 53) as [|q|q] eqn:Hsh; try lia; cbn [shr].
  - f_equal; [|lia]. f_equal. rewrite HP. f_equal. f_equal. lia.
  - assert (HPq : Zpos P = (Zpos p * 2 ^ (53 - digits p)) * 2 ^ Zpos q).
    { rewrite HP, <- Z.mul_assoc, <- Z.pow_add_r by lia. f_equal. f_equal. lia. }
    rewrite HPq, iter_shr_1_exact.
    2:{ assert (0 < 2 ^ (53 - digits p)) by (apply Z.pow_pos_nonneg; lia). nia. }
    f_equal. lia.
Qed.

(** Rounding an aligned exact mantissa. *)
Lemma binary_round_aux_exact s (P p : positive) k e :
  0 <= k -> Zpos P = Zpos p * 2 ^ k ->
  digits p <= 53 <= digits p + k ->
  -1074 <= digits p - 53 + (k + e) <= 971 ->
  binary_round_aux prec emax s (Zpos P) e loc_Exact = canon_pos s p (k + e).
Proof.
  intros Hk HP Hd He. unfold binary_round_aux.
  rewrite (shr_fexp_exact P p k e) by lia.
  cbn [shr_m loc_of_shr_record round_nearest_even].
  set (mc := Z.to_pos (Zpos p * 2 ^ (53 - digits p))).
  assert (Hmc : digits mc = 53) by (apply canon_mantissa_digits; lia).
  rewrite (shr_fexp_exact mc mc 0 _); rewrite ?Hmc; try lia.
  cbn [shr_m]. change (53 - 53) with 0.
  change emax with 1024. change prec with 53.
  rewrite (proj2 (Z.leb_le _ _)) by lia.
  unfold canon_pos. fold mc. f_equal; lia.
Qed.

Lemma binary_round_exact s (P p : positive) k e :
  0 <= k -> Zpos P = Zpos p * 2 ^ k ->
  digits p <= 53 ->
  -1074 <= digits p - 53 + (k + e) <= 971 ->
  binary_round prec emax s P e = canon_pos s p (k + e).
Proof.
  intros Hk HP Hd He. pose proof (digits_pos p) as Hp.
  pose proof (digits_shift P p k Hk HP) as HdP. unfold digits in HdP.
  unfold binary_round, shl_align, fexp, SpecFloat.emin.
  rewrite HdP. fold (digits p). change prec with 53. change emax with 1024.
  change (3 - 1024 - 53) with (-1074).
  rewrite Z.max_l by lia.
  replace (digits p + k + e - 53 - e) with (digits p + k - 53) by lia.
  destruct (digits p + k - 53) as [|q|q] eqn:Hsh.
  - apply (binary_round_aux_exact s P p k e); lia.
  - apply (binary_round_aux_exact s P p k e); lia.
  - replace (k + e) with ((k + Zpos q) + (digits p + k + e - 53)) by lia.
    apply binary_round_aux_exact; try lia.
    rewrite iter_xO_pow, HP, <- Z.mul_assoc, <- Z.pow_add_r by lia. done.
Qed.

Lemma binary_normalize_exact n k :
  0 <= k -> Z.abs n < 2 ^ 53 ->
  binary_normalize prec emax (n * 2 ^ k) (- k) false = canonZ n.
Proof.
  intros Hk Hn. assert (H2k : 0 < 2 ^ k) by (apply Z.pow_pos_nonneg; lia).
  assert (Hdig : forall p, Zpos p < 2 ^ 53 -> digits p <= 53).
  { intros p Hp. pose proof (digits_spec p) as [Hlo _].
    destruct (Z_le_gt_dec (digits p) 53) as [|Hgt]; [done|].
    assert (2 ^ 53 <= 2 ^ (digits p - 1)) by (apply Z.pow_le_mono_r; lia). lia. }
  destruct n as [|p|p]; [done| |].
  - destruct (Z.pos p * 2 ^ k) as [|P|P] eqn:HP; try lia.
    cbn [binary_normalize canonZ]. pose proof (digits_pos p).
    rewrite (binary_round_exact _ P p k (- k)); try lia.
    + by rewrite Z.add_opp_diag_r.
    + apply Hdig. lia.
    + pose proof (Hdig p ltac:(lia)). lia.
  - destruct (Z.neg p * 2 ^ k) as [|P|P] eqn:HP; try lia.
    cbn [binary_normalize canonZ]. pose proof (digits_pos p).
    rewrite (binary_round_exact _ P p k (- k)); try lia.
    + by rewrite Z.add_opp_diag_r.
    + apply Hdig. lia.
    + pose proof (Hdig p ltac:(lia)). lia.
Qed.

Lemma binary_normalize_exact' n e :
  e <= 0 -> Z.abs n < 2 ^ 53 ->
  binary_normalize prec emax (n * 2 ^ (- e)) e false = canonZ n.
Proof.
  intros He Hn. rewrite <- (Z.opp_involutive e) at 2.
  apply binary_normalize_exact; lia.
Qed.

Lemma canonZ_valid n : Z.abs n < 2 ^ 53 -> valid_binary (canonZ n) = true.
Proof.
  intros Hn.
  assert (Hdig : forall p, Zpos p < 2 ^ 53 -> digits p <= 53).
  { intros p Hp. pose proof (digits_spec p) as [Hlo _].
    destruct (Z_le_gt_dec (digits p) 53) as [|Hgt]; [done|].
    assert (2 ^ 53 <= 2 ^ (digits p - 1)) by (apply Z.pow_le_mono_r; lia). lia. }
  assert (Hv : forall s p, Zpos p < 2 ^ 53 -> valid_binary (canon_pos s p 0) = true).
  { intros s p Hp. pose proof (Hdig p Hp). pose proof (digits_pos p).
    unfold canon_pos, SpecFloat.valid_binary, bounded, canonical_mantissa, fexp, SpecFloat.emin.
    fold (digits (Z.to_pos (Z.pos p * 2 ^ (53 - digits p)))).
    rewrite canon_mantissa_digits by done.
    change prec with 53. change emax with 1024.
    apply andb_true_iff; split; [apply Z.eqb_eq|apply Z.leb_le]; lia. }
  destruct n as [|p|p]; [done| |]; apply Hv; lia.
Qed.

Lemma Prim2SF_of_Z n : Z.abs n < 2 ^ 53 -> Prim2SF (of_Z n) = canonZ n.
Proof.
  intros Hn. unfold of_Z.
  replace n with (n * 2 ^ 0) at 1 by (change (2 ^ 0) with 1; lia).
  change 0 with (- 0) at 2. rewrite binary_normalize_exact by lia.
  apply Prim2SF_SF2Prim, canonZ_valid, Hn.
Qed.

Lemma digits_le_53 p : Zpos p < 2 ^ 53 -> digits p <= 53.
Proof.
  intros Hp. pose proof (digits_spec p) as [Hlo _].
  destruct (Z_le_gt_dec (digits p) 53) as [|Hgt]; [done|].
  assert (2 ^ 53 <= 2 ^ (digits p - 1)) by (apply Z.pow_le_mono_r; lia). lia.
Qed.

Lemma shl_align_fst m e ez :
  ez <= e -> Zpos (fst (shl_align m e ez)) = Zpos m * 2 ^ (e - ez).
Proof.
  intros Hle. unfold shl_align. destruct (ez - e) as [|d|d] eqn:Hd; try lia; cbn [fst].
  - replace (e - ez) with 0 by lia. change (2 ^ 0) with 1. lia.
  - rewrite iter_xO_pow. f_equal. f_equal. lia.
Qed.

Lemma aligned_sval s p ez :
  digits p <= 53 -> ez <= digits p - 53 + 0 ->
  cond_Zopp s (Zpos (fst (shl_align (Z.to_pos (Zpos p * 2 ^ (53 - digits p)))
                                    (digits p - 53 + 0) ez)))
  = sval s p * 2 ^ (- ez).
Proof.
  intros Hd Hez. pose proof (digits_pos p).
  rewrite shl_align_fst, canon_mantissa by lia.
  rewrite <- Z.mul_assoc, <- Z.pow_add_r by lia.
  replace (53 - digits p + (digits p - 53 + 0 - ez)) with (- ez) by lia.
  unfold sval. destruct s; cbn [cond_Zopp]; lia.
Qed.

Lemma SFadd_canon sa pa sb pb :
  Zpos pa < 2 ^ 53 -> Zpos pb < 2 ^ 53 -> Z.abs (sval sa pa + sval sb pb) < 2 ^ 53 ->
  SF64add (canon_pos sa pa 0) (canon_pos sb pb 0) = canonZ (sval sa pa + sval sb pb).
Proof.
  intros Ha Hb Hab. pose proof (digits_le_53 _ Ha). pose proof (digits_le_53 _ Hb).
  pose proof (digits_pos pa). pose proof (digits_pos pb).
  unfold SF64add, SFadd, canon_pos.
  set (ez := Z.min (digits pa - 53 + 0) (digits pb - 53 + 0)).
  rewrite !aligned_sval by lia. rewrite <- Z.mul_add_distr_r.
  apply binary_normalize_exact'; lia.
Qed.

Lemma SFsub_canon sa pa sb pb :
  Zpos pa < 2 ^ 53 -> Zpos pb < 2 ^ 53 -> Z.abs (sval sa pa - sval sb pb) < 2 ^ 53 ->
  SF64sub (canon_pos sa pa 0) (canon_pos sb pb 0) = canonZ (sval sa pa - sval sb pb).
Proof.
  intros Ha Hb Hab. pose proof (digits_le_53 _ Ha). pose proof (digits_le_53 _ Hb).
  pose proof (digits_pos pa). pose proof (digits_pos pb).
  unfold SF64sub, SFsub, canon_pos.
  set (ez := Z.min (digits pa - 53 + 0) (digits pb - 53 + 0)).
  rewrite !aligned_sval by lia. rewrite <- Z.mul_sub_distr_r.
  apply binary_normalize_exact'; lia.
Qed.

Lemma SFmul_canon sa pa sb pb :
  Zpos (pa * pb) < 2 ^ 53 ->
  SF64mul (canon_pos sa pa 0) (canon_pos sb pb 0) = canon_pos (xorb sa sb) (pa * pb) 0.
Proof.
  intros Hab.
  assert (Ha : Zpos pa < 2 ^ 53) by (rewrite Pos2Z.inj_mul in Hab; nia).
  assert (Hb : Zpos pb < 2 ^ 53) by (rewrite Pos2Z.inj_mul in Hab; nia).
  pose proof (digits_le_53 _ Ha). pose proof (digits_le_53 _ Hb).
  pose proof (digits_le_53 _ Hab).
  pose proof (digits_pos pa). pose proof (digits_pos pb).
  pose proof (digits_spec pa) as [Hla _]. pose proof (digits_spec pb) as [Hlb _].
  pose proof (digits_spec (pa * pb)) as [_ Hhab].
  assert (Hdab : digits pa + digits pb - 2 < digits (pa * pb)).
  { apply (Z.pow_lt_mono_r_iff 2); [lia|pose proof (digits_pos (pa * pb)); lia|].
    replace (digits pa + digits pb - 2) with ((digits pa - 1) + (digits pb - 1)) by lia.
    rewrite Z.pow_add_r by lia. rewrite Pos2Z.inj_mul in Hhab.
    assert (0 < 2 ^ (digits pa - 1)) by (apply Z.pow_pos_nonneg; lia).
    assert (0 < 2 ^ (digits pb - 1)) by (apply Z.pow_pos_nonneg; lia). nia. }
  unfold SF64mul, SFmul, canon_pos. fold (canon_pos (xorb sa sb) (pa * pb) 0).
  rewrite (binary_round_aux_exact _ _ (pa * pb) (106 - digits pa - digits pb)); try lia.
  - f_equal. lia.
  - rewrite !Pos2Z.inj_mul, !canon_mantissa by lia.
    replace (106 - digits pa - digits pb) with ((53 - digits pa) + (53 - digits pb)) by lia.
    rewrite Z.pow_add_r by lia. ring.
Qed.

Lemma of_Z_add a b :
  Z.abs a < 2 ^ 53 -> Z.abs b < 2 ^ 53 -> Z.abs (a + b) < 2 ^ 53 ->
  (of_Z a + of_Z b)%float = of_Z (a + b).
Proof.
  intros Ha Hb Hab. apply Prim2SF_inj.
  rewrite add_spec, !Prim2SF_of_Z by done.
  destruct a as [|pa|pa], b as [|pb|pb]; try done.
  - apply (SFadd_canon false pa false pb); done.
  - apply (SFadd_canon false pa true pb); done.
  - apply (SFadd_canon true pa false pb); done.
  - apply (SFadd_canon true pa true pb); done.
Qed.

Lemma of_Z_sub a b :
  Z.abs a < 2 ^ 53 -> Z.abs b < 2 ^ 53 -> Z.abs (a - b) < 2 ^ 53 ->
  (of_Z a - of_Z b)%float = of_Z (a - b).
Proof.
  intros Ha Hb Hab. apply Prim2SF_inj.
  rewrite sub_spec, !Prim2SF_of_Z by done.
  destruct a as [|pa|pa], b as [|pb|pb]; try done.
  - apply (SFsub_canon false pa false pb); done.
  - apply (SFsub_canon false pa true pb); done.
  - apply (SFsub_canon true pa false pb); done.
  - apply (SFsub_canon true pa true pb); done.
Qed.

Lemma of_Z_square a :
  a * a < 2 ^ 53 -> (of_Z a * of_Z a)%float = of_Z (a * a).
Proof.
  intros Ha. assert (Z.abs a < 2 ^ 53) by nia. apply Prim2SF_inj.
  rewrite mul_spec, !Prim2SF_of_Z by (try done; lia).
  destruct a as [|pa|pa]; [done| |].
  - apply (SFmul_canon false pa false pa). lia.
  - apply (SFmul_canon true pa true pa). lia.
Qed.

Lemma SFltb_canon pa pb :
  Zpos pa < 2 ^ 53 -> Zpos pb < 2 ^ 53 ->
  SFltb (canon_pos false pa 0) (canon_pos false pb 0) = (Zpos pa <? Zpos pb).
Proof.
  intros Ha Hb. pose proof (digits_le_53 _ Ha). pose proof (digits_le_53 _ Hb).
  pose proof (digits_pos pa). pose proof (digits_pos pb).
  pose proof (digits_spec pa) as [Hla Hha]. pose proof (digits_spec pb) as [Hlb Hhb].
  unfold SFltb, SFcompare, canon_pos.
  destruct (Z.compare_spec (digits pa - 53 + 0) (digits pb - 53 + 0)) as [He|He|He].
  - change (Pos.compare_cont Eq ?x ?y) with (Pos.compare x y).
    rewrite Pos2Z.inj_compare, !canon_mantissa by lia.
    replace (digits pb) with (digits pa) by lia.
    assert (0 < 2 ^ (53 - digits pa)) by (apply Z.pow_pos_nonneg; lia).
    unfold Z.ltb.
    destruct (Z.compare_spec (Z.pos pa * 2 ^ (53 - digits pa)) (Z.pos pb * 2 ^ (53 - digits pa))),
      (Z.compare_spec (Z.pos pa) (Z.pos pb)); try done; nia.
  - symmetry. apply Z.ltb_lt.
    assert (2 ^ digits pa <= 2 ^ (digits pb - 1)) by (apply Z.pow_le_mono_r; lia). lia.
  - symmetry. apply Z.ltb_ge.
    assert (2 ^ digits pb <= 2 ^ (digits pa - 1)) by (apply Z.pow_le_mono_r; lia). lia.
Qed.

Lemma of_Z_ltb a b :
  0 <= a < 2 ^ 53 -> 0 <= b < 2 ^ 53 -> (of_Z a <? of_Z b)%float = (a <? b).
Proof.
  intros Ha Hb. rewrite ltb_spec, !Prim2SF_of_Z by lia.
  destruct a as [|pa|pa], b as [|pb|pb]; try lia; try done.
  apply SFltb_canon; lia.
Qed.

End Binary64.

(** ** ColorMath: [colorDistance] and [findClosestPaletteColor] *)

Section ColorMath.

Local Ltac small := change (2 ^ 53) with 9007199254740992 in *; nia.

Lemma colorDistance_exact (c q : Color) :
  is_color c -> is_color q ->
  colorDistance (num_color c) q = of_Z (Spec.distance c q).
Proof.
  destruct c as [[r1 g1] b1], q as [[r2 g2] b2].
  unfold is_color, is_byte. intros (Hr1 & Hg1 & Hb1) (Hr2 & Hg2 & Hb2).
  unfold colorDistance, num_color, Spec.distance.
  rewrite !of_Z_sub by small.
  rewrite !of_Z_square by small.
  rewrite !of_Z_add by small.
  reflexivity.
Qed.

Lemma square_bounds (d : Z) : -255 <= d <= 255 -> 0 <= d * d <= 65025.
Proof. nia. Qed.

Lemma distance_bounds (c q : Color) :
  is_color c -> is_color q -> 0 <= Spec.distance c q < 2 ^ 53.
Proof.
  destruct c as [[r1 g1] b1], q as [[r2 g2] b2].
  unfold is_color, is_byte, Spec.distance. intros (? & ? & ?) (? & ? & ?).
  pose proof (square_bounds (r1 - r2)). pose proof (square_bounds (g1 - g2)).
  pose proof (square_bounds (b1 - b2)).
  change (2 ^ 53) with 9007199254740992. lia.
Qed.

Lemma closer_invariant (C : Color) (seen : list Color) st (x : Color) :
  is_color C -> Forall is_color seen -> is_color x ->
  closest_so_far C seen st ->
  closest_so_far C (seen ++ [x]) (closer (num_color C) st x).
Proof.
  intros HC Hseen Hx (Hd & i & Hi & Hmin & Hfirst).
  destruct st as [c d]; cbn [fst snd] in *.
  assert (Hc : is_color c).
  { eapply Forall_forall; [exact Hseen|]. eapply list_elem_of_lookup_2, Hi. }
  pose proof (distance_bounds C c HC Hc). pose proof (distance_bounds C x HC Hx).
  unfold closer. rewrite colorDistance_exact, Hd, of_Z_ltb by done.
  destruct (Z.ltb_spec (Spec.distance C x) (Spec.distance C c)) as [Hlt|Hge];
    (split; [done|]); cbn [fst snd].
  - exists (length seen). split; [|split].
    + by rewrite lookup_app_r, Nat.sub_diag by lia.
    + intros j q Hj. apply lookup_app_Some in Hj as [Hj|[_ Hj]].
      * specialize (Hmin j q Hj). lia.
      * apply list_lookup_singleton_Some in Hj as [_ <-]. lia.
    + intros j q Hj Hlen. apply lookup_app_Some in Hj as [Hj|[? _]]; [|lia].
      specialize (Hmin j q Hj). lia.
  - exists i. split; [|split].
    + by apply lookup_app_l_Some.
    + intros j q Hj. apply lookup_app_Some in Hj as [Hj|[_ Hj]].
      * by apply (Hmin j).
      * by apply list_lookup_singleton_Some in Hj as [_ <-].
    + intros j q Hj Hlt. apply lookup_app_Some in Hj as [Hj|[Hlen _]].
      * by apply (Hfirst j).
      * apply lookup_lt_Some in Hi. lia.
Qed.

Lemma closest_scan (C first : Color) (rest : list Color) :
  is_color C -> Forall is_color (first :: rest) ->
  closest_so_far C (first :: rest)
    (fold_left (closer (num_color C)) rest (first, colorDistance (num_color C) first)).
Proof.
  intros HC. induction rest as [|x rest IH] using rev_ind; intros Hall.
  - apply Forall_cons in Hall as [Hfirst _]. cbn [fold_left].
    split; [by apply colorDistance_exact|]. exists 0%nat. cbn [fst].
    split; [done|split].
    + intros [|j] q Hj; [|done]. injection Hj as <-. lia.
    + intros j q _ Hj. lia.
  - rewrite fold_left_app. cbn [fold_left].
    rewrite app_comm_cons in Hall. apply Forall_app in Hall as [Hpre Hx].
    apply Forall_inv in Hx.
    change (first :: rest ++ [x]) with ((first :: rest) ++ [x]).
    apply closer_invariant; [done|done|done|by apply IH].
Qed.

End ColorMath.

(** C1. For a non-empty palette [P] and a colour [C] (8-bit channels, as the
    palette's), [findClosestPaletteColor] returns an entry of [P] whose
    squared Euclidean distance to [C] is minimal among the entries of [P],
    and every entry at an earlier index is strictly farther: among the
    entries that attain the minimum the earliest one is returned. *)
Theorem findClosestPaletteColor_minimal_earliest (P : list Color) (C : Color) :
  P <> [] -> is_color C -> Forall is_color P ->
  exists (i : nat) (c : Color),
    findClosestPaletteColor (num_color C) P = Ok c /\
    P !! i = Some c /\
    (forall (j : nat) q, P !! j = Some q -> Spec.distance C c <= Spec.distance C q) /\
    (forall (j : nat) q, P !! j = Some q -> (j < i)%nat ->
        Spec.distance C c < Spec.distance C q).
Proof.
  intros Hne HC HP. destruct P as [|first rest]; [done|].
  destruct (closest_scan C first rest HC HP) as (_ & i & Hi & Hmin & Hfirst).
  exists i. eexists. split; [reflexivity|]. eauto.
Qed.

Lemma findClosestPaletteColor_minimal_earliest_witness :
  exists (i : nat) (c : Color),
    findClosestPaletteColor (num_color (200, 100, 50)) [(0, 0, 0); (255, 255, 255)] = Ok c /\
    [(0, 0, 0); (255, 255, 255)] !! i = Some c /\
    (forall (j : nat) q, [(0, 0, 0); (255, 255, 255)] !! j = Some q ->
        Spec.distance (200, 100, 50) c <= Spec.distance (200, 100, 50) q) /\
    (forall (j : nat) q, [(0, 0, 0); (255, 255, 255)] !! j = Some q -> (j < i)%nat ->
        Spec.distance (200, 100, 50) c < Spec.distance (200, 100, 50) q).
Proof.
  apply (findClosestPaletteColor_minimal_earliest [(0, 0, 0); (255, 255, 255)] (200, 100, 50)).
  - discriminate.
  - unfold is_color, is_byte. lia.
  - repeat constructor; unfold is_byte; lia.
Defined.

(** ** Loops and typed arrays *)

Section Loops.

Context {S A : Type}.
Implicit Types (body : S -> A -> Result S) (I : S -> Prop).

(** A loop whose body never throws from a state satisfying [I], and keeps
    [I], runs to completion and ends in a state satisfying [I]. *)
Lemma for_each_total I body (l : list A) (st : S) :
  (forall s i, i ∈ l -> I s -> exists s', body s i = Ok s' /\ I s') ->
  I st ->
  exists st', for_each body l st = Ok st' /\ I st'.
Proof.
  revert st. induction l as [|i l IH]; intros st Hbody Hst; cbn [for_each].
  - eauto.
  - destruct (Hbody st i) as (s' & -> & Hs'); [left|done|]. cbn.
    apply IH; [|done]. intros s j Hj. apply Hbody. by right.
Qed.

(** A loop whose first iteration throws throws. *)
Lemma for_each_throws body (i : A) (l : list A) (st : S) e :
  body st i = Throw e -> for_each body (i :: l) st = Throw e.
Proof. intros H. cbn [for_each]. by rewrite H. Qed.

Lemma for_each_app body (l1 l2 : list A) (st : S) :
  for_each body (l1 ++ l2) st = st' ← for_each body l1 st; for_each body l2 st'.
Proof.
  revert st. induction l1 as [|i l1 IH]; intros st; cbn [for_each app]; [done|].
  destruct (body st i) as [s'|e]; cbn; [apply IH|done].
Qed.

End Loops.

Section RasterScan.

Context {S : Type}.

Lemma raster_scan_total (I : S -> Prop) (body : Z -> S -> Z -> Result S)
    (width height : Z) (st : S) :
  (forall s x y, 0 <= x < width -> 0 <= y < height -> I s ->
     exists s', body y s x = Ok s' /\ I s') ->
  I st ->
  exists st', raster_scan body width height st = Ok st' /\ I st'.
Proof.
  intros Hbody Hst. unfold raster_scan.
  apply (for_each_total I); [|done].
  intros s y Hy Hs. apply elem_of_seqZ in Hy.
  apply (for_each_total I); [|done].
  intros s' x Hx Hs'. apply elem_of_seqZ in Hx. apply Hbody; [lia|lia|done].
Qed.

(** With an empty palette the first pixel visited throws. *)
Lemma raster_scan_throws (body : Z -> S -> Z -> Result S) (width height : Z) (st : S) e :
  0 < width -> 0 < height ->
  body 0 st 0 = Throw e ->
  raster_scan body width height st = Throw e.
Proof.
  intros Hw Hh Hbody. unfold raster_scan.
  rewrite (seqZ_cons 0 height), (seqZ_cons 0 width) by lia.
  apply for_each_throws. cbn [for_each]. by rewrite Hbody.
Qed.

Lemma raster_scan_empty (body : Z -> S -> Z -> Result S) (width height : Z) (st : S) :
  width <= 0 \/ height <= 0 ->
  raster_scan body width height st = Ok st.
Proof.
  intros Hwh. unfold raster_scan.
  destruct (Z_le_gt_dec height 0) as [Hh|Hh].
  - by rewrite (seqZ_nil 0 height) by lia.
  - assert (Hw : width <= 0) by lia. rewrite (seqZ_nil 0 width) by lia.
    generalize (seqZ 0 height). intros l. induction l as [|y l IH]; [done|apply IH].
Qed.

End RasterScan.

Section TypedArrays.

Context {A : Type}.

Lemma length_ta_set (a : list A) (i : Z) (v : A) : length (ta_set a i v) = length a.
Proof. unfold ta_set. destruct (i <? 0); [done|apply length_insert]. Qed.

Lemma ta_set_lookup_ne (a : list A) (i : Z) (v : A) (j : nat) :
  Z.of_nat j <> i -> ta_set a i v !! j = a !! j.
Proof.
  intros Hne. unfold ta_set. destruct (Z.ltb_spec i 0); [done|].
  apply list_lookup_insert_ne. lia.
Qed.

Lemma ta_get_set_ne (a : list A) (i j : Z) (v : A) :
  j <> i -> ta_get (ta_set a i v) j = ta_get a j.
Proof.
  intros Hne. unfold ta_get. destruct (Z.ltb_spec j 0); [done|].
  apply ta_set_lookup_ne. lia.
Qed.

Lemma ta_get_set_eq (a : list A) (i : Z) (v : A) :
  0 <= i < Z.of_nat (length a) -> ta_get (ta_set a i v) i = Some v.
Proof.
  intros Hi. unfold ta_get, ta_set. destruct (Z.ltb_spec i 0); [lia|].
  apply list_lookup_insert_eq. lia.
Qed.

Lemma ta_get_Some (a : list A) (i : Z) :
  0 <= i < Z.of_nat (length a) -> exists v, ta_get a i = Some v.
Proof.
  intros Hi. unfold ta_get. destruct (Z.ltb_spec i 0); [lia|].
  apply lookup_lt_is_Some. lia.
Qed.

Lemma ta_get_None (a : list A) (i : Z) :
  i < 0 \/ Z.of_nat (length a) <= i -> ta_get a i = None.
Proof.
  intros Hi. unfold ta_get. destruct (Z.ltb_spec i 0); [done|].
  apply lookup_ge_None. lia.
Qed.

(** Storing outside the array, or storing what is already there, changes
    nothing. *)
Lemma ta_set_id (a : list A) (i : Z) (v : A) :
  (forall w, ta_get a i = Some w -> w = v) -> ta_set a i v = a.
Proof.
  unfold ta_get, ta_set. destruct (Z.ltb_spec i 0); [done|]. intros Hv.
  destruct (a !! Z.to_nat i) as [w|] eqn:Hw.
  - rewrite <- (Hv w eq_refl) . by apply list_insert_id.
  - apply list_insert_ge. by apply lookup_ge_None.
Qed.

End TypedArrays.

Section AlphaChannel.

Lemma alpha_unchanged_refl (data : list Z) : alpha_unchanged data data.
Proof. by split. Qed.

Lemma alpha_unchanged_trans (d1 d2 d3 : list Z) :
  alpha_unchanged d1 d2 -> alpha_unchanged d2 d3 -> alpha_unchanged d1 d3.
Proof.
  intros [Hl1 Ha1] [Hl2 Ha2]. split; [congruence|].
  intros k. by rewrite Ha2, Ha1.
Qed.

(** The three stores of a quantised pixel at an offset that is a multiple
    of four leave every alpha slot alone. *)
Lemma store_rgb_alpha (data : list Z) (m r g b : Z) :
  alpha_unchanged data
    (Uint8ClampedArray_set
       (Uint8ClampedArray_set (Uint8ClampedArray_set data (m * 4) r) (m * 4 + 1) g)
       (m * 4 + 2) b).
Proof.
  unfold Uint8ClampedArray_set. split.
  - by rewrite !length_ta_set.
  - intros k. rewrite !ta_set_lookup_ne by lia. done.
Qed.

Lemma findClosestPaletteColor_total (color : NumColor) (palette : list Color) :
  palette <> [] -> exists c, findClosestPaletteColor color palette = Ok c.
Proof. destruct palette; [done|]. intros _. cbn. eauto. Qed.

Lemma applyPalette_body_alpha (paletteColors : list Color) (data : list Z) (k : Z) :
  paletteColors <> [] ->
  exists out, applyPalette_body paletteColors data (4 * k) = Ok out /\
              alpha_unchanged data out.
Proof.
  intros Hne. unfold applyPalette_body.
  edestruct findClosestPaletteColor_total as [[[r g] b] ->]; [done|]. cbn.
  eexists. split; [done|]. rewrite (Z.mul_comm 4 k). apply store_rgb_alpha.
Qed.

Lemma applyPalette_alpha (data : list Z) (paletteColors : list Color) :
  paletteColors <> [] ->
  exists out, applyPalette data paletteColors = Ok out /\ alpha_unchanged data out.
Proof.
  intros Hne. unfold applyPalette.
  apply (for_each_total (alpha_unchanged data)); [|apply alpha_unchanged_refl].
  intros s i Hi Hs. unfold pixel_offsets in Hi.
  apply list_elem_of_fmap in Hi as (k & -> & _).
  destruct (applyPalette_body_alpha paletteColors s k Hne) as (out & -> & Hout).
  exists out. split; [done|]. by eapply alpha_unchanged_trans.
Qed.

Lemma quantize_pixel_alpha (data : list Z) (errorBuffer : list float) (m : Z)
    (strength : float) (paletteColors : list Color) :
  paletteColors <> [] ->
  exists out quantError,
    quantize_pixel data errorBuffer (m * 4) strength paletteColors = Ok (out, quantError) /\
    alpha_unchanged data out.
Proof.
  intros Hne. unfold quantize_pixel.
  edestruct findClosestPaletteColor_total as [[[r g] b] ->]; [done|]. cbn.
  eexists _, _. split; [done|]. apply store_rgb_alpha.
Qed.

Lemma floydSteinbergDithering_alpha (data : list Z) (width height : Z)
    (strength : float) (paletteColors : list Color) :
  paletteColors <> [] ->
  exists out, floydSteinbergDithering data width height strength paletteColors = Ok out /\
              alpha_unchanged data out.
Proof.
  intros Hne. unfold floydSteinbergDithering.
  edestruct (raster_scan_total (fun st : list Z * list float => alpha_unchanged data (fst st)))
    as (st' & -> & Hst'); [|apply alpha_unchanged_refl|by exists (fst st')].
  intros [d eb] x y _ _ Hd. unfold floydSteinberg_body.
  destruct (quantize_pixel_alpha d eb (y * width + x) strength paletteColors Hne)
    as (out & qe & -> & Hout). cbn.
  eexists. split; [done|]. by eapply alpha_unchanged_trans.
Qed.

Lemma atkinsonDithering_alpha (data : list Z) (width height : Z)
    (strength : float) (paletteColors : list Color) :
  paletteColors <> [] ->
  exists out, atkinsonDithering data width height strength paletteColors = Ok out /\
              alpha_unchanged data out.
Proof.
  intros Hne. unfold atkinsonDithering.
  edestruct (raster_scan_total (fun st : list Z * list float => alpha_unchanged data (fst st)))
    as (st' & -> & Hst'); [|apply alpha_unchanged_refl|by exists (fst st')].
  intros [d eb] x y _ _ Hd. unfold atkinson_body.
  destruct (quantize_pixel_alpha d eb (y * width + x) strength paletteColors Hne)
    as (out & qe & -> & Hout). cbn.
  eexists. split; [done|]. by eapply alpha_unchanged_trans.
Qed.

Lemma ordered_threshold_total (bayerMatrix : list (list Z)) (x y : Z) :
  bayerMatrix <> [] -> 0 <= y ->
  exists t, ordered_threshold bayerMatrix x y = Ok t.
Proof.
  intros Hne Hy. unfold ordered_threshold, bayer_entry.
  assert (0 < Z.of_nat (length bayerMatrix)) by (destruct bayerMatrix; [done|cbn; lia]).
  destruct (ta_get_Some bayerMatrix (Z.rem y (Z.of_nat (length bayerMatrix))))
    as [cells ->]; [by apply Z.rem_bound_pos|].
  destruct (ta_get cells _); cbn; eauto.
Qed.

Lemma orderedDithering_alpha (data : list Z) (width height : Z) (strength : float)
    (paletteColors : list Color) (bayerMatrix : list (list Z)) :
  paletteColors <> [] -> bayerMatrix <> [] ->
  exists out,
    orderedDithering data width height strength paletteColors bayerMatrix = Ok out /\
    alpha_unchanged data out.
Proof.
  intros Hne HM. unfold orderedDithering.
  apply (raster_scan_total (alpha_unchanged data)); [|apply alpha_unchanged_refl].
  intros d x y Hx Hy Hd. unfold ordered_body.
  destruct (ordered_threshold_total bayerMatrix x y HM) as [t ->]; [lia|]. cbn.
  edestruct findClosestPaletteColor_total as [[[r g] b] ->]; [done|]. cbn.
  eexists. split; [done|]. eapply alpha_unchanged_trans; [done|]. apply store_rgb_alpha.
Qed.

Lemma getBayerMatrix_nonempty (type : string) (bayerMatrix : list (list Z)) :
  getBayerMatrix type = Ok bayerMatrix -> bayerMatrix <> [].
Proof.
  unfold getBayerMatrix. repeat case_match; intros [= <-]; done.
Qed.

End AlphaChannel.

(** C8. Flat quantisation and the three ditherers leave the alpha channel of
    every pixel unchanged: whatever the buffer, the dimensions, the strength
    and the (non-empty) palette, each of them returns a buffer of the same
    size whose sample at every alpha position (offset 4k+3) is the one of
    the input; the ordered ditherer does so with every matrix
    [getBayerMatrix] provides. *)
Theorem alpha_channel_unchanged (data : list Z) (width height : Z) (strength : float)
    (paletteColors : list Color) :
  paletteColors <> [] ->
  (exists out, applyPalette data paletteColors = Ok out /\ alpha_unchanged data out) /\
  (exists out, floydSteinbergDithering data width height strength paletteColors = Ok out /\
               alpha_unchanged data out) /\
  (exists out, atkinsonDithering data width height strength paletteColors = Ok out /\
               alpha_unchanged data out) /\
  (forall type bayerMatrix, getBayerMatrix type = Ok bayerMatrix ->
     exists out,
       orderedDithering data width height strength paletteColors bayerMatrix = Ok out /\
       alpha_unchanged data out).
Proof.
  intros Hne. split; [|split; [|split]].
  - by apply applyPalette_alpha.
  - by apply floydSteinbergDithering_alpha.
  - by apply atkinsonDithering_alpha.
  - intros type M HM. apply orderedDithering_alpha; [done|].
    by eapply getBayerMatrix_nonempty.
Qed.

Lemma alpha_channel_unchanged_witness :
  (exists out, applyPalette [200; 100; 50; 255] [(0, 0, 0); (255, 255, 255)] = Ok out /\
               alpha_unchanged [200; 100; 50; 255] out) /\
  (exists out, floydSteinbergDithering [200; 100; 50; 255] 1 1 1 [(0, 0, 0); (255, 255, 255)]
               = Ok out /\ alpha_unchanged [200; 100; 50; 255] out) /\
  (exists out, atkinsonDithering [200; 100; 50; 255] 1 1 1 [(0, 0, 0); (255, 255, 255)]
               = Ok out /\ alpha_unchanged [200; 100; 50; 255] out) /\
  (forall type bayerMatrix, getBayerMatrix type = Ok bayerMatrix ->
     exists out,
       orderedDithering [200; 100; 50; 255] 1 1 1 [(0, 0, 0); (255, 255, 255)] bayerMatrix
       = Ok out /\ alpha_unchanged [200; 100; 50; 255] out).
Proof.
  apply (alpha_channel_unchanged [200; 100; 50; 255] 1 1 1 [(0, 0, 0); (255, 255, 255)]).
  discriminate.
Defined.

(** ** Error handling *)

Section EmptyPalette.

Lemma pixel_offsets_cons (n : nat) :
  (0 < n)%nat -> exists rest, pixel_offsets n = 0 :: rest.
Proof.
  intros Hn. unfold pixel_offsets.
  assert (0 < (Z.of_nat n + 3) / 4) by (apply Z.div_str_pos; lia).
  rewrite seqZ_cons by done. cbn. eauto.
Qed.

Lemma ordered_body_empty (width : Z) (strength : float) (bayerMatrix : list (list Z))
    (y : Z) (data : list Z) (x : Z) :
  ordered_body width strength [] bayerMatrix y data x = Throw TypeError.
Proof.
  unfold ordered_body, ordered_threshold, bayer_entry.
  destruct (ta_get bayerMatrix _) as [cells|]; [|done].
  by destruct (ta_get cells _).
Qed.

Lemma dimensions_cases (width height : Z) :
  (0 <? width) && (0 <? height) = true /\ 0 < width /\ 0 < height \/
  (0 <? width) && (0 <? height) = false /\ (width <= 0 \/ height <= 0).
Proof. destruct (Z.ltb_spec 0 width), (Z.ltb_spec 0 height); cbn; lia. Qed.

End EmptyPalette.

(** C4 (as the code has it). There is no dedicated empty-palette error: with
    an empty palette [findClosestPaletteColor] throws the engine's TypeError
    (reading a channel of [undefined]), whatever the colour; a ditherer
    throws that TypeError at the first pixel it visits, and returns the
    buffer unchanged, without any error, when it visits none (an empty
    buffer for [applyPalette], a width or height of zero for the others). *)
Theorem empty_palette_behaviour :
  (forall color, findClosestPaletteColor color [] = Throw TypeError) /\
  (forall data,
     applyPalette data [] = match data with [] => Ok [] | _ :: _ => Throw TypeError end) /\
  (forall data width height strength,
     floydSteinbergDithering data width height strength []
     = if (0 <? width) && (0 <? height) then Throw TypeError else Ok data) /\
  (forall data width height strength,
     atkinsonDithering data width height strength []
     = if (0 <? width) && (0 <? height) then Throw TypeError else Ok data) /\
  (forall data width height strength bayerMatrix,
     orderedDithering data width height strength [] bayerMatrix
     = if (0 <? width) && (0 <? height) then Throw TypeError else Ok data).
Proof.
  split; [done|]. split; [|split; [|split]].
  - intros [|b data]; [done|]. unfold applyPalette.
    destruct (pixel_offsets_cons (length (b :: data))) as [rest ->]; [cbn; lia|].
    by apply for_each_throws.
  - intros data width height strength. unfold floydSteinbergDithering.
    destruct (dimensions_cases width height) as [(-> & Hw & Hh)|(-> & Hwh)].
    + by rewrite (raster_scan_throws _ _ _ _ TypeError).
    + by rewrite raster_scan_empty.
  - intros data width height strength. unfold atkinsonDithering.
    destruct (dimensions_cases width height) as [(-> & Hw & Hh)|(-> & Hwh)].
    + by rewrite (raster_scan_throws _ _ _ _ TypeError).
    + by rewrite raster_scan_empty.
  - intros data width height strength bayerMatrix. unfold orderedDithering.
    destruct (dimensions_cases width height) as [(-> & Hw & Hh)|(-> & Hwh)].
    + apply raster_scan_throws; [done|done|apply ordered_body_empty].
    + by rewrite raster_scan_empty.
Qed.

(** C4 as stated fails: a ditherer invoked with an empty palette on a buffer
    without pixels returns normally. *)
Lemma empty_palette_no_failure :
  applyPalette [] [] = Ok [] /\
  floydSteinbergDithering [] 0 0 1 [] = Ok [].
Proof. split; reflexivity. Qed.

(** C5 (as the code has it). No ditherer compares the buffer length with
    width x height x 4: with a non-empty palette each of them returns
    normally, with a buffer of the size it was given, whatever the declared
    dimensions are. *)
Theorem dimensions_never_checked (data : list Z) (width height : Z) (strength : float)
    (paletteColors : list Color) :
  paletteColors <> [] ->
  (exists out, applyPalette data paletteColors = Ok out /\ length out = length data) /\
  (exists out, floydSteinbergDithering data width height strength paletteColors = Ok out /\
               length out = length data) /\
  (exists out, atkinsonDithering data width height strength paletteColors = Ok out /\
               length out = length data) /\
  (forall type bayerMatrix, getBayerMatrix type = Ok bayerMatrix ->
     exists out,
       orderedDithering data width height strength paletteColors bayerMatrix = Ok out /\
       length out = length data).
Proof.
  intros Hne. split; [|split; [|split]].
  - destruct (applyPalette_alpha data paletteColors Hne) as (out & ? & ? & _); eauto.
  - destruct (floydSteinbergDithering_alpha data width height strength paletteColors Hne)
      as (out & ? & ? & _); eauto.
  - destruct (atkinsonDithering_alpha data width height strength paletteColors Hne)
      as (out & ? & ? & _); eauto.
  - intros type M HM. apply getBayerMatrix_nonempty in HM.
    destruct (orderedDithering_alpha data width height strength paletteColors M Hne HM)
      as (out & ? & ? & _); eauto.
Qed.

Lemma dimensions_never_checked_witness :
  (exists out, applyPalette [200; 100; 50; 255; 10; 20; 30; 40; 250; 250]
                 [(0, 0, 0); (255, 255, 255)] = Ok out /\
               length out = 10%nat) /\
  (exists out, floydSteinbergDithering [200; 100; 50; 255; 10; 20; 30; 40; 250; 250] 2 2 1
                 [(0, 0, 0); (255, 255, 255)] = Ok out /\
               length out = 10%nat) /\
  (exists out, atkinsonDithering [200; 100; 50; 255; 10; 20; 30; 40; 250; 250] 2 2 1
                 [(0, 0, 0); (255, 255, 255)] = Ok out /\
               length out = 10%nat) /\
  (forall type bayerMatrix, getBayerMatrix type = Ok bayerMatrix ->
     exists out,
       orderedDithering [200; 100; 50; 255; 10; 20; 30; 40; 250; 250] 2 2 1
         [(0, 0, 0); (255, 255, 255)] bayerMatrix = Ok out /\
       length out = 10%nat).
Proof.
  apply (dimensions_never_checked [200; 100; 50; 255; 10; 20; 30; 40; 250; 250] 2 2 1
           [(0, 0, 0); (255, 255, 255)]).
  discriminate.
Defined.

(** C5 as stated fails: a buffer of length 10 declared as 2x2 is dithered
    without any error (the samples the buffer lacks read as [undefined]). *)
Lemma dimension_mismatch_not_detected :
  Z.of_nat (length [200; 100; 50; 255; 10; 20; 30; 40; 250; 250]) <> 2 * 2 * 4 /\
  floydSteinbergDithering [200; 100; 50; 255; 10; 20; 30; 40; 250; 250] 2 2 1
    [(0, 0, 0); (255, 255, 255)]
  = Ok [0; 0; 0; 255; 0; 0; 0; 40; 0; 0].
Proof. split; [discriminate|]. vm_compute. reflexivity. Qed.

Section DitherNames.

Lemma unrecognized_name (name : string) (known : string) :
  name ∉ recognized_names -> known ∈ recognized_names ->
  String.eqb name known = false.
Proof.
  intros Hnot Hin. apply String.eqb_neq. intros ->. done.
Qed.

End DitherNames.

(** C6 (as the code has it). The names are compared after [toLowerCase], and
    only when a palette is supplied: for every buffer, palette and strength,
    a dither name whose lower-case form is none of none, floyd-steinberg,
    atkinson, ordered, 2x2 bayer, 4x4 bayer, clustered 4x4 makes the stage
    throw Error("Unknown dithering method: <name>"); with no palette the
    same name raises nothing and the buffer is returned. *)
Theorem unknown_dither_name_throws (pixelatedData : list Z) (pixelsWide pixelsHigh : Z)
    (dither : string) (strength : float) (paletteColors : list Color) :
  toLowerCase dither ∉ recognized_names ->
  pixelate_dither pixelatedData pixelsWide pixelsHigh dither strength (Some paletteColors)
  = Throw (Error ("Unknown dithering method: " ++ dither)) /\
  pixelate_dither pixelatedData pixelsWide pixelsHigh dither strength None
  = Ok pixelatedData.
Proof.
  intros Hnot. split; [|reflexivity]. unfold pixelate_dither.
  rewrite !(unrecognized_name (toLowerCase dither)); try done;
    unfold recognized_names; repeat constructor.
Qed.

Lemma unknown_dither_name_throws_witness :
  pixelate_dither [200; 100; 50; 255] 1 1 "sierra" 50 (Some [(0, 0, 0); (255, 255, 255)])
  = Throw (Error "Unknown dithering method: sierra") /\
  pixelate_dither [200; 100; 50; 255] 1 1 "sierra" 50 None = Ok [200; 100; 50; 255].
Proof.
  apply (unknown_dither_name_throws [200; 100; 50; 255] 1 1 "sierra" 50
           [(0, 0, 0); (255, 255, 255)]).
  vm_compute. intros H. repeat (inversion H as [|? ? ? H']; clear H; rename H' into H).
Defined.

(** C6 as stated fails: the name is examined only when a palette is
    supplied.  Without one, a name that is unknown in any letter case raises
    nothing, and the buffer is returned as it is. *)
Lemma unknown_name_without_palette_passes :
  ("sierra"%string ∉ recognized_names) /\
  (toLowerCase "sierra" ∉ recognized_names) /\
  pixelate_dither [200; 100; 50; 255] 1 1 "sierra" 50 None = Ok [200; 100; 50; 255].
Proof.
  split; [|split; [|reflexivity]];
    vm_compute; intros H;
    repeat (inversion H as [|? ? ? H']; clear H; rename H' into H).
Qed.

(** Letter case is ignored, as the README's calls rely on: "Atkinson" runs
    the Atkinson ditherer. *)
Lemma capitalised_name_is_recognised :
  ("Atkinson"%string ∉ recognized_names) /\
  pixelate_dither [200; 100; 50; 255] 1 1 "Atkinson" 50 (Some [(0, 0, 0); (255, 255, 255)])
  = atkinsonDithering [200; 100; 50; 255] 1 1 0.5 [(0, 0, 0); (255, 255, 255)] /\
  atkinsonDithering [200; 100; 50; 255] 1 1 0.5 [(0, 0, 0); (255, 255, 255)]
  = Ok [0; 0; 0; 255].
Proof.
  split; [|split; vm_compute; reflexivity].
  unfold recognized_names. intros H.
  repeat (inversion H as [|? ? ? H']; clear H; rename H' into H).
Qed.

(** C10. Without a palette the stage returns the buffer it was given, for
    every dither name (recognised or not) and every strength: two runs on
    the same image that differ only in these give the same output, and none
    throws. *)
Theorem no_palette_passes_through (pixelatedData : list Z) (pixelsWide pixelsHigh : Z)
    (dither1 dither2 : string) (strength1 strength2 : float) :
  pixelate_dither pixelatedData pixelsWide pixelsHigh dither1 strength1 None
  = Ok pixelatedData /\
  pixelate_dither pixelatedData pixelsWide pixelsHigh dither1 strength1 None
  = pixelate_dither pixelatedData pixelsWide pixelsHigh dither2 strength2 None.
Proof. split; reflexivity. Qed.

(** ** NaN: what an [undefined] sample turns the arithmetic into *)

Section NaN.

Lemma Prim2SF_nan : Prim2SF nan = S754_nan.
Proof. reflexivity. Qed.

Lemma nan_sub (x : float) : (nan - x)%float = nan.
Proof. apply Prim2SF_inj. by rewrite sub_spec, Prim2SF_nan. Qed.

Lemma add_nan (x : float) : (x + nan)%float = nan.
Proof.
  apply Prim2SF_inj. rewrite add_spec, Prim2SF_nan.
  unfold SF64add, SFadd. by destruct (Prim2SF x).
Qed.

Lemma nan_add (x : float) : (nan + x)%float = nan.
Proof. apply Prim2SF_inj. by rewrite add_spec, Prim2SF_nan. Qed.

Lemma nan_ltb (x : float) : (nan <? x)%float = false.
Proof. by rewrite ltb_spec, Prim2SF_nan. Qed.

(** A colour whose blue sample is [undefined] is at distance NaN from every
    palette entry, so [findClosestPaletteColor] never leaves the first
    entry. *)
Lemma colorDistance_nan (r g : float) (q : Color) : colorDistance (r, g, nan) q = nan.
Proof.
  destruct q as [[r2 g2] b2]. unfold colorDistance.
  rewrite nan_sub. change (nan * nan)%float with nan. apply add_nan.
Qed.

Lemma findClosestPaletteColor_nan (r g : float) (first : Color) (rest : list Color) :
  findClosestPaletteColor (r, g, nan) (first :: rest) = Ok first.
Proof.
  unfold findClosestPaletteColor. rewrite colorDistance_nan. f_equal.
  induction rest as [|x rest IH]; [done|]. cbn [fold_left]. unfold closer at 2.
  rewrite colorDistance_nan, nan_ltb. exact IH.
Qed.

End NaN.

(** ** Flat quantisation *)

Section FlatQuantization.

Variable paletteColors : list Color.
Hypothesis palette_colors : Forall is_color paletteColors.

Lemma closer_fold_elem (color : NumColor) (rest P : list Color) (st : Color * float) :
  fst st ∈ P -> (forall x, x ∈ rest -> x ∈ P) ->
  fst (fold_left (closer color) rest st) ∈ P.
Proof.
  revert st. induction rest as [|x rest IH]; intros [c d] Hc Hsub; [done|].
  cbn [fold_left]. apply IH.
  - unfold closer. destruct (_ <? _)%float; cbn [fst]; [apply Hsub; left|done].
  - intros y Hy. apply Hsub. by right.
Qed.

Lemma findClosestPaletteColor_elem (color : NumColor) (c : Color) :
  findClosestPaletteColor color paletteColors = Ok c -> c ∈ paletteColors.
Proof.
  unfold findClosestPaletteColor. destruct paletteColors as [|first rest]; [done|].
  intros [= <-]. apply closer_fold_elem; [left|by right].
Qed.

Lemma clamp8_byte (v : Z) : is_byte v -> clamp8 v = v.
Proof. unfold is_byte, clamp8. lia. Qed.

(** Quantising a palette colour gives that colour back. *)
Lemma findClosestPaletteColor_fixed (c : Color) :
  c ∈ paletteColors -> findClosestPaletteColor (num_color c) paletteColors = Ok c.
Proof.
  intros Hc. assert (HC : is_color c) by (eapply Forall_forall; eauto).
  unfold findClosestPaletteColor. destruct paletteColors as [|first rest] eqn:HP.
  { by inversion Hc. }
  destruct (closest_scan c first rest HC palette_colors) as (_ & i & Hi & Hmin & _).
  apply list_elem_of_lookup_1 in Hc as [j Hj]. specialize (Hmin j c Hj).
  f_equal. destruct (fold_left _ _ _) as [c' d']. cbn [fst] in *.
  destruct c as [[r g] b], c' as [[r' g'] b']. unfold Spec.distance in Hmin.
  pose proof (Z.square_nonneg (r - r')) as Hr. pose proof (Z.square_nonneg (g - g')) as Hg.
  pose proof (Z.square_nonneg (b - b')) as Hb.
  replace ((r - r) * (r - r) + (g - g) * (g - g) + (b - b) * (b - b)) with 0 in Hmin by ring.
  assert (Hr0 : (r - r') * (r - r') = 0) by lia.
  assert (Hg0 : (g - g') * (g - g') = 0) by lia.
  assert (Hb0 : (b - b') * (b - b') = 0) by lia.
  apply Z.mul_eq_0 in Hr0, Hg0, Hb0.
  assert (r' = r /\ g' = g /\ b' = b) as (-> & -> & ->) by lia. done.
Qed.

End FlatQuantization.

Section Idempotence.

Variable paletteColors : list Color.
Hypothesis palette_colors : Forall is_color paletteColors.

Lemma settled_fixed (data : list Z) (i : Z) :
  settled paletteColors data i -> applyPalette_body paletteColors data i = Ok data.
Proof.
  intros (r & g & b & Hfind & Hr & Hg & Hb). unfold applyPalette_body.
  rewrite Hfind. cbn. unfold Uint8ClampedArray_set.
  rewrite (ta_set_id data i) by done. rewrite (ta_set_id data (i + 1)) by done.
  by rewrite (ta_set_id data (i + 2)).
Qed.

Lemma settled_frame (d d' : list Z) (i : Z) :
  (forall t, 0 <= t <= 2 -> ta_get d' (i + t) = ta_get d (i + t)) ->
  settled paletteColors d i -> settled paletteColors d' i.
Proof.
  intros Hsame (r & g & b & Hfind & Hr & Hg & Hb).
  pose proof (Hsame 0 ltac:(lia)) as H0. rewrite Z.add_0_r in H0.
  pose proof (Hsame 1 ltac:(lia)) as H1. pose proof (Hsame 2 ltac:(lia)) as H2.
  exists r, g, b. unfold holds, Uint8ClampedArray_get in *.
  rewrite H0, H1, H2. done.
Qed.

(** What the three stores of [applyPalette] leave at the pixel. *)
Lemma stored_samples (data : list Z) (i r g b : Z) :
  0 <= i ->
  let out := Uint8ClampedArray_set
               (Uint8ClampedArray_set (Uint8ClampedArray_set data i r) (i + 1) g)
               (i + 2) b in
  (forall v t, 0 <= t <= 2 -> t = 0 /\ v = r \/ t = 1 /\ v = g \/ t = 2 /\ v = b ->
     ta_get out (i + t)
     = if i + t <? Z.of_nat (length data) then Some (clamp8 v) else None).
Proof.
  intros Hi out v t Ht Hv. unfold out, Uint8ClampedArray_set.
  destruct (Z.ltb_spec (i + t) (Z.of_nat (length data))) as [Hlt|Hge].
  - destruct Hv as [[-> ->]|[[-> ->]|[-> ->]]].
    + rewrite !ta_get_set_ne by lia. rewrite Z.add_0_r. apply ta_get_set_eq. lia.
    + rewrite ta_get_set_ne by lia. apply ta_get_set_eq. rewrite length_ta_set. lia.
    + apply ta_get_set_eq. rewrite !length_ta_set. lia.
  - apply ta_get_None. rewrite !length_ta_set. lia.
Qed.

Lemma body_settles (data out : list Z) (i : Z) :
  0 <= i ->
  applyPalette_body paletteColors data i = Ok out ->
  settled paletteColors out i.
Proof.
  intros Hi. unfold applyPalette_body.
  destruct (findClosestPaletteColor _ paletteColors) as [[[r g] b]|e] eqn:Hfind; [|done].
  cbn. intros [= <-].
  pose proof (stored_samples data i r g b Hi) as Hout. cbn zeta in Hout.
  set (out := Uint8ClampedArray_set _ _ _) in *.
  pose proof (Hout r 0 ltac:(lia) ltac:(lia)) as H0. rewrite Z.add_0_r in H0.
  pose proof (Hout g 1 ltac:(lia) ltac:(lia)) as H1.
  pose proof (Hout b 2 ltac:(lia) ltac:(lia)) as H2.
  assert (Hpal : (r, g, b) ∈ paletteColors) by (by eapply findClosestPaletteColor_elem).
  assert (Hcol : is_color (r, g, b)) by (eapply Forall_forall; eauto).
  destruct Hcol as (Hr & Hg & Hb).
  exists r, g, b. unfold holds. rewrite H0, H1, H2.
  split; [|split; [|split]].
  2:{ intros w. destruct (i <? Z.of_nat (length data)); by intros [= <-]. }
  2:{ intros w. destruct (i + 1 <? Z.of_nat (length data)); by intros [= <-]. }
  2:{ intros w. destruct (i + 2 <? Z.of_nat (length data)); by intros [= <-]. }
  unfold Uint8ClampedArray_get. rewrite H0, H1, H2.
  destruct (Z.ltb_spec (i + 2) (Z.of_nat (length data))) as [Hlt|Hge].
  - rewrite !(proj2 (Z.ltb_lt _ _)) by lia. rewrite !clamp8_byte by done.
    by apply (findClosestPaletteColor_fixed paletteColors palette_colors (r, g, b)).
  - (* the pixel is cut short: its blue sample is undefined before and after *)
    revert Hfind. unfold Uint8ClampedArray_get.
    rewrite (ta_get_None data (i + 2)) by lia.
    destruct paletteColors as [|first rest]; [done|].
    rewrite !findClosestPaletteColor_nan. done.
Qed.

Lemma body_frame (d d' : list Z) (i j : Z) :
  (exists k, i = 4 * k) -> (exists k, j = 4 * k) -> i <> j ->
  applyPalette_body paletteColors d i = Ok d' ->
  settled paletteColors d j -> settled paletteColors d' j.
Proof.
  intros [k ->] [k' ->] Hne. unfold applyPalette_body.
  destruct (findClosestPaletteColor _ paletteColors) as [[[r g] b]|e]; [|done].
  cbn. intros [= <-]. apply settled_frame. intros t Ht.
  unfold Uint8ClampedArray_set. rewrite !ta_get_set_ne by lia. done.
Qed.

Lemma for_each_settles (l : list Z) : forall (d out : list Z),
  NoDup l -> (forall i, i ∈ l -> 0 <= i /\ exists k, i = 4 * k) ->
  for_each (applyPalette_body paletteColors) l d = Ok out ->
  (forall i, i ∈ l -> settled paletteColors out i) /\
  (forall j, (exists k, j = 4 * k) -> j ∉ l ->
     settled paletteColors d j -> settled paletteColors out j).
Proof.
  induction l as [|i l IH]; intros d out Hnd Hl; cbn [for_each].
  - intros [= <-]. split; [by intros i Hi; inversion Hi|done].
  - destruct (applyPalette_body paletteColors d i) as [d1|e] eqn:Hbody; [|done]. cbn.
    intros Hrest. apply NoDup_cons in Hnd as [Hi Hnd].
    destruct (Hl i ltac:(left)) as [Hi0 Hi4].
    destruct (IH d1 out Hnd) as [Hin Hframe]; [by intros; apply Hl; right|done|].
    split.
    + intros j Hj. apply elem_of_cons in Hj as [->|Hj]; [|by apply Hin].
      apply Hframe; [done|done|]. by eapply body_settles.
    + intros j Hj4 Hj Hsettled. apply not_elem_of_cons in Hj as [Hne Hj].
      apply Hframe; [done|done|]. by eapply (body_frame d d1 i j).
Qed.

Lemma for_each_settled (l : list Z) (d : list Z) :
  (forall i, i ∈ l -> settled paletteColors d i) ->
  for_each (applyPalette_body paletteColors) l d = Ok d.
Proof.
  induction l as [|i l IH]; intros Hl; cbn [for_each]; [done|].
  rewrite settled_fixed by (apply Hl; left). cbn. apply IH. intros j Hj. apply Hl. by right.
Qed.

Lemma pixel_offsets_spec (n : nat) (i : Z) :
  i ∈ pixel_offsets n <-> (0 <= i < Z.of_nat n /\ exists k, i = 4 * k).
Proof.
  unfold pixel_offsets. rewrite list_elem_of_fmap. split.
  - intros (k & -> & Hk). apply elem_of_seqZ in Hk. split; [|by eexists].
    assert (4 * ((Z.of_nat n + 3) / 4) <= Z.of_nat n + 3)
      by (apply Z.mul_div_le; lia). lia.
  - intros (Hi & k & ->). exists k. split; [done|]. apply elem_of_seqZ.
    assert (Z.of_nat n + 3 < 4 * ((Z.of_nat n + 3) / 4) + 4).
    { pose proof (Z.mul_succ_div_gt (Z.of_nat n + 3) 4 ltac:(lia)). lia. }
    lia.
Qed.

Lemma pixel_offsets_NoDup (n : nat) : NoDup (pixel_offsets n).
Proof.
  unfold pixel_offsets. apply NoDup_fmap_2; [|apply NoDup_seqZ].
  intros a b. lia.
Qed.

Lemma applyPalette_idempotent_aux (data once : list Z) :
  applyPalette data paletteColors = Ok once ->
  applyPalette once paletteColors = Ok once.
Proof.
  unfold applyPalette. intros Hfirst.
  assert (Hlen : length once = length data).
  { destruct paletteColors as [|c rest] eqn:HP.
    - destruct (pixel_offsets (length data)); [by injection Hfirst as <-|done].
    - destruct (applyPalette_alpha data (c :: rest)) as (out & Hout & Hl & _); [done|].
      unfold applyPalette in Hout. congruence. }
  rewrite Hlen. apply for_each_settled.
  destruct (for_each_settles (pixel_offsets (length data)) data once) as [Hin _];
    [apply pixel_offsets_NoDup| |done|done].
  intros i Hi. apply pixel_offsets_spec in Hi. split; [lia|tauto].
Qed.

End Idempotence.

(** C9. Flat quantisation is idempotent: for every buffer and every
    non-empty palette (of 8-bit colours), [applyPalette] returns a buffer on
    which a second [applyPalette] with the same palette changes nothing. *)
Theorem applyPalette_idempotent (data : list Z) (paletteColors : list Color) :
  paletteColors <> [] -> Forall is_color paletteColors ->
  exists once,
    applyPalette data paletteColors = Ok once /\
    applyPalette once paletteColors = Ok once.
Proof.
  intros Hne Hcolors.
  destruct (applyPalette_alpha data paletteColors Hne) as (once & Hfirst & _).
  exists once. split; [done|]. by apply (applyPalette_idempotent_aux paletteColors Hcolors data).
Qed.

Lemma applyPalette_idempotent_witness :
  exists once,
    applyPalette [200; 100; 50; 255; 250; 240; 230; 7] [(0, 0, 0); (255, 255, 255)] = Ok once /\
    applyPalette once [(0, 0, 0); (255, 255, 255)] = Ok once.
Proof.
  apply (applyPalette_idempotent [200; 100; 50; 255; 250; 240; 230; 7]
           [(0, 0, 0); (255, 255, 255)]).
  - discriminate.
  - repeat constructor; unfold is_byte; lia.
Defined.

(** ** The raster scan as one loop over pixel positions *)

Section RasterOrder.

Context {S : Type}.

Lemma for_each_fmap {A B : Type} (f : A -> B) (body : S -> B -> Result S)
    (l : list A) (st : S) :
  for_each body (f <$> l) st = for_each (fun s a => body s (f a)) l st.
Proof.
  revert st. induction l as [|a l IH]; intros st; cbn [for_each fmap list_fmap]; [done|].
  destruct (body st (f a)); cbn; [apply IH|done].
Qed.

Lemma raster_scan_flat (body : Z -> S -> Z -> Result S) (width height : Z) (st : S) :
  raster_scan body width height st
  = for_each (fun s '(x, y) => body y s x) (Spec.raster_order width height) st.
Proof.
  unfold raster_scan, Spec.raster_order.
  generalize (seqZ 0 height) as ys. generalize (seqZ 0 width) as xs. intros xs ys.
  revert st. induction ys as [|y ys IH]; intros st; [done|].
  cbn [for_each]. rewrite bind_cons, for_each_app.
  assert (Hrow : forall s,
    for_each (body y) xs s
    = for_each (fun s '(x, y) => body y s x) (xs ≫= fun x => [(x, y)]) s).
  { clear IH. induction xs as [|x xs IHx]; intros s; [done|].
    rewrite bind_cons. cbn [for_each app]. destruct (body y s x); cbn; [apply IHx|done]. }
  rewrite Hrow. destruct (for_each _ (xs ≫= _) st); cbn; [apply IH|done].
Qed.

Lemma elem_of_raster_order (width height x y : Z) :
  (x, y) ∈ Spec.raster_order width height <-> 0 <= x < width /\ 0 <= y < height.
Proof.
  unfold Spec.raster_order. rewrite list_elem_of_bind. split.
  - intros (y' & Hxy & Hy). apply list_elem_of_bind in Hxy as (x' & Hxy & Hx).
    apply list_elem_of_singleton in Hxy as [= -> ->].
    apply elem_of_seqZ in Hx, Hy. lia.
  - intros [Hx Hy]. exists y. split; [|apply elem_of_seqZ; lia].
    apply list_elem_of_bind. exists x. split; [by left|apply elem_of_seqZ; lia].
Qed.

End RasterOrder.

Lemma for_each_related {S T A : Type} (R : S -> T -> Prop)
    (body1 : S -> A -> Result S) (body2 : T -> A -> Result T) (l : list A) :
  (forall s t a, a ∈ l -> R s t -> related_results R (body1 s a) (body2 t a)) ->
  forall s t, R s t -> related_results R (for_each body1 l s) (for_each body2 l t).
Proof.
  induction l as [|a l IH]; intros Hbody s t Hst; cbn [for_each]; [done|].
  pose proof (Hbody s t a ltac:(left) Hst) as Hstep. unfold related_results in Hstep.
  destruct (body1 s a) as [s'|e1], (body2 t a) as [t'|e2]; cbn; try done.
  apply IH; [|done]. intros s0 t0 b Hb. apply Hbody. by right.
Qed.

(** ** Error diffusion with strength 0 *)

Section StrengthZero.

Lemma of_Z_mul_zero (m : Z) : Z.abs m < 2 ^ 53 -> zeroish (of_Z m * 0)%float.
Proof.
  intros Hm.
  assert (H : Prim2SF (of_Z m * 0)%float = S754_zero (m <? 0)).
  { rewrite mul_spec, Prim2SF_of_Z by done. by destruct m. }
  rewrite <- (SF2Prim_Prim2SF (of_Z m * 0)%float), H.
  destruct (m <? 0); [by right|by left].
Qed.

Lemma of_Z_add_zero (b : Z) : Z.abs b < 2 ^ 53 -> (of_Z b + 0)%float = of_Z b.
Proof.
  intros Hb. change 0%float with (of_Z 0). rewrite of_Z_add; [|done|done|].
  - by rewrite Z.add_0_r.
  - by rewrite Z.add_0_r.
Qed.

Lemma zeroish_diffused (z f : float) :
  zeroish z -> f ∈ diffusion_factors -> fround (0 + z * f) = 0%float.
Proof.
  intros [-> | ->] Hf; unfold diffusion_factors in Hf;
    repeat (apply elem_of_cons in Hf as [-> | Hf]; [reflexivity|]);
    by apply elem_of_nil in Hf.
Qed.

Lemma Float32Array_set_zero (n : nat) (i : Z) (z f : float) :
  zeroish z -> f ∈ diffusion_factors ->
  Float32Array_set (Float32Array_new n) i
    (Float32Array_get (Float32Array_new n) i + z * f)%float
  = Float32Array_new n.
Proof.
  intros Hz Hf. unfold Float32Array_set, Float32Array_get, Float32Array_new.
  apply ta_set_id. intros w Hw. rewrite Hw.
  unfold ta_get in Hw. destruct (i <? 0); [done|].
  apply lookup_replicate in Hw as [-> _]. by rewrite zeroish_diffused.
Qed.

Lemma distributeError_zero (n : nat) (x y : Z) (e0 e1 e2 f : float) (width height : Z) :
  zeroish e0 -> zeroish e1 -> zeroish e2 -> f ∈ diffusion_factors ->
  distributeError (Float32Array_new n) x y (e0, e1, e2) f width height
  = Float32Array_new n.
Proof.
  intros H0 H1 H2 Hf. unfold distributeError.
  destruct (_ || _); [done|].
  by rewrite !Float32Array_set_zero.
Qed.

Variable paletteColors : list Color.
Hypothesis palette_colors : Forall is_color paletteColors.

Lemma clamp8_is_byte (v : Z) : is_byte (clamp8 v).
Proof. unfold is_byte, clamp8. lia. Qed.

Lemma Uint8ClampedArray_set_bytes (d : list Z) (i v : Z) :
  Forall is_byte d -> Forall is_byte (Uint8ClampedArray_set d i v).
Proof.
  intros Hd. unfold Uint8ClampedArray_set, ta_set. destruct (i <? 0); [done|].
  apply Forall_insert; [done|apply clamp8_is_byte].
Qed.

Lemma byte_small (b : Z) : is_byte b -> Z.abs b < 2 ^ 53.
Proof. unfold is_byte. change (2 ^ 53) with 9007199254740992. lia. Qed.

(** At a sample that exists, the byte plus a zero error is the byte. *)
Lemma observed_sample (d : list Z) (i : Z) :
  Forall is_byte d -> 0 <= i < Z.of_nat (length d) ->
  exists b, is_byte b /\ Uint8ClampedArray_get d i = of_Z b /\
    (Uint8ClampedArray_get d i + Float32Array_get (Float32Array_new (length d)) i)%float
    = of_Z b.
Proof.
  intros Hd Hi. destruct (ta_get_Some d i Hi) as [b Hb].
  assert (is_byte b).
  { unfold ta_get in Hb. destruct (i <? 0); [done|].
    eapply Forall_forall; [exact Hd|]. by eapply list_elem_of_lookup_2. }
  exists b. unfold Uint8ClampedArray_get, Float32Array_get, Float32Array_new.
  rewrite Hb. split; [done|split; [done|]].
  destruct (ta_get_Some (replicate (length d) 0%float) i) as [z Hz];
    [by rewrite length_replicate|].
  rewrite Hz. unfold ta_get in Hz. destruct (i <? 0); [done|].
  apply lookup_replicate in Hz as [-> _]. by apply of_Z_add_zero, byte_small.
Qed.

Lemma quantize_pixel_zero (d : list Z) (idx : Z) :
  Forall is_byte d -> 0 <= idx -> idx + 2 < Z.of_nat (length d) ->
  match quantize_pixel d (Float32Array_new (length d)) idx 0 paletteColors,
        applyPalette_body paletteColors d idx with
  | Ok (d1, (e0, e1, e2)), Ok d2 =>
      d1 = d2 /\ length d2 = length d /\ Forall is_byte d2 /\
      zeroish e0 /\ zeroish e1 /\ zeroish e2
  | Throw e1, Throw e2 => e1 = e2
  | _, _ => False
  end.
Proof.
  intros Hd Hidx Hlen. unfold quantize_pixel, applyPalette_body.
  destruct (observed_sample d idx Hd) as (b0 & Hb0 & Hg0 & ->); [lia|].
  destruct (observed_sample d (idx + 1) Hd) as (b1 & Hb1 & Hg1 & ->); [lia|].
  destruct (observed_sample d (idx + 2) Hd) as (b2 & Hb2 & Hg2 & ->); [lia|].
  rewrite Hg0, Hg1, Hg2.
  destruct (findClosestPaletteColor _ paletteColors) as [[[n0 n1] n2]|e] eqn:Hfind;
    cbn; [|done].
  assert (Hn : is_color (n0, n1, n2)).
  { eapply Forall_forall; [exact palette_colors|].
    by eapply findClosestPaletteColor_elem. }
  destruct Hn as (Hn0 & Hn1 & Hn2). unfold is_byte in *.
  split; [done|]. split; [by unfold Uint8ClampedArray_set; rewrite !length_ta_set|].
  split; [by repeat apply Uint8ClampedArray_set_bytes|].
  rewrite !of_Z_sub by (change (2 ^ 53) with 9007199254740992; lia).
  repeat split; apply of_Z_mul_zero; change (2 ^ 53) with 9007199254740992; lia.
Qed.

Lemma in_buffer (width height x y : Z) (n : nat) :
  Z.of_nat n = width * height * 4 -> 0 <= x < width -> 0 <= y < height ->
  0 <= (y * width + x) * 4 /\ (y * width + x) * 4 + 2 < Z.of_nat n.
Proof. intros -> Hx Hy. nia. Qed.

Lemma floydSteinberg_body_zero (width height : Z) (n : nat) (x y : Z)
    (st : list Z * list float) (d : list Z) :
  Z.of_nat n = width * height * 4 -> 0 <= x < width -> 0 <= y < height ->
  no_diffusion n st d ->
  related_results (no_diffusion n)
    (floydSteinberg_body width height 0 paletteColors y st x)
    (applyPalette_body paletteColors d (pixel_offset width (x, y))).
Proof.
  intros Hn Hx Hy (Hfst & Hsnd & Hlen & Hbytes). destruct st as [d' eb].
  cbn [fst snd] in *. subst d' eb. unfold floydSteinberg_body, pixel_offset.
  destruct (in_buffer width height x y n Hn Hx Hy) as [Hlo Hhi].
  pose proof (quantize_pixel_zero d ((y * width + x) * 4) Hbytes Hlo) as Hq.
  rewrite Hlen in Hq. specialize (Hq Hhi).
  destruct (quantize_pixel _ _ _ _ _) as [[d1 [[e0 e1] e2]]|e],
    (applyPalette_body _ _ _) as [d2|e']; cbn; try done.
  destruct Hq as (-> & Hl & Hb & H0 & H1 & H2).
  rewrite !distributeError_zero by (done || (apply list_elem_of_In; vm_compute; tauto)).
  repeat split; done.
Qed.

Lemma atkinson_body_zero (width height : Z) (n : nat) (x y : Z)
    (st : list Z * list float) (d : list Z) :
  Z.of_nat n = width * height * 4 -> 0 <= x < width -> 0 <= y < height ->
  no_diffusion n st d ->
  related_results (no_diffusion n)
    (atkinson_body width height 0 paletteColors y st x)
    (applyPalette_body paletteColors d (pixel_offset width (x, y))).
Proof.
  intros Hn Hx Hy (Hfst & Hsnd & Hlen & Hbytes). destruct st as [d' eb].
  cbn [fst snd] in *. subst d' eb. unfold atkinson_body, pixel_offset.
  destruct (in_buffer width height x y n Hn Hx Hy) as [Hlo Hhi].
  pose proof (quantize_pixel_zero d ((y * width + x) * 4) Hbytes Hlo) as Hq.
  rewrite Hlen in Hq. specialize (Hq Hhi).
  destruct (quantize_pixel _ _ _ _ _) as [[d1 [[e0 e1] e2]]|e],
    (applyPalette_body _ _ _) as [d2|e']; cbn; try done.
  destruct Hq as (-> & Hl & Hb & H0 & H1 & H2).
  rewrite !distributeError_zero by (done || (apply list_elem_of_In; vm_compute; tauto)).
  repeat split; done.
Qed.

End StrengthZero.

Section RasterOffsets.

Lemma raster_row_offsets (width y : Z) (xs : list Z) :
  pixel_offset width <$> (xs ≫= fun x => [(x, y)])
  = (fun x => (y * width + x) * 4) <$> xs.
Proof.
  induction xs as [|x xs IH]; [done|].
  rewrite bind_cons. cbn [app fmap list_fmap]. by rewrite <- IH.
Qed.

(** The offsets [applyPalette] visits are those of the pixels in raster
    order. *)
Lemma raster_offsets (width height : Z) :
  0 <= width -> 0 <= height ->
  pixel_offset width <$> Spec.raster_order width height
  = pixel_offsets (Z.to_nat (width * height * 4)).
Proof.
  intros Hw Hh. unfold pixel_offsets, Spec.raster_order.
  rewrite Z2Nat.id by nia.
  replace ((width * height * 4 + 3) / 4) with (width * height)
    by (apply (Z.div_unique _ 4 _ 3); lia).
  rewrite <- (Z2Nat.id height Hh). generalize (Z.to_nat height) as n. clear Hh height.
  induction n as [|n IH]; intros.
  - by rewrite Z.mul_0_r.
  - rewrite seqZ_S, bind_app, fmap_app, IH, bind_cons. cbn [mbind list_bind].
    rewrite app_nil_r.
    rewrite Nat2Z.inj_succ, Z.mul_succ_r, seqZ_app, fmap_app by lia.
    f_equal. rewrite raster_row_offsets.
    replace (seqZ (0 + width * Z.of_nat n) width)
      with (Z.add (width * Z.of_nat n) <$> seqZ 0 width)
      by (rewrite fmap_add_seqZ; f_equal; lia).
    rewrite <- list_fmap_compose.
    apply list_fmap_ext. intros _ x _. cbn. lia.
Qed.

End RasterOffsets.

(** C7. On a pixel buffer (bytes, width x height x 4 of them) and a palette
    of 8-bit colours, Floyd-Steinberg and Atkinson dithering with strength 0
    return exactly what flat quantisation ([applyPalette]) returns. *)
Theorem strength_zero_is_flat_quantization (data : list Z) (width height : Z)
    (paletteColors : list Color) :
  is_pixel_buffer data width height ->
  Forall is_color paletteColors ->
  floydSteinbergDithering data width height 0 paletteColors
  = applyPalette data paletteColors /\
  atkinsonDithering data width height 0 paletteColors
  = applyPalette data paletteColors.
Proof.
  intros (Hw & Hh & Hlen & Hbytes) Hpal.
  assert (Hflat : applyPalette data paletteColors
    = for_each (fun d p => applyPalette_body paletteColors d (pixel_offset width p))
        (Spec.raster_order width height) data).
  { unfold applyPalette.
    rewrite <- (for_each_fmap (pixel_offset width) (applyPalette_body paletteColors)).
    by rewrite raster_offsets, <- Hlen, Nat2Z.id. }
  assert (Hinit : no_diffusion (length data) (data, Float32Array_new (length data)) data)
    by done.
  split.
  - unfold floydSteinbergDithering. rewrite raster_scan_flat, Hflat.
    pose proof (for_each_related (no_diffusion (length data))
      (fun s '(x, y) => floydSteinberg_body width height 0 paletteColors y s x)
      (fun d p => applyPalette_body paletteColors d (pixel_offset width p))
      (Spec.raster_order width height)) as Hsim.
    specialize (Hsim ltac:(intros s t [x y] Hxy Hst;
      apply elem_of_raster_order in Hxy as [Hx Hy];
      by apply floydSteinberg_body_zero) _ _ Hinit).
    unfold related_results in Hsim.
    destruct (for_each _ _ (data, _)) as [[d1 eb]|e1], (for_each _ _ data) as [d2|e2];
      cbn; try done; [|by subst].
    destruct Hsim as (Hd & _). cbn in Hd. by subst.
  - unfold atkinsonDithering. rewrite raster_scan_flat, Hflat.
    pose proof (for_each_related (no_diffusion (length data))
      (fun s '(x, y) => atkinson_body width height 0 paletteColors y s x)
      (fun d p => applyPalette_body paletteColors d (pixel_offset width p))
      (Spec.raster_order width height)) as Hsim.
    specialize (Hsim ltac:(intros s t [x y] Hxy Hst;
      apply elem_of_raster_order in Hxy as [Hx Hy];
      by apply atkinson_body_zero) _ _ Hinit).
    unfold related_results in Hsim.
    destruct (for_each _ _ (data, _)) as [[d1 eb]|e1], (for_each _ _ data) as [d2|e2];
      cbn; try done; [|by subst].
    destruct Hsim as (Hd & _). cbn in Hd. by subst.
Qed.

Lemma strength_zero_is_flat_quantization_witness :
  floydSteinbergDithering [200; 100; 50; 255; 10; 20; 30; 40] 2 1 0
    [(0, 0, 0); (255, 255, 255)]
  = applyPalette [200; 100; 50; 255; 10; 20; 30; 40] [(0, 0, 0); (255, 255, 255)] /\
  atkinsonDithering [200; 100; 50; 255; 10; 20; 30; 40] 2 1 0
    [(0, 0, 0); (255, 255, 255)]
  = applyPalette [200; 100; 50; 255; 10; 20; 30; 40] [(0, 0, 0); (255, 255, 255)].
Proof.
  apply (strength_zero_is_flat_quantization [200; 100; 50; 255; 10; 20; 30; 40] 2 1
           [(0, 0, 0); (255, 255, 255)]).
  - unfold is_pixel_buffer. repeat split; try lia.
    repeat constructor; unfold is_byte; lia.
  - repeat constructor; unfold is_byte; lia.
Defined.

(** ** Ordered dithering: each pixel on its own *)

Section Positions.

Lemma position_injective (width x y x' y' : Z) :
  0 <= x < width -> 0 <= x' < width ->
  y * width + x = y' * width + x' -> x = x' /\ y = y'.
Proof. intros Hx Hx' H. assert (y = y') by nia. subst. lia. Qed.

Lemma raster_order_NoDup (width height : Z) : NoDup (Spec.raster_order width height).
Proof.
  unfold Spec.raster_order. apply NoDup_bind; [| |apply NoDup_seqZ].
  - intros y1 y2 [x y] _ _ H1 H2.
    apply list_elem_of_bind in H1 as (x1 & H1 & _), H2 as (x2 & H2 & _).
    apply list_elem_of_singleton in H1, H2. congruence.
  - intros y _. apply NoDup_bind; [| |apply NoDup_seqZ].
    + intros x1 x2 p _ _ H1 H2. apply list_elem_of_singleton in H1, H2. congruence.
    + intros x _. apply NoDup_singleton.
Qed.

Lemma pixel_at_frame (d d' : list Z) (width x y : Z) :
  (forall t, 0 <= t <= 3 ->
     ta_get d' (Spec.sample_index width x y t) = ta_get d (Spec.sample_index width x y t)) ->
  pixel_at d' width x y = pixel_at d width x y.
Proof.
  intros Hsame. unfold pixel_at. by rewrite !Hsame by lia.
Qed.

(** The stores of another pixel do not touch the samples of the pixel at
    (x, y). *)
Lemma store_rgb_frame (d : list Z) (width x y x' y' r g b : Z) :
  0 <= x < width -> 0 <= x' < width -> (x', y') <> (x, y) ->
  pixel_at
    (Uint8ClampedArray_set
       (Uint8ClampedArray_set
          (Uint8ClampedArray_set d ((y' * width + x') * 4) r)
          ((y' * width + x') * 4 + 1) g)
       ((y' * width + x') * 4 + 2) b) width x y
  = pixel_at d width x y.
Proof.
  intros Hx Hx' Hne. apply pixel_at_frame. intros t Ht.
  assert (y' * width + x' <> y * width + x).
  { intros Heq. apply position_injective in Heq as [-> ->]; done. }
  unfold Uint8ClampedArray_set, Spec.sample_index.
  rewrite !ta_get_set_ne by lia. done.
Qed.

(** The stores of the pixel at (x, y) itself. *)
Lemma store_rgb_pixel (d : list Z) (width x y r g b a q0 q1 q2 : Z) :
  0 <= x < width -> 0 <= y ->
  pixel_at d width x y = Some (r, g, b, a) ->
  pixel_at
    (Uint8ClampedArray_set
       (Uint8ClampedArray_set
          (Uint8ClampedArray_set d ((y * width + x) * 4) q0)
          ((y * width + x) * 4 + 1) q1)
       ((y * width + x) * 4 + 2) q2) width x y
  = Some (clamp8 q0, clamp8 q1, clamp8 q2, a).
Proof.
  intros Hx Hy Hpix. unfold pixel_at, Spec.sample_index in *.
  replace (4 * (y * width + x) + 0) with ((y * width + x) * 4) in * by lia.
  replace (4 * (y * width + x) + 1) with ((y * width + x) * 4 + 1) in * by lia.
  replace (4 * (y * width + x) + 2) with ((y * width + x) * 4 + 2) in * by lia.
  replace (4 * (y * width + x) + 3) with ((y * width + x) * 4 + 3) in * by lia.
  destruct (ta_get d ((y * width + x) * 4)) as [r'|] eqn:H0; [|done].
  destruct (ta_get d ((y * width + x) * 4 + 1)) as [g'|] eqn:H1; [|done].
  destruct (ta_get d ((y * width + x) * 4 + 2)) as [b'|] eqn:H2; [|done].
  destruct (ta_get d ((y * width + x) * 4 + 3)) as [a'|] eqn:H3; [|done].
  cbn in Hpix. injection Hpix as -> -> -> ->.
  assert (Hlen : (y * width + x) * 4 + 2 < Z.of_nat (length d)).
  { unfold ta_get in H2. destruct (_ <? 0); [done|].
    apply lookup_lt_Some in H2. lia. }
  assert (Hidx : 0 <= (y * width + x) * 4) by nia.
  pose proof (stored_samples d _ q0 q1 q2 Hidx) as Hout. cbn zeta in Hout.
  pose proof (Hout q0 0 ltac:(lia) ltac:(lia)) as E0. rewrite Z.add_0_r in E0.
  pose proof (Hout q1 1 ltac:(lia) ltac:(lia)) as E1.
  pose proof (Hout q2 2 ltac:(lia) ltac:(lia)) as E2.
  rewrite E0, E1, E2. rewrite !(proj2 (Z.ltb_lt _ _)) by lia.
  unfold Uint8ClampedArray_set at 1 2 3. rewrite !ta_get_set_ne by lia.
  by rewrite H3.
Qed.

Lemma pixel_at_samples (d : list Z) (width x y r g b a : Z) :
  pixel_at d width x y = Some (r, g, b, a) ->
  (Uint8ClampedArray_get d ((y * width + x) * 4),
   Uint8ClampedArray_get d ((y * width + x) * 4 + 1),
   Uint8ClampedArray_get d ((y * width + x) * 4 + 2)) = num_color (r, g, b).
Proof.
  unfold pixel_at, Spec.sample_index, Uint8ClampedArray_get.
  replace (4 * (y * width + x) + 0) with ((y * width + x) * 4) by lia.
  replace (4 * (y * width + x) + 1) with ((y * width + x) * 4 + 1) by lia.
  replace (4 * (y * width + x) + 2) with ((y * width + x) * 4 + 2) by lia.
  destruct (ta_get d ((y * width + x) * 4)) as [r'|]; [|done].
  destruct (ta_get d ((y * width + x) * 4 + 1)) as [g'|]; [|done].
  destruct (ta_get d ((y * width + x) * 4 + 2)) as [b'|]; [|done].
  destruct (ta_get d _) as [a'|]; [|done]. cbn. by intros [= -> -> -> ->].
Qed.

End Positions.

Section OrderedDithering.

Variables (width : Z) (strength : float).
Variables (paletteColors : list Color) (bayerMatrix : list (list Z)).
Hypothesis palette_nonempty : paletteColors <> [].
Hypothesis palette_colors : Forall is_color paletteColors.
Hypothesis matrix_nonempty : bayerMatrix <> [].

Variables (x y : Z).
Hypothesis x_range : 0 <= x < width.
Hypothesis y_range : 0 <= y.

(** Visiting other pixels leaves the pixel at (x, y) as it is. *)
Lemma ordered_scan_frame (l : list (Z * Z)) (d : list Z) v :
  (x, y) ∉ l ->
  (forall x' y', (x', y') ∈ l -> 0 <= x' < width /\ 0 <= y') ->
  pixel_at d width x y = v ->
  exists d',
    for_each (fun s '(x', y') =>
                ordered_body width strength paletteColors bayerMatrix y' s x') l d
    = Ok d' /\
    pixel_at d' width x y = v.
Proof.
  intros Hnot Hl Hv.
  apply (for_each_total (fun s => pixel_at s width x y = v)); [|done].
  intros s [x' y'] Hin Hs. destruct (Hl x' y' Hin) as [Hx' Hy'].
  unfold ordered_body.
  destruct (ordered_threshold_total bayerMatrix x' y' matrix_nonempty Hy') as [t ->].
  cbn. edestruct findClosestPaletteColor_total as [[[q0 q1] q2] ->]; [done|]. cbn.
  eexists. split; [done|]. rewrite store_rgb_frame; [done|done|done|].
  intros [= -> ->]. done.
Qed.

(** Visiting the pixel at (x, y) stores the palette colour nearest to its
    perturbed colour. *)
Lemma ordered_body_pixel (d : list Z) (r g b a : Z) (t : float) (q : Color) :
  pixel_at d width x y = Some (r, g, b, a) ->
  ordered_threshold bayerMatrix x y = Ok t ->
  findClosestPaletteColor
    (of_Z r + (t - 127.5) * strength, of_Z g + (t - 127.5) * strength,
     of_Z b + (t - 127.5) * strength)%float paletteColors = Ok q ->
  exists d',
    ordered_body width strength paletteColors bayerMatrix y d x = Ok d' /\
    pixel_at d' width x y = Some (q, a).
Proof.
  intros Hpix Ht Hq. unfold ordered_body.
  pose proof (pixel_at_samples d width x y r g b a Hpix) as Hread.
  cbn [num_color] in Hread. injection Hread as -> -> ->.
  rewrite Ht. cbn. unfold DitheringCoefficients.ORDERED_THRESHOLD_CENTER.
  rewrite Hq. destruct q as [[q0 q1] q2]. cbn.
  eexists. split; [done|].
  assert (Hcol : is_color (q0, q1, q2)).
  { eapply Forall_forall; [exact palette_colors|].
    by eapply findClosestPaletteColor_elem. }
  destruct Hcol as (H0 & H1 & H2).
  rewrite (store_rgb_pixel d width x y r g b a) by done.
  by rewrite !clamp8_byte.
Qed.

Lemma ordered_scan_pixel (height : Z) (d : list Z) (r g b a : Z) (t : float) (q : Color) :
  y < height ->
  pixel_at d width x y = Some (r, g, b, a) ->
  ordered_threshold bayerMatrix x y = Ok t ->
  findClosestPaletteColor
    (of_Z r + (t - 127.5) * strength, of_Z g + (t - 127.5) * strength,
     of_Z b + (t - 127.5) * strength)%float paletteColors = Ok q ->
  exists out,
    orderedDithering d width height strength paletteColors bayerMatrix = Ok out /\
    pixel_at out width x y = Some (q, a).
Proof.
  intros Hy Hpix Ht Hq. unfold orderedDithering. rewrite raster_scan_flat.
  assert (Hin : (x, y) ∈ Spec.raster_order width height)
    by (apply elem_of_raster_order; lia).
  pose proof (raster_order_NoDup width height) as Hnd.
  assert (Hrange : forall x' y', (x', y') ∈ Spec.raster_order width height ->
                                 0 <= x' < width /\ 0 <= y').
  { intros x' y' H. apply elem_of_raster_order in H. lia. }
  apply list_elem_of_split in Hin as (l1 & l2 & Hsplit). rewrite Hsplit in *.
  apply NoDup_app in Hnd as (_ & Hl1 & Hnd). apply NoDup_cons in Hnd as [Hl2 _].
  rewrite for_each_app.
  destruct (ordered_scan_frame l1 d (Some (r, g, b, a))) as (d1 & -> & Hd1); [| |done|].
  { intros H. by apply (Hl1 _ H); left. }
  { intros x' y' H. apply Hrange, elem_of_app. by left. }
  cbn -[ordered_body].
  destruct (ordered_body_pixel d1 r g b a t q Hd1 Ht Hq) as (d2 & -> & Hd2).
  cbn -[ordered_body]. apply ordered_scan_frame; [done| |done].
  intros x' y' H. apply Hrange, elem_of_app. right. by right.
Qed.

End OrderedDithering.

Lemma ordered_threshold_2x2 (x y : Z) :
  0 <= x -> 0 <= y ->
  ordered_threshold [[0; 2]; [3; 1]] x y = Ok (Spec.threshold x y).
Proof.
  intros Hx Hy. unfold ordered_threshold, Spec.threshold.
  change (Z.of_nat (length [[0; 2]; [3; 1]])) with 2.
  rewrite !Z.rem_mod_nonneg by lia.
  assert (Hxm : x mod 2 = 0 \/ x mod 2 = 1) by (pose proof (Z.mod_pos_bound x 2); lia).
  assert (Hym : y mod 2 = 0 \/ y mod 2 = 1) by (pose proof (Z.mod_pos_bound y 2); lia).
  destruct Hxm as [-> | ->], Hym as [-> | ->]; reflexivity.
Qed.

(** C3. With the 2x2 Bayer matrix [[0,2],[3,1]] the ordered ditherer turns
    the pixel at (x, y), whose input colour is [c], into nearest(c', palette)
    where each channel of [c'] is the channel of [c] plus
    (threshold - 127.5) x strength, threshold being
    (M[y mod 2][x mod 2] + 0.5) / 4 x 255; its alpha is kept.  The output
    pixel is a function of its own input, its position, the strength and
    the palette alone. *)
Theorem ordered_2x2_pixel (data : list Z) (width height : Z) (strength : float)
    (paletteColors : list Color) (x y : Z) (c : Color) (a : Z) :
  0 <= x < width -> 0 <= y < height ->
  paletteColors <> [] -> Forall is_color paletteColors ->
  pixel_at data width x y = Some (c, a) ->
  getBayerMatrix "2x2" = Ok [[0; 2]; [3; 1]] /\
  exists out q,
    orderedDithering data width height strength paletteColors [[0; 2]; [3; 1]] = Ok out /\
    findClosestPaletteColor (Spec.perturbed c x y strength) paletteColors = Ok q /\
    pixel_at out width x y = Some (q, a).
Proof.
  intros Hx Hy Hne Hcolors Hpix. split; [done|]. destruct c as [[r g] b].
  destruct (findClosestPaletteColor_total (Spec.perturbed (r, g, b) x y strength)
              paletteColors Hne) as [q Hq].
  destruct (ordered_scan_pixel width strength paletteColors [[0; 2]; [3; 1]]
              Hne Hcolors ltac:(done) x y Hx ltac:(lia) height data r g b a
              (Spec.threshold x y) q) as (out & Hout & Hpixel);
    [lia|done|apply ordered_threshold_2x2; lia|exact Hq|].
  by exists out, q.
Qed.

Lemma ordered_2x2_pixel_witness :
  getBayerMatrix "2x2" = Ok [[0; 2]; [3; 1]] /\
  exists out q,
    orderedDithering [200; 100; 50; 255; 120; 130; 140; 9] 2 1 1
      [(0, 0, 0); (255, 255, 255)] [[0; 2]; [3; 1]] = Ok out /\
    findClosestPaletteColor (Spec.perturbed (120, 130, 140) 1 0 1)
      [(0, 0, 0); (255, 255, 255)] = Ok q /\
    pixel_at out 2 1 0 = Some (q, 9).
Proof.
  apply (ordered_2x2_pixel [200; 100; 50; 255; 120; 130; 140; 9] 2 1 1
           [(0, 0, 0); (255, 255, 255)] 1 0 (120, 130, 140) 9).
  - lia.
  - lia.
  - discriminate.
  - repeat constructor; unfold is_byte; lia.
  - reflexivity.
Defined.

(** ** Floyd-Steinberg: the flat error buffer against the accumulator *)

Section FloydSteinberg.

Lemma length_Float32Array_set (eb : list float) (i : Z) (v : float) :
  length (Float32Array_set eb i v) = length eb.
Proof. apply length_ta_set. Qed.

Lemma Float32Array_get_set_eq (eb : list float) (i : Z) (v : float) :
  0 <= i < Z.of_nat (length eb) ->
  Float32Array_get (Float32Array_set eb i v) i = fround v.
Proof.
  intros Hi. unfold Float32Array_get, Float32Array_set. by rewrite ta_get_set_eq.
Qed.

Lemma Float32Array_get_set_ne (eb : list float) (i j : Z) (v : float) :
  j <> i -> Float32Array_get (Float32Array_set eb i v) j = Float32Array_get eb j.
Proof.
  intros Hne. unfold Float32Array_get, Float32Array_set. by rewrite ta_get_set_ne.
Qed.

Lemma guard_inside (width height x y : Z) :
  (x <? 0) || (x >=? width) || (y <? 0) || (y >=? height)
  = negb (Spec.inside width height x y).
Proof.
  unfold Spec.inside.
  destruct (Z.ltb_spec x 0), (Z.geb_spec x width), (Z.ltb_spec y 0),
    (Z.geb_spec y height), (Z.leb_spec 0 x), (Z.ltb_spec x width),
    (Z.leb_spec 0 y), (Z.ltb_spec y height); cbn; try done; lia.
Qed.

Variables (width height : Z).

Lemma distributeError_length (eb : list float) (tx ty : Z) (quantError : NumColor)
    (factor : float) :
  length (distributeError eb tx ty quantError factor width height) = length eb.
Proof.
  unfold distributeError. destruct quantError as [[e0 e1] e2].
  destruct (_ || _); [done|]. by rewrite !length_Float32Array_set.
Qed.

Lemma distributeError_tracks (eb : list float) (acc : Spec.ErrorAccumulator)
    (tx ty : Z) (quantError : NumColor) (factor : float) :
  tracks width height eb acc ->
  tracks width height
    (distributeError eb tx ty quantError factor width height)
    (Spec.add_fraction acc width height tx ty factor quantError).
Proof.
  intros Htracks x y t Hx Hy Ht Hlen. rewrite distributeError_length in Hlen.
  unfold distributeError, Spec.add_fraction. rewrite guard_inside.
  destruct (Spec.inside width height tx ty) eqn:Hin; cbn [negb]; [|by apply Htracks].
  destruct quantError as [[e0 e1] e2].
  assert (Htx : 0 <= tx < width /\ 0 <= ty < height).
  { unfold Spec.inside in Hin. apply andb_true_iff in Hin as [Hin H4].
    apply andb_true_iff in Hin as [Hin H3]. apply andb_true_iff in Hin as [H1 H2].
    apply Z.leb_le in H1, H3. apply Z.ltb_lt in H2, H4. lia. }
  destruct Htx as [Htx Hty].
  destruct (decide ((x, y) = (tx, ty))) as [[= -> ->]|Hne].
  - rewrite !Z.eqb_refl. cbn [andb].
    pose proof (Htracks tx ty 0 Htx Hty ltac:(lia) ltac:(lia)) as T0.
    pose proof (Htracks tx ty 1 Htx Hty ltac:(lia)) as T1.
    pose proof (Htracks tx ty 2 Htx Hty ltac:(lia)) as T2.
    rewrite Z.add_0_r in T0.
    destruct (acc tx ty) as [[p0 p1] p2]. cbn [channel] in *.
    assert (Hidx : 0 <= (ty * width + tx) * 4) by nia.
    assert (Hcase : t = 0 \/ t = 1 \/ t = 2) by lia.
    destruct Hcase as [-> | [-> | ->]]; cbn [Z.eqb].
    + rewrite Z.add_0_r in *. rewrite !Float32Array_get_set_ne by lia.
      rewrite Float32Array_get_set_eq by lia. by rewrite T0.
    + rewrite Float32Array_get_set_ne by lia.
      rewrite Float32Array_get_set_eq by (rewrite length_Float32Array_set; lia).
      rewrite Float32Array_get_set_ne by lia. rewrite T1 by lia. done.
    + rewrite Float32Array_get_set_eq by (rewrite !length_Float32Array_set; lia).
      rewrite !Float32Array_get_set_ne by lia. rewrite T2 by lia. done.
  - assert (Hidx : y * width + x <> ty * width + tx).
    { intros Heq. apply position_injective in Heq as [-> ->]; done. }
    rewrite !Float32Array_get_set_ne by lia.
    rewrite Htracks by done.
    destruct (Z.eqb_spec x tx) as [->|]; destruct (Z.eqb_spec y ty) as [->|]; done.
Qed.

Variables (strength : float) (paletteColors : list Color).

(** The colour observed at a pixel: stored sample plus pending error. *)
Lemma observed_channel (d : list Z) (eb : list float) (acc : Spec.ErrorAccumulator)
    (x y t : Z) :
  0 <= x < width -> 0 <= y < height -> 0 <= t <= 2 ->
  length eb = length d -> tracks width height eb acc ->
  (Uint8ClampedArray_get d ((y * width + x) * 4 + t)
   + Float32Array_get eb ((y * width + x) * 4 + t))%float
  = (Uint8ClampedArray_get d ((y * width + x) * 4 + t) + channel t (acc x y))%float.
Proof.
  intros Hx Hy Ht Hlen Htracks.
  destruct (Z_lt_ge_dec ((y * width + x) * 4 + t) (Z.of_nat (length eb))) as [Hin|Hout].
  - by rewrite Htracks.
  - unfold Uint8ClampedArray_get. rewrite ta_get_None by lia. by rewrite !nan_add.
Qed.

Lemma floydSteinberg_body_refines (x y : Z) (st : list Z * list float)
    (sp : list Z * Spec.ErrorAccumulator) :
  0 <= x < width -> 0 <= y < height ->
  refines width height st sp ->
  related_results (refines width height)
    (floydSteinberg_body width height strength paletteColors y st x)
    (Spec.floydSteinberg_pixel width height strength paletteColors sp (x, y)).
Proof.
  intros Hx Hy (Hfst & Hlen & Htracks). destruct st as [d eb], sp as [p acc].
  cbn [fst snd] in *. subst p.
  unfold floydSteinberg_body, quantize_pixel, Spec.floydSteinberg_pixel,
    Spec.stored_rgb, Spec.replace_rgb, Spec.sample_index.
  replace (4 * (y * width + x) + 0) with ((y * width + x) * 4) by lia.
  replace (4 * (y * width + x) + 1) with ((y * width + x) * 4 + 1) by lia.
  replace (4 * (y * width + x) + 2) with ((y * width + x) * 4 + 2) by lia.
  pose proof (observed_channel d eb acc x y 0 Hx Hy ltac:(lia) Hlen Htracks) as O0.
  pose proof (observed_channel d eb acc x y 1 Hx Hy ltac:(lia) Hlen Htracks) as O1.
  pose proof (observed_channel d eb acc x y 2 Hx Hy ltac:(lia) Hlen Htracks) as O2.
  rewrite Z.add_0_r in O0. rewrite O0, O1, O2.
  destruct (acc x y) as [[a0 a1] a2]. cbn [channel Z.eqb].
  destruct (findClosestPaletteColor _ paletteColors) as [[[n0 n1] n2]|e];
    cbn [mbind Result_bind related_results num_color]; [|done].
  unfold refines. cbn [fst snd]. split; [done|]. split.
  - rewrite !distributeError_length. unfold Uint8ClampedArray_set.
    by rewrite !length_ta_set.
  - by repeat apply distributeError_tracks.
Qed.

Lemma refines_initially (data : list Z) :
  refines width height (data, Float32Array_new (length data)) (data, Spec.no_error).
Proof.
  split; [done|]. split; [apply length_replicate|].
  intros x y t Hx Hy Ht Hlen. cbn [fst snd] in *.
  unfold Float32Array_get, Float32Array_new in *.
  destruct (ta_get_Some (replicate (length data) 0%float) ((y * width + x) * 4 + t))
    as [z Hz]; [nia|].
  rewrite Hz. unfold ta_get in Hz. destruct (_ <? 0); [done|].
  apply lookup_replicate in Hz as [-> _].
  unfold Spec.no_error, channel. by repeat case_match.
Qed.

End FloydSteinberg.

(** C2. [floydSteinbergDithering] is the specification's Floyd-Steinberg:
    pixels are visited in raster order; at each pixel the stored channel
    values plus the error accumulated at that position are quantised with
    [findClosestPaletteColor]; the error (observed - quantised) x strength is
    added, by 7/16 at (x+1, y), 3/16 at (x-1, y+1), 5/16 at (x, y+1) and 1/16
    at (x+1, y+1), to the pending error of those positions, a position
    outside [0, width) x [0, height) receiving nothing.  The flat buffer of
    the source never lets a dropped share reach another pixel. *)
Theorem floydSteinbergDithering_refines_spec (data : list Z) (width height : Z)
    (strength : float) (paletteColors : list Color) :
  floydSteinbergDithering data width height strength paletteColors
  = Spec.floydSteinberg data width height strength paletteColors.
Proof.
  unfold floydSteinbergDithering, Spec.floydSteinberg. rewrite raster_scan_flat.
  pose proof (for_each_related (refines width height)
    (fun s '(x, y) => floydSteinberg_body width height strength paletteColors y s x)
    (Spec.floydSteinberg_pixel width height strength paletteColors)
    (Spec.raster_order width height)) as Hsim.
  specialize (Hsim ltac:(intros s t [x y] Hxy Hst;
    apply elem_of_raster_order in Hxy as [Hx Hy];
    by apply floydSteinberg_body_refines)
    (data, Float32Array_new (length data)) (data, Spec.no_error)).
  specialize (Hsim (refines_initially width height data)).
  unfold related_results in Hsim.
  destruct (for_each _ _ (data, Float32Array_new _)) as [[d1 eb]|e1],
    (for_each _ _ (data, Spec.no_error)) as [[d2 acc]|e2]; cbn; try done.
  - destruct Hsim as (Hd & _). cbn in Hd. by subst.
  - by subst.
Qed.

(** * Further properties of the code *)

(** ** colorDistance and findClosestPaletteColor on any colour *)

Section ColorMathFurther.

Lemma of_Z_zero_iff (n : Z) : 0 <= n < 2 ^ 53 -> of_Z n = 0%float -> n = 0.
Proof.
  intros Hn H0. assert (H53 : 0 <= 0 < 2 ^ 53) by (split; [lia|reflexivity]).
  pose proof (of_Z_ltb 0 n H53 Hn) as Hlt.
  rewrite H0 in Hlt. change (of_Z 0) with 0%float in Hlt.
  change (0 <? 0)%float with false in Hlt. symmetry in Hlt. apply Z.ltb_ge in Hlt. lia.
Qed.

Lemma distance_sym (c q : Color) : Spec.distance c q = Spec.distance q c.
Proof. destruct c as [[r1 g1] b1], q as [[r2 g2] b2]. unfold Spec.distance. ring. Qed.

Lemma distance_zero (c q : Color) : Spec.distance c q = 0 -> c = q.
Proof.
  destruct c as [[r g] b], q as [[r' g'] b']. unfold Spec.distance. intros H.
  pose proof (Z.square_nonneg (r - r')) as Hr. pose proof (Z.square_nonneg (g - g')) as Hg.
  pose proof (Z.square_nonneg (b - b')) as Hb.
  assert (Hr0 : (r - r') * (r - r') = 0) by lia.
  assert (Hg0 : (g - g') * (g - g') = 0) by lia.
  assert (Hb0 : (b - b') * (b - b') = 0) by lia.
  apply Z.mul_eq_0 in Hr0, Hg0, Hb0.
  assert (r = r' /\ g = g' /\ b = b') as (-> & -> & ->) by lia. done.
Qed.

Lemma colorDistance_nan_r (g b : float) (q : Color) : colorDistance (nan, g, b) q = nan.
Proof.
  destruct q as [[r2 g2] b2]. unfold colorDistance.
  rewrite nan_sub. change (nan * nan)%float with nan. by rewrite !nan_add.
Qed.

Lemma colorDistance_nan_g (r b : float) (q : Color) : colorDistance (r, nan, b) q = nan.
Proof.
  destruct q as [[r2 g2] b2]. unfold colorDistance.
  rewrite nan_sub. change (nan * nan)%float with nan. by rewrite add_nan, nan_add.
Qed.

Lemma findClosestPaletteColor_nan_distance (color : NumColor) (first : Color)
    (rest : list Color) :
  (forall q, colorDistance color q = nan) ->
  findClosestPaletteColor color (first :: rest) = Ok first.
Proof.
  intros Hnan. unfold findClosestPaletteColor. rewrite Hnan. f_equal.
  induction rest as [|x rest IH]; [done|]. cbn [fold_left]. unfold closer at 2.
  rewrite Hnan, nan_ltb. exact IH.
Qed.

Lemma findClosestPaletteColor_member (color : NumColor) (palette : list Color) (c : Color) :
  findClosestPaletteColor color palette = Ok c -> c ∈ palette.
Proof.
  unfold findClosestPaletteColor. destruct palette as [|first rest]; [done|].
  intros [= <-]. apply closer_fold_elem; [left|by right].
Qed.

End ColorMathFurther.

(** X1. On 8-bit colours [colorDistance] computes the integer
    dr^2 + dg^2 + db^2 exactly, without rounding; so it does not depend on
    the order of its arguments, and it is 0 only between equal colours. *)
Theorem colorDistance_exact_integer (c q : Color) :
  is_color c -> is_color q ->
  colorDistance (num_color c) q = of_Z (Spec.distance c q) /\
  colorDistance (num_color c) q = colorDistance (num_color q) c /\
  (colorDistance (num_color c) q = 0%float <-> c = q).
Proof.
  intros Hc Hq. rewrite !colorDistance_exact by done. split; [done|]. split.
  - by rewrite distance_sym.
  - split.
    + intros H0. apply distance_zero, of_Z_zero_iff; [|done].
      by apply distance_bounds.
    + intros ->. replace (Spec.distance q q) with 0; [done|].
      destruct q as [[r g] b]. unfold Spec.distance. ring.
Qed.

Lemma colorDistance_exact_integer_witness :
  colorDistance (num_color (200, 100, 50)) (255, 255, 255)
  = of_Z (Spec.distance (200, 100, 50) (255, 255, 255)) /\
  colorDistance (num_color (200, 100, 50)) (255, 255, 255)
  = colorDistance (num_color (255, 255, 255)) (200, 100, 50) /\
  (colorDistance (num_color (200, 100, 50)) (255, 255, 255) = 0%float
   <-> (200, 100, 50) = (255, 255, 255)).
Proof.
  apply (colorDistance_exact_integer (200, 100, 50) (255, 255, 255));
    unfold is_color, is_byte; lia.
Defined.

(** X2. Whatever Numbers the colour holds (fractions, values outside 0..255,
    NaN), [findClosestPaletteColor] on a non-empty palette returns normally,
    and what it returns is an entry of the palette. *)
Theorem findClosestPaletteColor_in_palette (color : NumColor) (palette : list Color) :
  palette <> [] ->
  exists c, findClosestPaletteColor color palette = Ok c /\ c ∈ palette.
Proof.
  intros Hne. destruct (findClosestPaletteColor_total color palette Hne) as [c Hc].
  exists c. split; [done|]. by apply (findClosestPaletteColor_member color).
Qed.

Lemma findClosestPaletteColor_in_palette_witness :
  exists c, findClosestPaletteColor (300.5, -20, nan)%float [(0, 0, 0); (255, 255, 255)] = Ok c
            /\ c ∈ [(0, 0, 0); (255, 255, 255)].
Proof.
  apply (findClosestPaletteColor_in_palette (300.5, -20, nan)%float
           [(0, 0, 0); (255, 255, 255)]).
  discriminate.
Defined.

(** X3. A colour with a NaN channel (an [undefined] sample) is at distance
    NaN from every entry, no comparison succeeds, and the first palette entry
    is returned whatever the other channels and the other entries are. *)
Theorem nan_channel_gives_first_entry (x y : float) (first : Color) (rest : list Color) :
  findClosestPaletteColor (nan, x, y) (first :: rest) = Ok first /\
  findClosestPaletteColor (x, nan, y) (first :: rest) = Ok first /\
  findClosestPaletteColor (x, y, nan) (first :: rest) = Ok first.
Proof.
  repeat split; apply findClosestPaletteColor_nan_distance; intros q.
  - apply colorDistance_nan_r.
  - apply colorDistance_nan_g.
  - apply colorDistance_nan.
Qed.

(** ** hexToRgb and the palette given as an array of strings *)

Section HexToRgb.

Lemma land_255_byte (a : Z) : is_byte (Z.land a 255).
Proof.
  change 255 with (Z.ones 8). rewrite Z.land_ones by lia.
  unfold is_byte. pose proof (Z.mod_pos_bound a (2 ^ 8) ltac:(lia)).
  change (2 ^ 8) with 256 in *. lia.
Qed.

Lemma hexToRgb_color (hex : string) : is_color (hexToRgb hex).
Proof. unfold hexToRgb, is_color. repeat split; apply land_255_byte. Qed.

(** What being a hexadecimal digit excludes. *)
Lemma hex_digit_char (c : ascii) (d : Z) :
  radix_digit 16 c = Some d ->
  0 <= d < 16 /\ is_white_space c = false /\
  Ascii.eqb c "#" = false /\ Ascii.eqb c "-" = false /\ Ascii.eqb c "+" = false /\
  Ascii.eqb c "x" = false /\ Ascii.eqb c "X" = false.
Proof.
  destruct c as [[] [] [] [] [] [] [] []]; vm_compute; intros H; try discriminate H;
    injection H as <-; repeat split; discriminate.
Qed.

Lemma strip_hex_prefix_digit (c1 c2 : ascii) (rest : string) (d : Z) :
  radix_digit 16 c2 = Some d -> strip_hex_prefix (String c1 (String c2 rest)) = None.
Proof.
  intros Hd. apply hex_digit_char in Hd as (_ & _ & _ & _ & _ & Hx & HX).
  unfold strip_hex_prefix.
  destruct c1 as [[] [] [] [] [] [] [] []]; try reflexivity.
  destruct c2 as [[] [] [] [] [] [] [] []]; try reflexivity; discriminate.
Qed.

Lemma parseInt_hex (c : ascii) (rest : string) (d : Z) :
  radix_digit 16 c = Some d ->
  strip_hex_prefix (String c rest) = None ->
  parseInt (String c rest) 16
  = match parse_digits 16 (String c rest) None with
    | None => nan
    | Some v => if v =? 0 then 0%float else of_Z v
    end.
Proof.
  intros Hd Hprefix. pose proof (hex_digit_char c d Hd) as (_ & Hws & _ & Hm & Hp & _).
  unfold parseInt. cbn [trim_start]. rewrite Hws.
  assert (Hsign : match String c rest with
                  | String "-" r => (true, r)
                  | String "+" r => (false, r)
                  | _ => (false, String c rest)
                  end = (false, String c rest)).
  { destruct c as [[] [] [] [] [] [] [] []]; try reflexivity; discriminate. }
  rewrite Hsign. cbn [negb Z.eqb andb orb]. rewrite Hprefix. done.
Qed.

Lemma parse_digits_all (cs : list ascii) (ds : list Z) (acc : Z) :
  Forall2 (fun c d => radix_digit 16 c = Some d) cs ds ->
  parse_digits 16 (string_of_list_ascii cs) (Some acc)
  = Some (fold_left (fun acc d => 16 * acc + d) ds acc).
Proof.
  intros H. revert acc. induction H as [|c d cs ds Hd _ IH]; intros acc; [done|].
  cbn [string_of_list_ascii parse_digits fold_left]. rewrite Hd. cbn [default]. apply IH.
Qed.

Lemma hex_number_bound (ds : list Z) (acc : Z) :
  Forall (fun d => 0 <= d < 16) ds -> 0 <= acc ->
  0 <= fold_left (fun acc d => 16 * acc + d) ds acc < (acc + 1) * 16 ^ Z.of_nat (length ds).
Proof.
  intros H. revert acc. induction H as [|d ds Hd _ IH]; intros acc Hacc.
  - cbn. lia.
  - cbn [fold_left length]. specialize (IH (16 * acc + d) ltac:(lia)).
    rewrite Nat2Z.inj_succ, Z.pow_succ_r by lia.
    assert (0 < 16 ^ Z.of_nat (length ds)) by (apply Z.pow_pos_nonneg; lia). nia.
Qed.

Lemma ToInt32_of_Z (v : Z) : 0 <= v < 2 ^ 31 -> ToInt32 (of_Z v) = v.
Proof.
  intros Hv. unfold ToInt32.
  rewrite Prim2SF_of_Z by (change (2 ^ 31) with 2147483648 in Hv;
                           change (2 ^ 53) with 9007199254740992; lia).
  destruct v as [|p|p]; [done| |lia]. unfold canonZ, canon_pos. cbv zeta iota.
  pose proof (digits_pos p) as Hp. pose proof (digits_spec p) as [Hlo Hhi].
  assert (Hd : digits p <= 31).
  { destruct (Z_le_gt_dec (digits p) 31) as [|Hgt]; [done|].
    assert (2 ^ 31 <= 2 ^ (digits p - 1)) by (apply Z.pow_le_mono_r; lia). lia. }
  rewrite (proj2 (Z.leb_gt 0 (digits p - 53 + 0))) by lia.
  rewrite canon_mantissa by lia.
  replace (- (digits p - 53 + 0)) with (53 - digits p) by lia.
  rewrite Z.div_mul by (apply Z.pow_nonzero; lia).
  rewrite Z.mod_small by (change (2 ^ 32) with 4294967296; change (2 ^ 31) with 2147483648 in Hv; lia).
  by rewrite (proj2 (Z.leb_gt (2 ^ 31) (Z.pos p))) by lia.
Qed.

Lemma low_bytes_bits (v : Z) :
  (Z.land (Z.shiftr v 16) 255, Z.land (Z.shiftr v 8) 255, Z.land v 255) = low_bytes v.
Proof.
  unfold low_bytes. change 255 with (Z.ones 8).
  rewrite !Z.land_ones, !Z.shiftr_div_pow2 by lia. done.
Qed.

(** Up to seven hexadecimal digits, with or without a leading '#', decode to
    the three low bytes of the number they denote. *)
Lemma hexToRgb_digits (cs : list ascii) (ds : list Z) :
  Forall2 (fun c d => radix_digit 16 c = Some d) cs ds ->
  cs <> [] -> (length cs <= 7)%nat ->
  hexToRgb (string_of_list_ascii cs) = low_bytes (hex_number ds) /\
  hexToRgb (String "#" (string_of_list_ascii cs)) = low_bytes (hex_number ds).
Proof.
  intros Hds Hne Hlen.
  assert (Hrange : Forall (fun d => 0 <= d < 16) ds).
  { clear Hne Hlen. induction Hds as [|c d cs ds Hd _ IH]; constructor; [|done].
    by apply hex_digit_char in Hd as [? _]. }
  assert (Hsharp : remove_first "#" (string_of_list_ascii cs) = string_of_list_ascii cs).
  { clear Hne Hlen Hrange. induction Hds as [|c d cs ds Hd _ IH]; [done|].
    cbn [string_of_list_ascii remove_first].
    apply hex_digit_char in Hd as (_ & _ & -> & _). by rewrite IH. }
  assert (Hparse : ToInt32 (parseInt (string_of_list_ascii cs) 16) = hex_number ds).
  { pose proof (hex_number_bound ds 0 Hrange ltac:(lia)) as Hb. fold (hex_number ds) in Hb.
    rewrite <- (Forall2_length _ _ _ Hds) in Hb.
    assert (16 ^ Z.of_nat (length cs) <= 16 ^ 7) by (apply Z.pow_le_mono_r; lia).
    assert (Hv : 0 <= hex_number ds < 2 ^ 31).
    { change (2 ^ 31) with 2147483648. change (16 ^ 7) with 268435456 in *. lia. }
    destruct Hds as [|c d cs ds Hd Hds]; [done|]. cbn [string_of_list_ascii].
    rewrite (parseInt_hex c _ d Hd).
    2:{ destruct Hds as [|c' d' cs ds Hd' _]; cbn [string_of_list_ascii].
        - unfold strip_hex_prefix. by destruct c as [[] [] [] [] [] [] [] []].
        - by eapply strip_hex_prefix_digit. }
    cbn [parse_digits]. rewrite Hd. cbn [default].
    rewrite (parse_digits_all cs ds) by done.
    change (16 * 0 + d) with (0 + d) at 1.
    replace (fold_left _ ds (16 * 0 + d)) with (hex_number (d :: ds)) by done.
    destruct (Z.eqb_spec (hex_number (d :: ds)) 0) as [->|_]; [done|].
    by apply ToInt32_of_Z. }
  unfold hexToRgb. cbn [remove_first]. change (Ascii.eqb "#" "#") with true. cbn iota.
  rewrite Hsharp, Hparse. by rewrite low_bytes_bits.
Qed.

End HexToRgb.

(** X4. Every channel [hexToRgb] returns lies in 0..255, whatever the
    string; so the palette [pixelate] builds from an array of strings is a
    list of 8-bit colours. *)
Theorem palette_of_array_colors (palette : list string) :
  Forall is_color (palette_of_array palette).
Proof.
  unfold palette_of_array. apply Forall_fmap, Forall_forall. intros hex _.
  apply hexToRgb_color.
Qed.

(** X5. Six hexadecimal digits (either case), with or without the leading
    '#', decode to the three bytes they spell: red from the first pair, green
    from the second, blue from the third. *)
Theorem hexToRgb_six_digits (c1 c2 c3 c4 c5 c6 : ascii) (d1 d2 d3 d4 d5 d6 : Z) :
  radix_digit 16 c1 = Some d1 -> radix_digit 16 c2 = Some d2 ->
  radix_digit 16 c3 = Some d3 -> radix_digit 16 c4 = Some d4 ->
  radix_digit 16 c5 = Some d5 -> radix_digit 16 c6 = Some d6 ->
  hexToRgb (string_of_list_ascii [c1; c2; c3; c4; c5; c6])
  = (16 * d1 + d2, 16 * d3 + d4, 16 * d5 + d6) /\
  hexToRgb (String "#" (string_of_list_ascii [c1; c2; c3; c4; c5; c6]))
  = (16 * d1 + d2, 16 * d3 + d4, 16 * d5 + d6).
Proof.
  intros H1 H2 H3 H4 H5 H6.
  pose proof (hex_digit_char _ _ H1) as [? _]. pose proof (hex_digit_char _ _ H2) as [? _].
  pose proof (hex_digit_char _ _ H3) as [? _]. pose proof (hex_digit_char _ _ H4) as [? _].
  pose proof (hex_digit_char _ _ H5) as [? _]. pose proof (hex_digit_char _ _ H6) as [? _].
  assert (Hbytes : low_bytes (hex_number [d1; d2; d3; d4; d5; d6])
                   = (16 * d1 + d2, 16 * d3 + d4, 16 * d5 + d6)).
  { unfold low_bytes, hex_number. cbn [fold_left]. f_equal; [f_equal|].
    - rewrite <- (Z.div_unique _ 65536 (16 * d1 + d2) (4096 * d3 + 256 * d4 + 16 * d5 + d6))
        by lia. apply Z.mod_small. lia.
    - rewrite <- (Z.div_unique _ 256 (4096 * d1 + 256 * d2 + 16 * d3 + d4) (16 * d5 + d6))
        by lia. symmetry. apply (Z.mod_unique _ 256 (16 * d1 + d2)); lia.
    - symmetry. apply (Z.mod_unique _ 256 (4096 * d1 + 256 * d2 + 16 * d3 + d4)); lia. }
  rewrite <- Hbytes.
  apply hexToRgb_digits; [|done|cbn; lia]. repeat constructor; done.
Qed.

Lemma hexToRgb_six_digits_witness :
  hexToRgb "ff8000" = (255, 128, 0) /\ hexToRgb "#ff8000" = (255, 128, 0).
Proof.
  apply (hexToRgb_six_digits "f" "f" "8" "0" "0" "0" 15 15 8 0 0 0); reflexivity.
Defined.

(** X6. The three-digit shorthand is not expanded: three hexadecimal digits
    are read as one number below 4096, so red is 0, green is the first digit
    and blue is the byte spelled by the last two. *)
Theorem hexToRgb_three_digits (c1 c2 c3 : ascii) (d1 d2 d3 : Z) :
  radix_digit 16 c1 = Some d1 -> radix_digit 16 c2 = Some d2 ->
  radix_digit 16 c3 = Some d3 ->
  hexToRgb (string_of_list_ascii [c1; c2; c3]) = (0, d1, 16 * d2 + d3) /\
  hexToRgb (String "#" (string_of_list_ascii [c1; c2; c3])) = (0, d1, 16 * d2 + d3).
Proof.
  intros H1 H2 H3.
  pose proof (hex_digit_char _ _ H1) as [? _]. pose proof (hex_digit_char _ _ H2) as [? _].
  pose proof (hex_digit_char _ _ H3) as [? _].
  assert (Hbytes : low_bytes (hex_number [d1; d2; d3]) = (0, d1, 16 * d2 + d3)).
  { unfold low_bytes, hex_number. cbn [fold_left]. f_equal; [f_equal|].
    - rewrite Z.div_small by lia. done.
    - rewrite <- (Z.div_unique _ 256 d1 (16 * d2 + d3)) by lia. apply Z.mod_small. lia.
    - symmetry. apply (Z.mod_unique _ 256 d1); lia. }
  rewrite <- Hbytes.
  apply hexToRgb_digits; [|done|cbn; lia]. repeat constructor; done.
Qed.

Lemma hexToRgb_three_digits_witness :
  hexToRgb "F00" = (0, 15, 0) /\ hexToRgb "#F00" = (0, 15, 0).
Proof.
  apply (hexToRgb_three_digits "F" "0" "0" 15 0 0); reflexivity.
Defined.

(** X7. A string that does not start with a hexadecimal number gives black:
    when the first character (after the leading '#', if any) is no
    hexadecimal digit, no white space and no sign, [parseInt] gives NaN and
    every channel is 0; so does the empty string.  No error is raised. *)
Theorem hexToRgb_not_a_number (c : ascii) (rest : string) :
  radix_digit 16 c = None -> is_white_space c = false ->
  c <> "-"%char -> c <> "+"%char -> c <> "#"%char ->
  hexToRgb (String c rest) = (0, 0, 0) /\
  hexToRgb (String "#" (String c rest)) = (0, 0, 0) /\
  hexToRgb "" = (0, 0, 0) /\ hexToRgb "#" = (0, 0, 0).
Proof.
  intros Hdigit Hws Hminus Hplus Hsharp.
  assert (Hnan : forall tail, parseInt (String c tail) 16 = nan).
  { intros tail. unfold parseInt. cbn [trim_start]. rewrite Hws.
    assert (Hsign : match String c tail with
                    | String "-" r => (true, r)
                    | String "+" r => (false, r)
                    | _ => (false, String c tail)
                    end = (false, String c tail)).
    { destruct c as [[] [] [] [] [] [] [] []]; try reflexivity; congruence. }
    rewrite Hsign. cbn [negb Z.eqb andb orb Z.ltb Z.compare Pos.compare Pos.compare_cont].
    assert (Hprefix : strip_hex_prefix (String c tail) = None).
    { unfold strip_hex_prefix.
      destruct c as [[] [] [] [] [] [] [] []]; try reflexivity; discriminate Hdigit. }
    rewrite Hprefix. cbn [Pos.eqb]. cbv beta iota zeta. cbn [parse_digits]. by rewrite Hdigit. }
  assert (Hkeep : remove_first "#" (String c rest) = String c (remove_first "#" rest)).
  { cbn [remove_first]. destruct (Ascii.eqb_spec c "#"); [congruence|done]. }
  split; [|split; [|split; reflexivity]].
  - unfold hexToRgb. rewrite Hkeep, Hnan. reflexivity.
  - unfold hexToRgb. cbn [remove_first]. change (Ascii.eqb "#" "#") with true. cbn iota.
    rewrite Hnan. reflexivity.
Qed.

Lemma hexToRgb_not_a_number_witness :
  hexToRgb "red" = (0, 0, 0) /\ hexToRgb "#red" = (0, 0, 0) /\
  hexToRgb "" = (0, 0, 0) /\ hexToRgb "#" = (0, 0, 0).
Proof.
  apply (hexToRgb_not_a_number "r" "ed"); [reflexivity|reflexivity|discriminate..].
Defined.

(** ** distributeError *)

(** X8. [distributeError] never changes the size of the buffer; a target
    outside [0, width) x [0, height) leaves the buffer as it is; and a target
    inside changes nothing but the three colour slots of that pixel. *)
Theorem distributeError_footprint (buffer : list float) (x y : Z) (quantError : NumColor)
    (factor : float) (width height : Z) :
  let buffer' := distributeError buffer x y quantError factor width height in
  length buffer' = length buffer /\
  (Spec.inside width height x y = false -> buffer' = buffer) /\
  (forall i : nat,
     Z.of_nat i <> (y * width + x) * 4 ->
     Z.of_nat i <> (y * width + x) * 4 + 1 ->
     Z.of_nat i <> (y * width + x) * 4 + 2 ->
     buffer' !! i = buffer !! i).
Proof.
  cbn zeta. split; [apply distributeError_length|]. split.
  - intros Hout. unfold distributeError. by rewrite guard_inside, Hout.
  - intros i H0 H1 H2. unfold distributeError. destruct quantError as [[e0 e1] e2].
    destruct (_ || _); [done|]. unfold Float32Array_set.
    by rewrite !ta_set_lookup_ne.
Qed.

(** ** The validation of [pixelate] *)

Section Validation.

Lemma SFcompare_antisym (x y : spec_float) :
  SFcompare y x = option_map CompOpp (SFcompare x y).
Proof.
  destruct x as [[]|[]| |[] m1 e1], y as [[]|[]| |[] m2 e2]; try reflexivity;
    cbn [SFcompare option_map]; f_equal;
    pose proof (Pos.compare_cont_antisym m1 m2 Eq) as Hm; cbn [CompOpp] in Hm;
    rewrite (Z.compare_antisym e1 e2), <- Hm;
    destruct (e1 ?= e2); cbn [CompOpp]; try reflexivity; by rewrite ?CompOpp_involutive.
Qed.

(** [!x || x < a] and [x > b] against the comparisons they stand for. *)
Lemma rejects_below (x a : float) :
  is_nan a = false -> (0 <? a)%float = true ->
  falsy x || (x <? a)%float = negb (a <=? x)%float.
Proof.
  unfold falsy, is_zero, is_nan.
  rewrite !FloatAxioms.eqb_spec, FloatAxioms.ltb_spec, FloatAxioms.ltb_spec, FloatAxioms.leb_spec.
  unfold SFeqb, SFltb, SFleb. rewrite (SFcompare_antisym (Prim2SF x) (Prim2SF a)).
  change (Prim2SF 0) with (S754_zero false).
  destruct (Prim2SF x) as [[]|[]| |[] m1 e1], (Prim2SF a) as [[]|[]| |[] m2 e2];
    try reflexivity; try discriminate; intros _ _;
    cbn [SFcompare option_map CompOpp negb orb];
    rewrite ?Z.compare_refl, ?Pos.compare_cont_refl; cbn [negb orb CompOpp];
    try reflexivity.
  destruct (e1 ?= e2); cbn [CompOpp]; try reflexivity.
  destruct (Pos.compare_cont Eq m1 m2); reflexivity.
Qed.

Lemma rejects_above (x b : float) :
  is_nan x = false -> is_nan b = false -> (b <? x)%float = negb (x <=? b)%float.
Proof.
  unfold is_nan. rewrite !FloatAxioms.eqb_spec, FloatAxioms.ltb_spec, FloatAxioms.leb_spec.
  unfold SFeqb, SFltb, SFleb. rewrite (SFcompare_antisym (Prim2SF x) (Prim2SF b)).
  destruct (Prim2SF x) as [[]|[]| |[] m1 e1], (Prim2SF b) as [[]|[]| |[] m2 e2];
    try reflexivity; try discriminate; intros _ _;
    cbn [SFcompare option_map CompOpp negb orb];
    try reflexivity;
    repeat match goal with
           | |- context [Z.compare ?a ?b] => destruct (Z.compare a b)
           | |- context [Pos.compare_cont Eq ?a ?b] => destruct (Pos.compare_cont Eq a b)
           end; reflexivity.
Qed.

Lemma leb_not_nan (a x : float) : (a <=? x)%float = true -> is_nan x = false.
Proof.
  unfold is_nan. rewrite FloatAxioms.eqb_spec, FloatAxioms.leb_spec. unfold SFeqb, SFleb.
  destruct (Prim2SF x) as [[]|[]| |[] m1 e1], (Prim2SF a) as [[]|[]| |[] m2 e2];
    try reflexivity; try discriminate; intros _;
    cbn [SFcompare negb]; by rewrite ?Z.compare_refl, ?Pos.compare_cont_refl.
Qed.

Lemma pixelate_validate_cases (image : bool) (width : float) :
  pixelate_validate image width
  = if negb image then Throw (Error "Image parameter is required for pixelation.")
    else if negb (2 <=? width)%float then Throw (Error "Width must be at least 2 pixels.")
    else if negb (width <=? 4096)%float then Throw (Error "Width cannot exceed 4096 pixels.")
    else Ok tt.
Proof.
  unfold pixelate_validate. destruct image; [|done]. cbn [negb].
  change (of_Z PixelationConstants.MIN_PIXEL_WIDTH) with 2%float.
  change (of_Z PixelationConstants.MAX_PIXEL_WIDTH) with 4096%float.
  rewrite (rejects_below width 2) by reflexivity.
  destruct (2 <=? width)%float eqn:Hlow; cbn [negb]; [|reflexivity].
  rewrite (rejects_above width 4096); [|by eapply leb_not_nan|reflexivity].
  destruct (width <=? 4096)%float; reflexivity.
Qed.

End Validation.

(** X9. [pixelate] accepts its arguments exactly when an image is given and
    the width is a Number with 2 <= width <= 4096, fractions included; a
    missing (NaN), zero or too small width is rejected with the at-least
    message, a width above 4096 with the cannot-exceed message, and a missing
    image before either. *)
Theorem pixelate_validate_accepts (image : bool) (width : float) :
  (pixelate_validate image width = Ok tt <->
   image = true /\ (2 <=? width)%float = true /\ (width <=? 4096)%float = true) /\
  pixelate_validate image width
  = if negb image then Throw (Error "Image parameter is required for pixelation.")
    else if negb (2 <=? width)%float then Throw (Error "Width must be at least 2 pixels.")
    else if negb (width <=? 4096)%float then Throw (Error "Width cannot exceed 4096 pixels.")
    else Ok tt.
Proof.
  split; [|apply pixelate_validate_cases].
  rewrite pixelate_validate_cases. split.
  - by destruct image, (2 <=? width)%float, (width <=? 4096)%float.
  - by intros (-> & -> & ->).
Qed.

(** ** Atkinson: the source's loop against its documented pattern *)

Section Atkinson.

Variables (width height : Z) (strength : float) (paletteColors : list Color).

Lemma atkinson_body_refines (x y : Z) (st : list Z * list float)
    (sp : list Z * Spec.ErrorAccumulator) :
  0 <= x < width -> 0 <= y < height ->
  refines width height st sp ->
  related_results (refines width height)
    (atkinson_body width height strength paletteColors y st x)
    (AtkinsonPattern.pixel width height strength paletteColors sp (x, y)).
Proof.
  intros Hx Hy (Hfst & Hlen & Htracks). destruct st as [d eb], sp as [p acc].
  cbn [fst snd] in *. subst p.
  unfold atkinson_body, quantize_pixel, AtkinsonPattern.pixel,
    Spec.stored_rgb, Spec.replace_rgb, Spec.sample_index.
  replace (4 * (y * width + x) + 0) with ((y * width + x) * 4) by lia.
  replace (4 * (y * width + x) + 1) with ((y * width + x) * 4 + 1) by lia.
  replace (4 * (y * width + x) + 2) with ((y * width + x) * 4 + 2) by lia.
  pose proof (observed_channel width height d eb acc x y 0 Hx Hy ltac:(lia) Hlen Htracks) as O0.
  pose proof (observed_channel width height d eb acc x y 1 Hx Hy ltac:(lia) Hlen Htracks) as O1.
  pose proof (observed_channel width height d eb acc x y 2 Hx Hy ltac:(lia) Hlen Htracks) as O2.
  rewrite Z.add_0_r in O0. rewrite O0, O1, O2.
  destruct (acc x y) as [[a0 a1] a2]. cbn [channel Z.eqb].
  destruct (findClosestPaletteColor _ paletteColors) as [[[n0 n1] n2]|e];
    cbn [mbind Result_bind related_results num_color]; [|done].
  unfold refines. cbn [fst snd]. split; [done|]. split.
  - rewrite !distributeError_length. unfold Uint8ClampedArray_set.
    by rewrite !length_ta_set.
  - unfold AtkinsonPattern.spread, AtkinsonPattern.neighbours. cbn [fold_left].
    rewrite !Z.add_0_r. change (x + -1) with (x - 1).
    by repeat apply distributeError_tracks.
Qed.

End Atkinson.

(** X10. [atkinsonDithering] is the pattern its documentation draws: pixels
    are visited in raster order; the stored channels plus the pending error
    are quantised with [findClosestPaletteColor]; one eighth of the error
    (observed - quantised) x strength goes to each of (x+1, y), (x+2, y),
    (x-1, y+1), (x, y+1), (x+1, y+1) and (x, y+2), a neighbour outside the
    image receiving nothing; a quarter of the error is dropped. *)
Theorem atkinsonDithering_refines_pattern (data : list Z) (width height : Z)
    (strength : float) (paletteColors : list Color) :
  atkinsonDithering data width height strength paletteColors
  = AtkinsonPattern.dither data width height strength paletteColors.
Proof.
  unfold atkinsonDithering, AtkinsonPattern.dither. rewrite raster_scan_flat.
  pose proof (for_each_related (refines width height)
    (fun s '(x, y) => atkinson_body width height strength paletteColors y s x)
    (AtkinsonPattern.pixel width height strength paletteColors)
    (Spec.raster_order width height)) as Hsim.
  specialize (Hsim ltac:(intros s t [x y] Hxy Hst;
    apply elem_of_raster_order in Hxy as [Hx Hy];
    by apply atkinson_body_refines)
    (data, Float32Array_new (length data)) (data, Spec.no_error)).
  specialize (Hsim (refines_initially width height data)).
  unfold related_results in Hsim.
  destruct (for_each _ _ (data, Float32Array_new _)) as [[d1 eb]|e1],
    (for_each _ _ (data, Spec.no_error)) as [[d2 acc]|e2]; cbn; try done.
  - destruct Hsim as (Hd & _). cbn in Hd. by subst.
  - by subst.
Qed.

(** ** getBayerMatrix and the ordered ditherer on any of its matrices *)

Section ThresholdMatrix.

Variable matrix : list (list Z).
Hypothesis matrix_nonempty : matrix <> [].
Hypothesis matrix_square : is_square matrix.

Lemma ordered_threshold_cell (x y : Z) :
  0 <= x -> 0 <= y ->
  ordered_threshold matrix x y = Ok (threshold_at matrix x y).
Proof.
  intros Hx Hy. unfold ordered_threshold, threshold_at, bayer_entry, matrix_cell.
  assert (Hn : 0 < Z.of_nat (length matrix)) by (destruct matrix; [done|cbn; lia]).
  rewrite !Z.rem_mod_nonneg by lia.
  pose proof (Z.mod_pos_bound y _ Hn) as Hrow. pose proof (Z.mod_pos_bound x _ Hn) as Hcol.
  destruct (ta_get_Some matrix (y mod Z.of_nat (length matrix)) Hrow) as [cells Hcells].
  rewrite Hcells. cbn [mbind option_bind].
  assert (Hlen : length cells = length matrix).
  { unfold ta_get in Hcells. destruct (_ <? 0); [done|].
    apply list_elem_of_lookup_2 in Hcells.
    by apply (proj1 (Forall_forall _ _) matrix_square). }
  destruct (ta_get_Some cells (x mod Z.of_nat (length matrix))) as [v Hv]; [lia|].
  rewrite Hv. done.
Qed.

End ThresholdMatrix.

(** X11. Every matrix [getBayerMatrix] returns is square (2, 4 or 8 rows)
    and holds pairwise distinct entries: the three Bayer matrices hold
    exactly the integers 0 .. n*n-1, while the clustered matrix holds
    1 .. 16. *)
Theorem getBayerMatrix_shape (type : string) (m : list (list Z)) :
  getBayerMatrix type = Ok m ->
  let n := Z.of_nat (length m) in
  m <> [] /\ is_square m /\ NoDup (concat m) /\
  (type <> "clustered 4x4"%string -> Forall (fun v => 0 <= v < n * n) (concat m)) /\
  (type = "clustered 4x4"%string -> Forall (fun v => 1 <= v <= n * n) (concat m)).
Proof.
  unfold getBayerMatrix, is_square.
  destruct (String.eqb_spec type "2x2") as [->|_];
    [|destruct (String.eqb_spec type "4x4") as [->|_];
      [|destruct (String.eqb_spec type "8x8") as [->|_];
        [|destruct (String.eqb_spec type "clustered 4x4") as [->|_]; [|discriminate]]]];
    intros [= <-]; cbv zeta;
    (split; [discriminate|]);
    (split; [by repeat constructor|]);
    (split; [by apply (bool_decide_unpack _); vm_compute|]);
    (split; intros Htype; try discriminate Htype; try done;
     by apply (bool_decide_unpack _); vm_compute).
Qed.

Lemma getBayerMatrix_shape_witness :
  let m := [[7; 13; 11; 4]; [12; 16; 14; 8]; [10; 15; 6; 2]; [5; 9; 3; 1]] in
  let n := Z.of_nat (length m) in
  m <> [] /\ is_square m /\ NoDup (concat m) /\
  ("clustered 4x4"%string <> "clustered 4x4"%string ->
   Forall (fun v => 0 <= v < n * n) (concat m)) /\
  ("clustered 4x4"%string = "clustered 4x4"%string ->
   Forall (fun v => 1 <= v <= n * n) (concat m)).
Proof.
  apply (getBayerMatrix_shape "clustered 4x4"). reflexivity.
Defined.

(** X12. For every square, non-empty threshold matrix (each matrix of
    [getBayerMatrix] is one) the ordered ditherer turns the pixel at (x, y),
    of input colour [c], into the palette colour nearest to [c] moved by
    (threshold - 127.5) x strength in each channel, the threshold being
    (matrix[y mod n][x mod n] + 0.5) / (n x n) x 255; alpha is kept and no
    other pixel enters the result. *)
Theorem ordered_pixel (data : list Z) (width height : Z) (strength : float)
    (paletteColors : list Color) (bayerMatrix : list (list Z)) (x y : Z)
    (c : Color) (a : Z) :
  0 <= x < width -> 0 <= y < height ->
  paletteColors <> [] -> Forall is_color paletteColors ->
  bayerMatrix <> [] -> is_square bayerMatrix ->
  pixel_at data width x y = Some (c, a) ->
  exists out q,
    orderedDithering data width height strength paletteColors bayerMatrix = Ok out /\
    findClosestPaletteColor (perturbed_by (threshold_at bayerMatrix x y) c strength)
      paletteColors = Ok q /\
    pixel_at out width x y = Some (q, a).
Proof.
  intros Hx Hy Hne Hcolors Hm Hsq Hpix. destruct c as [[r g] b].
  destruct (findClosestPaletteColor_total
              (perturbed_by (threshold_at bayerMatrix x y) (r, g, b) strength)
              paletteColors Hne) as [q Hq].
  destruct (ordered_scan_pixel width strength paletteColors bayerMatrix
              Hne Hcolors Hm x y Hx ltac:(lia) height data r g b a
              (threshold_at bayerMatrix x y) q) as (out & Hout & Hpixel);
    [lia|done|apply ordered_threshold_cell; (done || lia)|exact Hq|].
  by exists out, q.
Qed.

Lemma ordered_pixel_witness :
  exists out q,
    orderedDithering [200; 100; 50; 255; 120; 130; 140; 9] 2 1 (1 / 2)
      [(0, 0, 0); (255, 255, 255)]
      [[7; 13; 11; 4]; [12; 16; 14; 8]; [10; 15; 6; 2]; [5; 9; 3; 1]] = Ok out /\
    findClosestPaletteColor
      (perturbed_by
         (threshold_at [[7; 13; 11; 4]; [12; 16; 14; 8]; [10; 15; 6; 2]; [5; 9; 3; 1]] 1 0)
         (120, 130, 140) (1 / 2))
      [(0, 0, 0); (255, 255, 255)] = Ok q /\
    pixel_at out 2 1 0 = Some (q, 9).
Proof.
  apply (ordered_pixel [200; 100; 50; 255; 120; 130; 140; 9] 2 1 (1 / 2)
           [(0, 0, 0); (255, 255, 255)]
           [[7; 13; 11; 4]; [12; 16; 14; 8]; [10; 15; 6; 2]; [5; 9; 3; 1]]
           1 0 (120, 130, 140) 9).
  - lia.
  - lia.
  - discriminate.
  - repeat constructor; unfold is_byte; lia.
  - discriminate.
  - by repeat constructor.
  - reflexivity.
Defined.

(** ** What a quantising loop leaves at a pixel *)

Section QuantisingLoop.

Context {S A : Type}.
Variables (dat : S -> list Z) (off : A -> Z) (paletteColors : list Color).
Variable body : S -> A -> Result S.
Hypothesis palette_colors : Forall is_color paletteColors.

(** A loop whose every iteration stores a palette colour at the three colour
    slots of its own pixel leaves, at a pixel it visits once, a palette
    colour and the alpha the pixel had. *)
Lemma quantising_loop (l : list A) (a0 : A) (st : S) (alpha : Z) :
  (forall a, a ∈ l -> exists k, off a = 4 * k /\ 0 <= k) ->
  (forall s a, a ∈ l ->
     exists s' q0 q1 q2,
       body s a = Ok s' /\ (q0, q1, q2) ∈ paletteColors /\
       dat s' = Uint8ClampedArray_set
                  (Uint8ClampedArray_set (Uint8ClampedArray_set (dat s) (off a) q0)
                     (off a + 1) q1)
                  (off a + 2) q2) ->
  NoDup (off <$> l) -> a0 ∈ l ->
  ta_get (dat st) (off a0 + 3) = Some alpha ->
  exists st' q0 q1 q2,
    for_each body l st = Ok st' /\ (q0, q1, q2) ∈ paletteColors /\
    ta_get (dat st') (off a0) = Some q0 /\
    ta_get (dat st') (off a0 + 1) = Some q1 /\
    ta_get (dat st') (off a0 + 2) = Some q2 /\
    ta_get (dat st') (off a0 + 3) = Some alpha.
Proof.
  intros Hoff Hbody Hnd Hin Halpha.
  assert (Hframe : forall (l' : list A) (P : list Z -> Prop) s,
    (forall a, a ∈ l' -> a ∈ l) -> off a0 ∉ off <$> l' ->
    (forall d i q0 q1 q2 k, i = 4 * k -> i <> off a0 -> P d ->
       (forall t, 0 <= t <= 3 ->
          ta_get (Uint8ClampedArray_set (Uint8ClampedArray_set
                   (Uint8ClampedArray_set d i q0) (i + 1) q1) (i + 2) q2) (off a0 + t)
          = ta_get d (off a0 + t)) ->
       P (Uint8ClampedArray_set (Uint8ClampedArray_set
            (Uint8ClampedArray_set d i q0) (i + 1) q1) (i + 2) q2)) ->
    P (dat s) ->
    exists s', for_each body l' s = Ok s' /\ P (dat s')).
  { intros l' P s Hsub Hnot HP Hs.
    apply (for_each_total (fun s => P (dat s))); [|done].
    intros s0 a Ha Hs0. destruct (Hbody s0 a (Hsub a Ha)) as (s' & q0 & q1 & q2 & -> & _ & Hs').
    eexists. split; [done|]. rewrite Hs'. destruct (Hoff a (Hsub a Ha)) as (k & Hk & _).
    destruct (Hoff a0 Hin) as (k0 & Hk0 & _).
    assert (Hne : off a <> off a0).
    { intros Heq. apply Hnot. rewrite <- Heq. by apply list_elem_of_fmap_2. }
    apply (HP _ _ _ _ _ k); [done|done|done|].
    intros t Ht. unfold Uint8ClampedArray_set. rewrite !ta_get_set_ne by lia. done. }
  apply list_elem_of_split in Hin as Hsplit. destruct Hsplit as (l1 & l2 & Hsplit).
  rewrite Hsplit in Hnd. rewrite fmap_app, fmap_cons in Hnd.
  apply NoDup_app in Hnd as (_ & Hl1 & Hnd). apply NoDup_cons in Hnd as [Hl2 _].
  rewrite Hsplit, for_each_app.
  destruct (Hframe l1 (fun d => ta_get d (off a0 + 3) = Some alpha) st)
    as (s1 & -> & Hs1); [| | |done|].
  { intros a Ha. rewrite Hsplit. apply elem_of_app. by left. }
  { intros H. apply (Hl1 _ H). by left. }
  { intros d i q0 q1 q2 k _ _ Hd Hsame. by rewrite Hsame by lia. }
  cbn [mbind Result_bind for_each].
  destruct (Hbody s1 a0 Hin) as (s2 & q0 & q1 & q2 & -> & Hq & Hs2).
  cbn [mbind Result_bind].
  assert (Hcol : is_color (q0, q1, q2)) by (eapply Forall_forall; eauto).
  destruct Hcol as (H0 & H1 & H2). destruct (Hoff a0 Hin) as (k0 & Hk0 & Hk0').
  assert (Hlen : off a0 + 3 < Z.of_nat (length (dat s1))).
  { unfold ta_get in Hs1. destruct (_ <? 0); [done|]. apply lookup_lt_Some in Hs1. lia. }
  pose proof (stored_samples (dat s1) (off a0) q0 q1 q2 ltac:(lia)) as Hout.
  cbn zeta in Hout. rewrite <- Hs2 in Hout.
  pose proof (Hout q0 0 ltac:(lia) ltac:(lia)) as E0. rewrite Z.add_0_r in E0.
  pose proof (Hout q1 1 ltac:(lia) ltac:(lia)) as E1.
  pose proof (Hout q2 2 ltac:(lia) ltac:(lia)) as E2.
  rewrite (proj2 (Z.ltb_lt _ _)) in E0 by lia. rewrite (proj2 (Z.ltb_lt _ _)) in E1 by lia.
  rewrite (proj2 (Z.ltb_lt _ _)) in E2 by lia.
  rewrite clamp8_byte in E0, E1, E2 by done.
  assert (E3 : ta_get (dat s2) (off a0 + 3) = Some alpha).
  { rewrite Hs2. unfold Uint8ClampedArray_set. rewrite !ta_get_set_ne by lia. done. }
  destruct (Hframe l2 (fun d => ta_get d (off a0) = Some q0 /\
                                ta_get d (off a0 + 1) = Some q1 /\
                                ta_get d (off a0 + 2) = Some q2 /\
                                ta_get d (off a0 + 3) = Some alpha) s2)
    as (s3 & -> & Hs3); [| | |done|].
  { intros a Ha. rewrite Hsplit. apply elem_of_app. right. by right. }
  { done. }
  { intros d i p0 p1 p2 k _ _ (D0 & D1 & D2 & D3) Hsame.
    pose proof (Hsame 0 ltac:(lia)) as S0. rewrite Z.add_0_r in S0.
    by rewrite S0, !Hsame by lia. }
  by exists s3, q0, q1, q2.
Qed.

End QuantisingLoop.

Section QuantisedPixels.

Variables (width height : Z) (strength : float) (paletteColors : list Color).
Hypothesis palette_nonempty : paletteColors <> [].
Hypothesis palette_colors : Forall is_color paletteColors.

Lemma raster_offsets_NoDup :
  NoDup (pixel_offset width <$> Spec.raster_order width height).
Proof.
  apply NoDup_fmap_2_strong; [|apply raster_order_NoDup].
  intros [x1 y1] [x2 y2] H1 H2 Heq. apply elem_of_raster_order in H1, H2.
  unfold pixel_offset in Heq.
  assert (Hpos : y1 * width + x1 = y2 * width + x2) by lia.
  apply position_injective in Hpos as [-> ->]; [done|lia|lia].
Qed.

Lemma raster_offset_aligned (p : Z * Z) :
  p ∈ Spec.raster_order width height -> exists k, pixel_offset width p = 4 * k /\ 0 <= k.
Proof.
  destruct p as [x y]. intros H. apply elem_of_raster_order in H.
  exists (y * width + x). unfold pixel_offset. split; [lia|nia].
Qed.

Lemma quantize_pixel_stores (d : list Z) (eb : list float) (idx : Z) :
  exists q0 q1 q2 quantError,
    quantize_pixel d eb idx strength paletteColors
    = Ok (Uint8ClampedArray_set
            (Uint8ClampedArray_set (Uint8ClampedArray_set d idx q0) (idx + 1) q1)
            (idx + 2) q2, quantError) /\
    (q0, q1, q2) ∈ paletteColors.
Proof.
  unfold quantize_pixel.
  edestruct findClosestPaletteColor_total as [[[q0 q1] q2] Hq]; [exact palette_nonempty|].
  rewrite Hq. cbn [mbind Result_bind]. exists q0, q1, q2. eexists. split; [done|].
  by eapply findClosestPaletteColor_member.
Qed.

Lemma pixel_at_slots (d : list Z) (x y r g b a : Z) :
  pixel_at d width x y = Some (r, g, b, a) <->
  ta_get d (pixel_offset width (x, y)) = Some r /\
  ta_get d (pixel_offset width (x, y) + 1) = Some g /\
  ta_get d (pixel_offset width (x, y) + 2) = Some b /\
  ta_get d (pixel_offset width (x, y) + 3) = Some a.
Proof.
  unfold pixel_at, Spec.sample_index, pixel_offset.
  replace (4 * (y * width + x) + 0) with ((y * width + x) * 4) by lia.
  replace (4 * (y * width + x) + 1) with ((y * width + x) * 4 + 1) by lia.
  replace (4 * (y * width + x) + 2) with ((y * width + x) * 4 + 2) by lia.
  replace (4 * (y * width + x) + 3) with ((y * width + x) * 4 + 3) by lia.
  destruct (ta_get d ((y * width + x) * 4)) as [r'|]; cbn; [|split; [done|by intros [? _]]].
  destruct (ta_get d ((y * width + x) * 4 + 1)) as [g'|]; cbn;
    [|split; [done|by intros (_ & ? & _)]].
  destruct (ta_get d ((y * width + x) * 4 + 2)) as [b'|]; cbn;
    [|split; [done|by intros (_ & _ & ? & _)]].
  destruct (ta_get d ((y * width + x) * 4 + 3)) as [a'|]; cbn;
    [|split; [done|by intros (_ & _ & _ & ?)]].
  split; [by intros [= -> -> -> ->]|by intros ([= ->] & [= ->] & [= ->] & [= ->])].
Qed.

Lemma scan_quantises {S : Type} (dat : S -> list Z)
    (body : Z -> S -> Z -> Result S) (st : S) (x y : Z) (c : Color) (a : Z) :
  (forall s x' y', 0 <= x' < width -> 0 <= y' < height ->
     exists s' q0 q1 q2,
       body y' s x' = Ok s' /\ (q0, q1, q2) ∈ paletteColors /\
       dat s' = Uint8ClampedArray_set
                  (Uint8ClampedArray_set
                     (Uint8ClampedArray_set (dat s) ((y' * width + x') * 4) q0)
                     ((y' * width + x') * 4 + 1) q1)
                  ((y' * width + x') * 4 + 2) q2) ->
  0 <= x < width -> 0 <= y < height ->
  pixel_at (dat st) width x y = Some (c, a) ->
  exists st' q,
    raster_scan body width height st = Ok st' /\ q ∈ paletteColors /\
    pixel_at (dat st') width x y = Some (q, a).
Proof.
  intros Hbody Hx Hy Hpix. destruct c as [[r g] b].
  apply pixel_at_slots in Hpix as (_ & _ & _ & Halpha).
  rewrite raster_scan_flat.
  destruct (quantising_loop dat (pixel_offset width) paletteColors
              (fun s '(x, y) => body y s x) palette_colors
              (Spec.raster_order width height) (x, y) st a)
    as (st' & q0 & q1 & q2 & Hrun & Hq & H0 & H1 & H2 & H3).
  - apply raster_offset_aligned.
  - intros s [x' y'] Hin. apply elem_of_raster_order in Hin as [Hx' Hy'].
    by apply Hbody.
  - apply raster_offsets_NoDup.
  - by apply elem_of_raster_order.
  - done.
  - exists st', (q0, q1, q2). split; [done|]. split; [done|]. by apply pixel_at_slots.
Qed.

Variables (x y : Z) (c : Color) (a : Z).
Hypothesis x_range : 0 <= x < width.
Hypothesis y_range : 0 <= y < height.

Lemma applyPalette_quantises (data : list Z) :
  pixel_at data width x y = Some (c, a) ->
  exists out q, applyPalette data paletteColors = Ok out /\
                q ∈ paletteColors /\ pixel_at out width x y = Some (q, a).
Proof.
  intros Hpix. destruct c as [[r g] b].
  apply pixel_at_slots in Hpix as (_ & _ & _ & Halpha).
  assert (Hk : 0 <= y * width + x) by nia.
  destruct (quantising_loop (fun d : list Z => d) (fun i : Z => i) paletteColors
              (applyPalette_body paletteColors) palette_colors
              (pixel_offsets (length data)) (pixel_offset width (x, y)) data a)
    as (out & q0 & q1 & q2 & Hrun & Hq & H0 & H1 & H2 & H3).
  - intros i Hi. apply pixel_offsets_spec in Hi as (Hi & k & ->). exists k. lia.
  - intros d i _. unfold applyPalette_body.
    edestruct findClosestPaletteColor_total as [[[q0 q1] q2] Hq]; [exact palette_nonempty|].
    rewrite Hq. cbn [mbind Result_bind]. eexists _, q0, q1, q2.
    split; [done|]. split; [by eapply findClosestPaletteColor_member|done].
  - rewrite list_fmap_id. apply pixel_offsets_NoDup.
  - apply pixel_offsets_spec. unfold pixel_offset. split; [|exists (y * width + x); lia].
    unfold ta_get, pixel_offset in Halpha. destruct (_ <? 0); [done|].
    apply lookup_lt_Some in Halpha. lia.
  - done.
  - exists out, (q0, q1, q2). split; [done|]. split; [done|]. by apply pixel_at_slots.
Qed.

Lemma floydSteinbergDithering_quantises (data : list Z) :
  pixel_at data width x y = Some (c, a) ->
  exists out q, floydSteinbergDithering data width height strength paletteColors = Ok out /\
                q ∈ paletteColors /\ pixel_at out width x y = Some (q, a).
Proof.
  intros Hpix. unfold floydSteinbergDithering.
  destruct (scan_quantises fst
              (floydSteinberg_body width height strength paletteColors)
              (data, Float32Array_new (length data)) x y c a)
    as ([out eb] & q & -> & Hq & Hout); [|done|done|done|by exists out, q].
  intros [d eb] x' y' _ _. unfold floydSteinberg_body.
  destruct (quantize_pixel_stores d eb ((y' * width + x') * 4))
    as (q0 & q1 & q2 & e & -> & Hq).
  cbn [mbind Result_bind]. by eexists _, q0, q1, q2.
Qed.

Lemma atkinsonDithering_quantises (data : list Z) :
  pixel_at data width x y = Some (c, a) ->
  exists out q, atkinsonDithering data width height strength paletteColors = Ok out /\
                q ∈ paletteColors /\ pixel_at out width x y = Some (q, a).
Proof.
  intros Hpix. unfold atkinsonDithering.
  destruct (scan_quantises fst
              (atkinson_body width height strength paletteColors)
              (data, Float32Array_new (length data)) x y c a)
    as ([out eb] & q & -> & Hq & Hout); [|done|done|done|by exists out, q].
  intros [d eb] x' y' _ _. unfold atkinson_body.
  destruct (quantize_pixel_stores d eb ((y' * width + x') * 4))
    as (q0 & q1 & q2 & e & -> & Hq).
  cbn [mbind Result_bind]. by eexists _, q0, q1, q2.
Qed.

Lemma orderedDithering_quantises (data : list Z) (bayerMatrix : list (list Z)) :
  bayerMatrix <> [] ->
  pixel_at data width x y = Some (c, a) ->
  exists out q, orderedDithering data width height strength paletteColors bayerMatrix
                = Ok out /\
                q ∈ paletteColors /\ pixel_at out width x y = Some (q, a).
Proof.
  intros Hm Hpix. unfold orderedDithering.
  destruct (scan_quantises (fun d : list Z => d)
              (ordered_body width strength paletteColors bayerMatrix)
              data x y c a)
    as (out & q & -> & Hq & Hout); [|done|done|done|by exists out, q].
  intros d x' y' _ Hy'. unfold ordered_body.
  destruct (ordered_threshold_total bayerMatrix x' y' Hm ltac:(lia)) as [t ->].
  cbn [mbind Result_bind].
  edestruct findClosestPaletteColor_total as [[[q0 q1] q2] Hq]; [exact palette_nonempty|].
  rewrite Hq. cbn [mbind Result_bind]. eexists _, q0, q1, q2.
  split; [done|]. split; [by eapply findClosestPaletteColor_member|done].
Qed.

End QuantisedPixels.

(** X13. With a non-empty palette of 8-bit colours none of the four
    quantisers throws, and every pixel of the buffer comes out as a colour of
    the palette with the alpha it had: flat quantisation, Floyd-Steinberg and
    Atkinson at any strength (NaN and infinities included), and ordered
    dithering with any non-empty matrix. *)
Theorem quantised_pixel_in_palette (data : list Z) (width height : Z)
    (strength : float) (paletteColors : list Color) (bayerMatrix : list (list Z))
    (x y : Z) (c : Color) (a : Z) :
  0 <= x < width -> 0 <= y < height ->
  paletteColors <> [] -> Forall is_color paletteColors -> bayerMatrix <> [] ->
  pixel_at data width x y = Some (c, a) ->
  (exists out q, applyPalette data paletteColors = Ok out /\
                 q ∈ paletteColors /\ pixel_at out width x y = Some (q, a)) /\
  (exists out q, floydSteinbergDithering data width height strength paletteColors = Ok out /\
                 q ∈ paletteColors /\ pixel_at out width x y = Some (q, a)) /\
  (exists out q, atkinsonDithering data width height strength paletteColors = Ok out /\
                 q ∈ paletteColors /\ pixel_at out width x y = Some (q, a)) /\
  (exists out q, orderedDithering data width height strength paletteColors bayerMatrix
                 = Ok out /\
                 q ∈ paletteColors /\ pixel_at out width x y = Some (q, a)).
Proof.
  intros Hx Hy Hne Hcolors Hm Hpix. split; [|split; [|split]].
  - by eapply applyPalette_quantises.
  - by eapply floydSteinbergDithering_quantises.
  - by eapply atkinsonDithering_quantises.
  - by eapply orderedDithering_quantises.
Qed.

Lemma quantised_pixel_in_palette_witness :
  (exists out q, applyPalette [200; 100; 50; 255; 10; 20; 30; 40]
                   [(0, 0, 0); (255, 255, 255)] = Ok out /\
                 q ∈ [(0, 0, 0); (255, 255, 255)] /\ pixel_at out 2 1 0 = Some (q, 40)) /\
  (exists out q, floydSteinbergDithering [200; 100; 50; 255; 10; 20; 30; 40] 2 1 1
                   [(0, 0, 0); (255, 255, 255)] = Ok out /\
                 q ∈ [(0, 0, 0); (255, 255, 255)] /\ pixel_at out 2 1 0 = Some (q, 40)) /\
  (exists out q, atkinsonDithering [200; 100; 50; 255; 10; 20; 30; 40] 2 1 1
                   [(0, 0, 0); (255, 255, 255)] = Ok out /\
                 q ∈ [(0, 0, 0); (255, 255, 255)] /\ pixel_at out 2 1 0 = Some (q, 40)) /\
  (exists out q, orderedDithering [200; 100; 50; 255; 10; 20; 30; 40] 2 1 1
                   [(0, 0, 0); (255, 255, 255)] [[0; 2]; [3; 1]] = Ok out /\
                 q ∈ [(0, 0, 0); (255, 255, 255)] /\ pixel_at out 2 1 0 = Some (q, 40)).
Proof.
  apply (quantised_pixel_in_palette [200; 100; 50; 255; 10; 20; 30; 40] 2 1 1
           [(0, 0, 0); (255, 255, 255)] [[0; 2]; [3; 1]] 1 0 (10, 20, 30) 40).
  - lia.
  - lia.
  - discriminate.
  - repeat constructor; unfold is_byte; lia.
  - discriminate.
  - reflexivity.
Defined.

(** ** Strength 0, the default of [pixelate] *)

Section DefaultStrength.

Lemma of_Z_add_zeroish (b : Z) (z : float) :
  Z.abs b < 2 ^ 53 -> zeroish z -> (of_Z b + z)%float = of_Z b.
Proof.
  intros Hb [-> | ->]; [by apply of_Z_add_zero|].
  apply Prim2SF_inj. rewrite add_spec, Prim2SF_of_Z by done.
  change (Prim2SF (-0)) with (S754_zero true). by destruct b.
Qed.

Lemma matrix_cell_elem (m : list (list Z)) (row col : Z) :
  m <> [] -> is_square m ->
  0 <= row < Z.of_nat (length m) -> 0 <= col < Z.of_nat (length m) ->
  matrix_cell m row col ∈ concat m.
Proof.
  intros Hm Hsq Hrow Hcol. unfold matrix_cell.
  destruct (ta_get_Some m row Hrow) as [cells Hcells]. rewrite Hcells.
  cbn [mbind option_bind].
  assert (Hin : cells ∈ m).
  { unfold ta_get in Hcells. destruct (_ <? 0); [done|].
    by eapply list_elem_of_lookup_2. }
  assert (Hlen : length cells = length m)
    by (by apply (proj1 (Forall_forall _ _) Hsq)).
  destruct (ta_get_Some cells col) as [v Hv]; [lia|]. rewrite Hv. cbn [default].
  apply list_elem_of_In, in_concat. exists cells. split; apply list_elem_of_In; [done|].
  unfold ta_get in Hv. destruct (_ <? 0); [done|]. by eapply list_elem_of_lookup_2.
Qed.

(** At strength 0 the thresholds of the four matrices move no colour. *)
Lemma threshold_silent (type : string) (m : list (list Z)) (x y : Z) :
  getBayerMatrix type = Ok m -> 0 <= x -> 0 <= y ->
  zeroish ((threshold_at m x y - 127.5) * 0)%float.
Proof.
  intros Hget Hx Hy.
  assert (Hshape : m <> [] /\ is_square m /\
    Forall (fun v => zeroish (((of_Z v + 0.5)
                               / (of_Z (Z.of_nat (length m)) * of_Z (Z.of_nat (length m)))
                               * 255 - 127.5) * 0)%float) (concat m)).
  { revert Hget. unfold getBayerMatrix, is_square.
    repeat (destruct (String.eqb type _);
            [intros [= <-]; (split; [discriminate|]); (split; [by repeat constructor|]);
             cbn [concat app length];
             repeat (apply Forall_cons; split;
                     [vm_compute; first [by left | by right]|]);
             by apply Forall_nil|]).
    discriminate. }
  destruct Hshape as (Hm & Hsq & Hall). unfold threshold_at.
  assert (Hn : 0 < Z.of_nat (length m)) by (destruct m; [done|cbn; lia]).
  apply (proj1 (Forall_forall _ _) Hall).
  apply matrix_cell_elem; [done|done|by apply Z.mod_pos_bound..].
Qed.

Variable paletteColors : list Color.
Hypothesis palette_colors : Forall is_color paletteColors.

Lemma ordered_body_zero (type : string) (m : list (list Z)) (width height : Z) (n : nat)
    (x y : Z) (d : list Z) :
  getBayerMatrix type = Ok m ->
  Z.of_nat n = width * height * 4 -> 0 <= x < width -> 0 <= y < height ->
  length d = n -> Forall is_byte d ->
  related_results (fun d1 d2 : list Z => d1 = d2 /\ length d2 = n /\ Forall is_byte d2)
    (ordered_body width 0 paletteColors m y d x)
    (applyPalette_body paletteColors d (pixel_offset width (x, y))).
Proof.
  intros Hget Hn Hx Hy Hlen Hbytes. unfold ordered_body, applyPalette_body, pixel_offset.
  destruct (in_buffer width height x y n Hn Hx Hy) as [Hlo Hhi]. rewrite <- Hlen in Hhi.
  pose proof (threshold_silent type m x y Hget ltac:(lia) ltac:(lia)) as Hz.
  assert (Hshape : m <> [] /\ is_square m).
  { revert Hget. unfold getBayerMatrix, is_square.
    repeat (destruct (String.eqb type _);
            [intros [= <-]; split; [discriminate|by repeat constructor]|]).
    discriminate. }
  destruct Hshape as [Hm Hsq].
  rewrite (ordered_threshold_cell m Hm Hsq x y) by lia. cbn [mbind Result_bind].
  unfold DitheringCoefficients.ORDERED_THRESHOLD_CENTER.
  destruct (observed_sample d ((y * width + x) * 4) Hbytes) as (b0 & Hb0 & Hg0 & _); [lia|].
  destruct (observed_sample d ((y * width + x) * 4 + 1) Hbytes) as (b1 & Hb1 & Hg1 & _); [lia|].
  destruct (observed_sample d ((y * width + x) * 4 + 2) Hbytes) as (b2 & Hb2 & Hg2 & _); [lia|].
  rewrite Hg0, Hg1, Hg2. rewrite !of_Z_add_zeroish by (done || by apply byte_small).
  destruct (findClosestPaletteColor _ paletteColors) as [[[n0 n1] n2]|e];
    cbn [mbind Result_bind related_results]; [|done].
  split; [done|]. split; [by unfold Uint8ClampedArray_set; rewrite !length_ta_set|].
  by repeat apply Uint8ClampedArray_set_bytes.
Qed.

Variables (data : list Z) (width height : Z).
Hypothesis data_buffer : is_pixel_buffer data width height.

Lemma applyPalette_raster :
  applyPalette data paletteColors
  = for_each (fun d p => applyPalette_body paletteColors d (pixel_offset width p))
      (Spec.raster_order width height) data.
Proof.
  destruct data_buffer as (Hw & Hh & Hlen & _). unfold applyPalette.
  rewrite <- (for_each_fmap (pixel_offset width) (applyPalette_body paletteColors)).
  by rewrite raster_offsets, <- Hlen, Nat2Z.id.
Qed.

Lemma orderedDithering_zero (type : string) (m : list (list Z)) :
  getBayerMatrix type = Ok m ->
  orderedDithering data width height 0 paletteColors m = applyPalette data paletteColors.
Proof.
  intros Hget. destruct data_buffer as (Hw & Hh & Hlen & Hbytes).
  unfold orderedDithering. rewrite raster_scan_flat, applyPalette_raster.
  pose proof (for_each_related
    (fun d1 d2 : list Z => d1 = d2 /\ length d2 = length data /\ Forall is_byte d2)
    (fun s '(x, y) => ordered_body width 0 paletteColors m y s x)
    (fun d p => applyPalette_body paletteColors d (pixel_offset width p))
    (Spec.raster_order width height)) as Hsim.
  specialize (Hsim ltac:(intros s t [x y] Hxy (-> & Hl & Hb);
    apply elem_of_raster_order in Hxy as [Hx Hy];
    by apply (ordered_body_zero type m width height)) data data ltac:(done)).
  unfold related_results in Hsim.
  destruct (for_each _ _ data) as [d1|e1], (for_each _ _ data) as [d2|e2];
    try done; [|by subst].
  by destruct Hsim as (-> & _).
Qed.

Lemma floydSteinbergDithering_zero :
  floydSteinbergDithering data width height 0 paletteColors
  = applyPalette data paletteColors.
Proof.
  destruct data_buffer as (Hw & Hh & Hlen & Hbytes).
  unfold floydSteinbergDithering. rewrite raster_scan_flat, applyPalette_raster.
  pose proof (for_each_related (no_diffusion (length data))
    (fun s '(x, y) => floydSteinberg_body width height 0 paletteColors y s x)
    (fun d p => applyPalette_body paletteColors d (pixel_offset width p))
    (Spec.raster_order width height)) as Hsim.
  specialize (Hsim ltac:(intros s t [x y] Hxy Hst;
    apply elem_of_raster_order in Hxy as [Hx Hy];
    by apply floydSteinberg_body_zero)
    (data, Float32Array_new (length data)) data ltac:(done)).
  unfold related_results in Hsim.
  destruct (for_each _ _ (data, _)) as [[d1 eb]|e1], (for_each _ _ data) as [d2|e2];
    cbn; try done; [|by subst].
  destruct Hsim as (Hd & _). cbn in Hd. by subst.
Qed.

Lemma atkinsonDithering_zero :
  atkinsonDithering data width height 0 paletteColors
  = applyPalette data paletteColors.
Proof.
  destruct data_buffer as (Hw & Hh & Hlen & Hbytes).
  unfold atkinsonDithering. rewrite raster_scan_flat, applyPalette_raster.
  pose proof (for_each_related (no_diffusion (length data))
    (fun s '(x, y) => atkinson_body width height 0 paletteColors y s x)
    (fun d p => applyPalette_body paletteColors d (pixel_offset width p))
    (Spec.raster_order width height)) as Hsim.
  specialize (Hsim ltac:(intros s t [x y] Hxy Hst;
    apply elem_of_raster_order in Hxy as [Hx Hy];
    by apply atkinson_body_zero)
    (data, Float32Array_new (length data)) data ltac:(done)).
  unfold related_results in Hsim.
  destruct (for_each _ _ (data, _)) as [[d1 eb]|e1], (for_each _ _ data) as [d2|e2];
    cbn; try done; [|by subst].
  destruct Hsim as (Hd & _). cbn in Hd. by subst.
Qed.

End DefaultStrength.

(** X14. On a pixel buffer, ordered dithering with strength 0 returns
    exactly what flat quantisation returns, for each of the four matrices of
    [getBayerMatrix] and any palette: (threshold - 127.5) x 0 is a zero of
    either sign, and adding it leaves every sample as it is. *)
Theorem ordered_strength_zero_is_flat_quantization (data : list Z) (width height : Z)
    (paletteColors : list Color) (type : string) (bayerMatrix : list (list Z)) :
  is_pixel_buffer data width height ->
  getBayerMatrix type = Ok bayerMatrix ->
  orderedDithering data width height 0 paletteColors bayerMatrix
  = applyPalette data paletteColors.
Proof.
  intros Hdata Hget. by eapply orderedDithering_zero.
Qed.

Lemma ordered_strength_zero_is_flat_quantization_witness :
  orderedDithering [200; 100; 50; 255; 10; 20; 30; 40] 2 1 0
    [(0, 0, 0); (255, 255, 255)]
    [[7; 13; 11; 4]; [12; 16; 14; 8]; [10; 15; 6; 2]; [5; 9; 3; 1]]
  = applyPalette [200; 100; 50; 255; 10; 20; 30; 40] [(0, 0, 0); (255, 255, 255)].
Proof.
  apply (ordered_strength_zero_is_flat_quantization [200; 100; 50; 255; 10; 20; 30; 40] 2 1
           [(0, 0, 0); (255, 255, 255)] "clustered 4x4").
  - unfold is_pixel_buffer. repeat split; try lia.
    repeat constructor; unfold is_byte; lia.
  - reflexivity.
Defined.

(** X15. With the default strength 0 the dither option of [pixelate] has no
    effect: on a pixel buffer and a palette of 8-bit colours every
    recognised name, in any letter case, gives the result of flat
    quantisation. *)
Theorem default_strength_ignores_dither (pixelatedData : list Z) (pixelsWide pixelsHigh : Z)
    (dither : string) (paletteColors : list Color) :
  is_pixel_buffer pixelatedData pixelsWide pixelsHigh ->
  Forall is_color paletteColors ->
  toLowerCase dither ∈ recognized_names ->
  pixelate_dither pixelatedData pixelsWide pixelsHigh dither 0 (Some paletteColors)
  = applyPalette pixelatedData paletteColors.
Proof.
  intros Hdata Hpal Hname. unfold pixelate_dither.
  change (0 / 100)%float with 0%float.
  unfold recognized_names in Hname.
  repeat (apply elem_of_cons in Hname as [-> | Hname];
          [cbn [String.eqb Ascii.eqb Bool.eqb negb andb mbind Result_bind getBayerMatrix];
           first [ reflexivity
                 | by apply floydSteinbergDithering_zero
                 | by apply atkinsonDithering_zero
                 | eapply orderedDithering_zero; [done|];
                   first [ exact (eq_refl : getBayerMatrix "8x8" = _)
                         | exact (eq_refl : getBayerMatrix "4x4" = _)
                         | exact (eq_refl : getBayerMatrix "2x2" = _)
                         | exact (eq_refl : getBayerMatrix "clustered 4x4" = _) ] ]|]).
  by apply elem_of_nil in Hname.
Qed.

Lemma default_strength_ignores_dither_witness :
  pixelate_dither [200; 100; 50; 255; 10; 20; 30; 40] 2 1 "Floyd-Steinberg" 0
    (Some [(0, 0, 0); (255, 255, 255)])
  = applyPalette [200; 100; 50; 255; 10; 20; 30; 40] [(0, 0, 0); (255, 255, 255)].
Proof.
  apply (default_strength_ignores_dither [200; 100; 50; 255; 10; 20; 30; 40] 2 1
           "Floyd-Steinberg" [(0, 0, 0); (255, 255, 255)]).
  - unfold is_pixel_buffer. repeat split; try lia.
    repeat constructor; unfold is_byte; lia.
  - repeat constructor; unfold is_byte; lia.
  - vm_compute. right. left.
Defined.

(** ** Error diffusion on an image that is already quantised *)

Section FixedPoint.

Lemma zeroish_mul_finite (z s : float) :
  zeroish z -> is_finite s = true -> zeroish (z * s)%float.
Proof.
  intros Hz. unfold is_finite, is_nan, is_infinity.
  rewrite !FloatAxioms.eqb_spec, abs_spec. intros Hs.
  rewrite <- (SF2Prim_Prim2SF (z * s)%float), mul_spec.
  destruct Hz as [-> | ->].
  - change (Prim2SF 0) with (S754_zero false).
    destruct (Prim2SF s) as [[]|[]| |[] m e]; try discriminate Hs;
      first [by left | by right].
  - change (Prim2SF (-0)) with (S754_zero true).
    destruct (Prim2SF s) as [[]|[]| |[] m e]; try discriminate Hs;
      first [by left | by right].
Qed.

Lemma for_each_fixed {S A : Type} (body : S -> A -> Result S) (l : list A) (st : S) :
  (forall a, a ∈ l -> body st a = Ok st) -> for_each body l st = Ok st.
Proof.
  induction l as [|a l IH]; intros Hbody; cbn [for_each]; [done|].
  rewrite Hbody by left. cbn [mbind Result_bind]. apply IH. intros b Hb. apply Hbody. by right.
Qed.

Variables (width height : Z) (strength : float) (paletteColors : list Color).
Hypothesis palette_colors : Forall is_color paletteColors.
Hypothesis strength_finite : is_finite strength = true.

Variable data : list Z.
Hypothesis data_quantised : quantised data width height paletteColors.

(** At a pixel that carries a palette colour, with no error pending, the
    pixel is kept and the error to spread is a zero. *)
Lemma quantize_pixel_fixed (x y : Z) :
  0 <= x < width -> 0 <= y < height ->
  exists e0 e1 e2,
    quantize_pixel data (Float32Array_new (length data)) ((y * width + x) * 4)
      strength paletteColors = Ok (data, (e0, e1, e2)) /\
    zeroish e0 /\ zeroish e1 /\ zeroish e2.
Proof.
  intros Hx Hy. destruct (data_quantised x y Hx Hy) as ([[r g] b] & a & Hpix & Hc).
  assert (Hcol : is_color (r, g, b)) by (eapply Forall_forall; eauto).
  destruct Hcol as (Hr & Hg & Hb).
  pose proof (pixel_at_samples data width x y r g b a Hpix) as Hread.
  cbn [num_color] in Hread. injection Hread as R0 R1 R2.
  apply pixel_at_slots in Hpix as (S0 & S1 & S2 & S3). unfold pixel_offset in *.
  assert (Hlen : (y * width + x) * 4 + 3 < Z.of_nat (length data)).
  { unfold ta_get in S3. destruct (_ <? 0); [done|]. apply lookup_lt_Some in S3. lia. }
  assert (Hidx : 0 <= (y * width + x) * 4) by nia.
  assert (Hzero : forall t, 0 <= t <= 2 ->
    Float32Array_get (Float32Array_new (length data)) ((y * width + x) * 4 + t) = 0%float).
  { intros t Ht. unfold Float32Array_get, Float32Array_new.
    destruct (ta_get_Some (replicate (length data) 0%float) ((y * width + x) * 4 + t))
      as [z Hz]; [rewrite length_replicate; lia|].
    rewrite Hz. unfold ta_get in Hz. destruct (_ <? 0); [done|].
    by apply lookup_replicate in Hz as [-> _]. }
  unfold quantize_pixel.
  pose proof (Hzero 0 ltac:(lia)) as Z0. rewrite Z.add_0_r in Z0.
  rewrite Z0, (Hzero 1), (Hzero 2) by lia. rewrite R0, R1, R2.
  rewrite !of_Z_add_zero by (by apply byte_small).
  pose proof (findClosestPaletteColor_fixed paletteColors palette_colors (r, g, b) Hc)
    as Hfind.
  cbn [num_color] in Hfind. rewrite Hfind.
  cbn [mbind Result_bind]. unfold Uint8ClampedArray_set.
  rewrite (ta_set_id data ((y * width + x) * 4) (clamp8 r))
    by (intros w Hw; rewrite clamp8_byte by done; congruence).
  rewrite (ta_set_id data ((y * width + x) * 4 + 1) (clamp8 g))
    by (intros w Hw; rewrite clamp8_byte by done; congruence).
  rewrite (ta_set_id data ((y * width + x) * 4 + 2) (clamp8 b))
    by (intros w Hw; rewrite clamp8_byte by done; congruence).
  rewrite !of_Z_sub by (unfold is_byte in *; change (2 ^ 53) with 9007199254740992; lia).
  rewrite !Z.sub_diag. change (of_Z 0) with 0%float.
  eexists _, _, _. split; [done|].
  repeat split; apply zeroish_mul_finite; (done || by left).
Qed.

Lemma floydSteinbergDithering_fixed :
  floydSteinbergDithering data width height strength paletteColors = Ok data.
Proof.
  unfold floydSteinbergDithering. rewrite raster_scan_flat, for_each_fixed; [done|].
  intros [x y] Hxy. apply elem_of_raster_order in Hxy as [Hx Hy].
  unfold floydSteinberg_body.
  destruct (quantize_pixel_fixed x y Hx Hy) as (e0 & e1 & e2 & -> & H0 & H1 & H2).
  cbn [mbind Result_bind].
  by rewrite !distributeError_zero by (done || (apply list_elem_of_In; vm_compute; tauto)).
Qed.

Lemma atkinsonDithering_fixed :
  atkinsonDithering data width height strength paletteColors = Ok data.
Proof.
  unfold atkinsonDithering. rewrite raster_scan_flat, for_each_fixed; [done|].
  intros [x y] Hxy. apply elem_of_raster_order in Hxy as [Hx Hy].
  unfold atkinson_body.
  destruct (quantize_pixel_fixed x y Hx Hy) as (e0 & e1 & e2 & -> & H0 & H1 & H2).
  cbn [mbind Result_bind].
  by rewrite !distributeError_zero by (done || (apply list_elem_of_In; vm_compute; tauto)).
Qed.

End FixedPoint.

Section Requantised.

Variables (width height : Z) (strength : float) (paletteColors : list Color).
Hypothesis palette_nonempty : paletteColors <> [].
Hypothesis palette_colors : Forall is_color paletteColors.

Lemma pixel_exists (data : list Z) (x y : Z) :
  Z.of_nat (length data) = width * height * 4 ->
  0 <= x < width -> 0 <= y < height ->
  exists c a, pixel_at data width x y = Some (c, a).
Proof.
  intros Hlen Hx Hy.
  assert (Hin : forall t, 0 <= t <= 3 ->
    exists v, ta_get data (pixel_offset width (x, y) + t) = Some v).
  { intros t Ht. apply ta_get_Some. unfold pixel_offset. nia. }
  destruct (Hin 0 ltac:(lia)) as [r Hr]. rewrite Z.add_0_r in Hr.
  destruct (Hin 1 ltac:(lia)) as [g Hg]. destruct (Hin 2 ltac:(lia)) as [b Hb].
  destruct (Hin 3 ltac:(lia)) as [a Ha].
  exists (r, g, b), a. by apply pixel_at_slots.
Qed.

(** What comes out of an error-diffusion scan is quantised. *)
Lemma scan_quantised (body : Z -> list Z * list float -> Z -> Result (list Z * list float))
    (st st' : list Z * list float) :
  (forall s x' y', 0 <= x' < width -> 0 <= y' < height ->
     exists s' q0 q1 q2,
       body y' s x' = Ok s' /\ (q0, q1, q2) ∈ paletteColors /\
       fst s' = Uint8ClampedArray_set
                  (Uint8ClampedArray_set
                     (Uint8ClampedArray_set (fst s) ((y' * width + x') * 4) q0)
                     ((y' * width + x') * 4 + 1) q1)
                  ((y' * width + x') * 4 + 2) q2) ->
  Z.of_nat (length (fst st)) = width * height * 4 ->
  raster_scan body width height st = Ok st' ->
  quantised (fst st') width height paletteColors.
Proof.
  intros Hbody Hlen Hrun x y Hx Hy.
  destruct (pixel_exists (fst st) x y Hlen Hx Hy) as (c & a & Hpix).
  destruct (scan_quantises width height paletteColors palette_colors fst body st x y c a
              Hbody Hx Hy Hpix) as (st2 & q & Hrun2 & Hq & Hout).
  rewrite Hrun in Hrun2. injection Hrun2 as <-. by exists q, a.
Qed.

Lemma floydSteinbergDithering_quantised (data once : list Z) :
  Z.of_nat (length data) = width * height * 4 ->
  floydSteinbergDithering data width height strength paletteColors = Ok once ->
  quantised once width height paletteColors.
Proof.
  intros Hlen. unfold floydSteinbergDithering.
  destruct (raster_scan _ _ _ _) as [[d eb]|e] eqn:Hrun; [|done].
  cbn [mbind Result_bind fst]. intros [= <-].
  apply (scan_quantised _ _ (d, eb)) in Hrun; [done| |done].
  intros [d' eb'] x' y' _ _. unfold floydSteinberg_body.
  destruct (quantize_pixel_stores strength paletteColors palette_nonempty d' eb'
              ((y' * width + x') * 4)) as (q0 & q1 & q2 & e & -> & Hq).
  cbn [mbind Result_bind]. by eexists _, q0, q1, q2.
Qed.

Lemma atkinsonDithering_quantised (data once : list Z) :
  Z.of_nat (length data) = width * height * 4 ->
  atkinsonDithering data width height strength paletteColors = Ok once ->
  quantised once width height paletteColors.
Proof.
  intros Hlen. unfold atkinsonDithering.
  destruct (raster_scan _ _ _ _) as [[d eb]|e] eqn:Hrun; [|done].
  cbn [mbind Result_bind fst]. intros [= <-].
  apply (scan_quantised _ _ (d, eb)) in Hrun; [done| |done].
  intros [d' eb'] x' y' _ _. unfold atkinson_body.
  destruct (quantize_pixel_stores strength paletteColors palette_nonempty d' eb'
              ((y' * width + x') * 4)) as (q0 & q1 & q2 & e & -> & Hq).
  cbn [mbind Result_bind]. by eexists _, q0, q1, q2.
Qed.

End Requantised.

(** X16. An image whose every pixel already carries a colour of the palette
    is a fixed point of both error-diffusion ditherers, at any finite
    strength: each pixel is its own nearest colour, the quantisation error is
    a zero, and nothing is diffused. *)
Theorem error_diffusion_fixed_point (data : list Z) (width height : Z)
    (strength : float) (paletteColors : list Color) :
  Forall is_color paletteColors -> is_finite strength = true ->
  quantised data width height paletteColors ->
  floydSteinbergDithering data width height strength paletteColors = Ok data /\
  atkinsonDithering data width height strength paletteColors = Ok data.
Proof.
  intros Hpal Hs Hq. split.
  - by apply floydSteinbergDithering_fixed.
  - by apply atkinsonDithering_fixed.
Qed.

Lemma error_diffusion_fixed_point_witness :
  floydSteinbergDithering [255; 255; 255; 7; 0; 0; 0; 9] 2 1 (1 / 2)
    [(0, 0, 0); (255, 255, 255)] = Ok [255; 255; 255; 7; 0; 0; 0; 9] /\
  atkinsonDithering [255; 255; 255; 7; 0; 0; 0; 9] 2 1 (1 / 2)
    [(0, 0, 0); (255, 255, 255)] = Ok [255; 255; 255; 7; 0; 0; 0; 9].
Proof.
  apply (error_diffusion_fixed_point [255; 255; 255; 7; 0; 0; 0; 9] 2 1 (1 / 2)
           [(0, 0, 0); (255, 255, 255)]).
  - repeat constructor; unfold is_byte; lia.
  - reflexivity.
  - intros x y Hx Hy. assert (Hy0 : y = 0) by lia. subst y.
    assert (Hx01 : x = 0 \/ x = 1) by lia. destruct Hx01 as [-> | ->].
    + exists (255, 255, 255), 7. split; [reflexivity|]. right. left.
    + exists (0, 0, 0), 9. split; [reflexivity|]. left.
Defined.

(** X17. Both error-diffusion ditherers are idempotent on a buffer of
    width x height x 4 samples, at any finite strength and for any non-empty
    palette of 8-bit colours: the run returns an image, and dithering that
    image again changes nothing. *)
Theorem error_diffusion_idempotent (data : list Z) (width height : Z)
    (strength : float) (paletteColors : list Color) :
  paletteColors <> [] -> Forall is_color paletteColors ->
  is_finite strength = true ->
  Z.of_nat (length data) = width * height * 4 ->
  (exists once,
     floydSteinbergDithering data width height strength paletteColors = Ok once /\
     floydSteinbergDithering once width height strength paletteColors = Ok once) /\
  (exists once,
     atkinsonDithering data width height strength paletteColors = Ok once /\
     atkinsonDithering once width height strength paletteColors = Ok once).
Proof.
  intros Hne Hpal Hs Hlen. split.
  - destruct (floydSteinbergDithering_alpha data width height strength paletteColors Hne)
      as (once & Hrun & _).
    exists once. split; [done|]. apply floydSteinbergDithering_fixed; [done|done|].
    by apply (floydSteinbergDithering_quantised width height strength paletteColors
                Hne Hpal data).
  - destruct (atkinsonDithering_alpha data width height strength paletteColors Hne)
      as (once & Hrun & _).
    exists once. split; [done|]. apply atkinsonDithering_fixed; [done|done|].
    by apply (atkinsonDithering_quantised width height strength paletteColors
                Hne Hpal data).
Qed.

Lemma error_diffusion_idempotent_witness :
  (exists once,
     floydSteinbergDithering [200; 100; 50; 255; 10; 20; 30; 40] 2 1 1
       [(0, 0, 0); (255, 255, 255)] = Ok once /\
     floydSteinbergDithering once 2 1 1 [(0, 0, 0); (255, 255, 255)] = Ok once) /\
  (exists once,
     atkinsonDithering [200; 100; 50; 255; 10; 20; 30; 40] 2 1 1
       [(0, 0, 0); (255, 255, 255)] = Ok once /\
     atkinsonDithering once 2 1 1 [(0, 0, 0); (255, 255, 255)] = Ok once).
Proof.
  apply (error_diffusion_idempotent [200; 100; 50; 255; 10; 20; 30; 40] 2 1 1
           [(0, 0, 0); (255, 255, 255)]).
  - discriminate.
  - repeat constructor; unfold is_byte; lia.
  - reflexivity.
  - reflexivity.
Defined.

(** ** The palette given as an array, through the dither stage *)

(** X18. On a pixel buffer of pixelsWide x pixelsHigh pixels (the ImageData
    of a run whose width is a whole number of pixels), with a non-empty
    array of strings as palette, the dither stage of [pixelate] never throws
    for a recognised dither name (any letter case) and any strength, and
    every pixel of the result is the [hexToRgb] of one of the strings,
    whatever they spell, with the alpha it had. *)
Theorem pixelate_array_palette (pixelatedData : list Z) (pixelsWide pixelsHigh : Z)
    (dither : string) (strength : float) (palette : list string) :
  is_pixel_buffer pixelatedData pixelsWide pixelsHigh ->
  palette <> [] ->
  toLowerCase dither ∈ recognized_names ->
  exists out,
    pixelate_dither pixelatedData pixelsWide pixelsHigh dither strength
      (Some (palette_of_array palette)) = Ok out /\
    forall x y, 0 <= x < pixelsWide -> 0 <= y < pixelsHigh ->
      exists c a hex,
        pixel_at pixelatedData pixelsWide x y = Some (c, a) /\
        hex ∈ palette /\
        pixel_at out pixelsWide x y = Some (hexToRgb hex, a).
Proof.
  intros (Hw & Hh & Hlen & _) Hne Hname.
  assert (Hcolors : Forall is_color (palette_of_array palette)).
  { unfold palette_of_array. apply Forall_fmap, Forall_forall. intros hex _.
    apply hexToRgb_color. }
  assert (Hne' : palette_of_array palette <> []).
  { unfold palette_of_array. by destruct palette. }
  assert (Hpixel : forall x y c a,
    0 <= x < pixelsWide -> 0 <= y < pixelsHigh ->
    pixel_at pixelatedData pixelsWide x y = Some (c, a) ->
    exists out q,
      pixelate_dither pixelatedData pixelsWide pixelsHigh dither strength
        (Some (palette_of_array palette)) = Ok out /\
      q ∈ palette_of_array palette /\ pixel_at out pixelsWide x y = Some (q, a)).
  { intros x y c a Hx Hy Hpix. unfold pixelate_dither, recognized_names in *.
    repeat (apply elem_of_cons in Hname as [-> | Hname];
            [cbn [String.eqb Ascii.eqb Bool.eqb negb andb mbind Result_bind getBayerMatrix];
             first [ by eapply applyPalette_quantises
                   | by eapply floydSteinbergDithering_quantises
                   | by eapply atkinsonDithering_quantises
                   | by eapply orderedDithering_quantises ]|]).
    by apply elem_of_nil in Hname. }
  assert (Htotal : exists out,
    pixelate_dither pixelatedData pixelsWide pixelsHigh dither strength
      (Some (palette_of_array palette)) = Ok out).
  { unfold pixelate_dither, recognized_names in *.
    repeat (apply elem_of_cons in Hname as [-> | Hname];
            [cbn [String.eqb Ascii.eqb Bool.eqb negb andb mbind Result_bind getBayerMatrix];
             first [ edestruct applyPalette_alpha as (out & Hrun & _);
                     [exact Hne'|exists out; exact Hrun]
                   | edestruct floydSteinbergDithering_alpha as (out & Hrun & _);
                     [exact Hne'|exists out; exact Hrun]
                   | edestruct atkinsonDithering_alpha as (out & Hrun & _);
                     [exact Hne'|exists out; exact Hrun]
                   | edestruct orderedDithering_alpha as (out & Hrun & _);
                     [exact Hne'| |exists out; exact Hrun]; discriminate ]|]).
    by apply elem_of_nil in Hname. }
  destruct Htotal as [out Hrun]. exists out. split; [done|].
  intros x y Hx Hy.
  destruct (pixel_exists pixelsWide pixelsHigh pixelatedData x y Hlen Hx Hy)
    as (c & a & Hpix).
  destruct (Hpixel x y c a Hx Hy Hpix) as (out' & q & Hrun' & Hq & Hout).
  rewrite Hrun in Hrun'. injection Hrun' as <-.
  apply list_elem_of_fmap in Hq as (hex & -> & Hhex). by exists c, a, hex.
Qed.

Lemma pixelate_array_palette_witness :
  exists out,
    pixelate_dither [200; 100; 50; 255; 10; 20; 30; 40] 2 1 "Atkinson" 50
      (Some (palette_of_array ["#000000"; "ffffff"; "#F00"]%string)) = Ok out /\
    forall x y, 0 <= x < 2 -> 0 <= y < 1 ->
      exists c a hex,
        pixel_at [200; 100; 50; 255; 10; 20; 30; 40] 2 x y = Some (c, a) /\
        hex ∈ ["#000000"; "ffffff"; "#F00"]%string /\
        pixel_at out 2 x y = Some (hexToRgb hex, a).
Proof.
  apply (pixelate_array_palette [200; 100; 50; 255; 10; 20; 30; 40] 2 1 "Atkinson" 50
           ["#000000"; "ffffff"; "#F00"]%string).
  - unfold is_pixel_buffer. repeat split; try lia.
    repeat constructor; unfold is_byte; lia.
  - discriminate.
  - vm_compute. right. right. left.
Defined.
